(** * Relay indirection client and WebRTC session hook

    A shallow embedding of the API client ([lib/api]: [withLivepeerRoute],
    the seven backend calls, [startLivepeerStream],
    [forwardLivepeerRequest]) and of the [useWebRTC] hook in its revision
    with the relay ("livepeer") transport, with the properties the
    specification states about them and further properties of the same
    code.

    Conventions of the embedding.
    - A JavaScript string is its sequence of UTF-16 code units; a string
      literal of the source is written [js"..."].
    - A JSON value and a parameter record are a [JSValue]; an object keeps
      its properties in insertion order.
    - A request body [Json v] stands for the text [JSON.stringify(v)]; a
      response carries its text together with what [JSON.parse] makes of
      it.
    - An [async] function is cut at its [await]s: the part that runs
      synchronously when the function is called, and one continuation per
      suspension point, which receives what the awaited promise settled
      to.  Between the two anything else may happen to the hook.
    - React state is read as it was last set, and the options of a hook
      instance do not change during its life.
    - The browser is what the hook can observe of it: which connections
      were constructed and not closed, which carry a data channel or
      handlers, and the order of the calls made ([log]).
      [new RTCPeerConnection] succeeds; [addTrack], [addTransceiver] and
      [createDataChannel] raise on a closed connection.
    - The variable [livepeerStreamId] of the API module is shared: it
      outlives a hook instance and anybody may call its setter.  A run of
      one instance therefore includes writes of it from elsewhere
      ([SetElsewhere]), after which it holds any value.
    - [console.*] calls are not modelled. *)

From Stdlib Require Import List NArith Bool String Ascii Lia.
From Stdlib Require Import Floats.SpecFloat.
Import ListNotations.

Set Implicit Arguments.
Set Warnings "-register-all".
Local Open Scope N_scope.

(* ================================================================== *)
(** ** JavaScript strings *)

(** A string value: UTF-16 code units, each below [0x10000]. *)
Definition jsstring : Type := list N.

Module JsString.

Definition t := jsstring.

(** The code units of an ASCII literal of the source. *)
Fixpoint lit (s : string) : t :=
  match s with
  | EmptyString => []
  | String a r => N_of_ascii a :: lit r
  end.

Definition eqb (a b : t) : bool :=
  if list_eq_dec N.eq_dec a b then true else false.

(** [ToBoolean] on a string: only the empty string is falsy. *)
Definition truthy (s : t) : bool :=
  match s with [] => false | _ :: _ => true end.

(** [String.prototype.includes] for a one-unit needle. *)
Definition has (c : N) (s : t) : bool := existsb (N.eqb c) s.

(** [s.split(sep)] for a one-unit separator. *)
Fixpoint split (sep : N) (s : t) : list t :=
  match s with
  | [] => [[]]
  | c :: r =>
      if c =? sep then [] :: split sep r
      else match split sep r with
           | [] => [[c]]
           | seg :: segs => (c :: seg) :: segs
           end
  end.

Fixpoint starts_with (prefix s : t) : bool :=
  match prefix, s with
  | [], _ => true
  | p :: ps, c :: r => (p =? c) && starts_with ps r
  | _ :: _, [] => false
  end.

(** [hay.includes(needle)]. *)
Fixpoint includes (needle hay : t) : bool :=
  starts_with needle hay ||
  match hay with
  | [] => false
  | _ :: r => includes needle r
  end.

Fixpoint digits (u : Decimal.uint) : t :=
  match u with
  | Decimal.Nil => []
  | Decimal.D0 r => 48 :: digits r
  | Decimal.D1 r => 49 :: digits r
  | Decimal.D2 r => 50 :: digits r
  | Decimal.D3 r => 51 :: digits r
  | Decimal.D4 r => 52 :: digits r
  | Decimal.D5 r => 53 :: digits r
  | Decimal.D6 r => 54 :: digits r
  | Decimal.D7 r => 55 :: digits r
  | Decimal.D8 r => 56 :: digits r
  | Decimal.D9 r => 57 :: digits r
  end.

(** [String(n)] for a non-negative integer, as a template literal
    interpolates [response.status]. *)
Definition of_N (n : N) : t := digits (N.to_uint n).

End JsString.

Notation "'js' s" := (JsString.lit s) (at level 9, s at level 0, format "'js' s").

(* ================================================================== *)
(** ** [encodeURIComponent] (ECMA-262, [Encode] with the unreserved set) *)

Module Uri.

Definition between (lo hi c : N) : bool := (lo <=? c) && (c <=? hi).

Definition is_alpha (c : N) : bool := between 65 90 c || between 97 122 c.
Definition is_digit (c : N) : bool := between 48 57 c.

(** uriMark: - _ . ! ~ * ' ( ) *)
Definition is_mark (c : N) : bool :=
  existsb (N.eqb c) [45; 95; 46; 33; 126; 42; 39; 40; 41].

Definition unescaped (c : N) : bool := is_alpha c || is_digit c || is_mark c.

Definition is_lead (c : N) : bool := between 55296 56319 c.   (* D800..DBFF *)
Definition is_trail (c : N) : bool := between 56320 57343 c.  (* DC00..DFFF *)

Definition hex (d : N) : N :=
  let d := d mod 16 in if d <? 10 then 48 + d else 55 + d.

(** One octet as [%XX], upper-case hexadecimal. *)
Definition pct (b : N) : jsstring := [37; hex (b / 16); hex b].

(** The UTF-8 octets of a code point. *)
Definition utf8 (cp : N) : list N :=
  if cp <? 128 then [cp]
  else if cp <? 2048 then [192 + cp / 64; 128 + cp mod 64]
  else if cp <? 65536 then
    [224 + cp / 4096; 128 + (cp / 64) mod 64; 128 + cp mod 64]
  else
    [240 + cp / 262144; 128 + (cp / 4096) mod 64;
     128 + (cp / 64) mod 64; 128 + cp mod 64].

Definition escape (cp : N) : jsstring := flat_map pct (utf8 cp).

Definition pair_code_point (lead trail : N) : N :=
  (lead - 55296) * 1024 + (trail - 56320) + 65536.

(** [None] is the [URIError] raised on an unpaired surrogate. *)
Fixpoint encodeURIComponent (s : jsstring) : option jsstring :=
  match s with
  | [] => Some []
  | c :: rest =>
      if unescaped c then option_map (cons c) (encodeURIComponent rest)
      else if is_trail c then None
      else if is_lead c then
        match rest with
        | d :: rest' =>
            if is_trail d
            then option_map (app (escape (pair_code_point c d)))
                            (encodeURIComponent rest')
            else None
        | [] => None
        end
      else option_map (app (escape c)) (encodeURIComponent rest)
  end.

(** No surrogate code unit stands alone. *)
Fixpoint well_formed (s : jsstring) : bool :=
  match s with
  | [] => true
  | c :: rest =>
      if is_trail c then false
      else if is_lead c then
        match rest with
        | d :: rest' => is_trail d && well_formed rest'
        | [] => false
        end
      else well_formed rest
  end.

(** The reserved characters of a URI and the fragment mark:
    ; / ? : @ & = + $ , # *)
Definition reserved (c : N) : bool :=
  existsb (N.eqb c) [59; 47; 63; 58; 64; 38; 61; 43; 36; 44; 35].

(** What an encoded component is made of. *)
Definition component_unit (c : N) : bool := unescaped c || (c =? 37).

End Uri.

(* ================================================================== *)
(** ** JavaScript values, as far as JSON and the parameter records go *)

Inductive JSValue : Type :=
| JUndefined
| JNull
| JBool (b : bool)
| JNumber (x : spec_float)
| JString (s : jsstring)
| JArray (xs : list JSValue)
| JObject (fields : list (jsstring * JSValue)).

Module Js.

(** [ToBoolean]. *)
Definition truthy (v : JSValue) : bool :=
  match v with
  | JUndefined | JNull => false
  | JBool b => b
  | JNumber (S754_zero _) | JNumber S754_nan => false
  | JNumber _ => true
  | JString s => JsString.truthy s
  | JArray _ | JObject _ => true
  end.

(** [v === undefined || v === null]. *)
Definition nullish (v : JSValue) : bool :=
  match v with JUndefined | JNull => true | _ => false end.

Fixpoint lookup (k : jsstring) (fs : list (jsstring * JSValue)) : JSValue :=
  match fs with
  | [] => JUndefined
  | (k', v) :: r => if JsString.eqb k k' then v else lookup k r
  end.

(** [v?.k] for a key that no prototype defines ([whep_url], [stream_id],
    [type], ...): an own property of an object, [undefined] otherwise. *)
Definition get (v : JSValue) (k : jsstring) : JSValue :=
  match v with
  | JObject fs => lookup k fs
  | _ => JUndefined
  end.

(** [a ?? b]. *)
Definition coalesce (a b : JSValue) : JSValue :=
  match a with JUndefined | JNull => b | _ => a end.

(** [a || b]. *)
Definition or (a b : JSValue) : JSValue := if truthy a then a else b.

Definition keys (fs : list (jsstring * JSValue)) : list jsstring := map fst fs.

(** [obj[k] = v] on an ordinary object that inherits from
    [Object.prototype]: an own property keeps its place and takes the
    value; a key the object does not have is added last, except
    [__proto__], for which the assignment reaches the setter of
    [Object.prototype]: that makes [v] the prototype when [v] is an object
    and does nothing otherwise, and in neither case is there a new own
    property.  (A prototype made of data properties does not change what
    later assignments add.) *)
Fixpoint set (k : jsstring) (v : JSValue) (fs : list (jsstring * JSValue))
  : list (jsstring * JSValue) :=
  match fs with
  | [] => if JsString.eqb k js"__proto__" then [] else [(k, v)]
  | (k', v') :: r =>
      if JsString.eqb k k' then (k, v) :: r else (k', v') :: set k v r
  end.

End Js.

(* ================================================================== *)
(** ** Errors and completions *)

Inductive JSError : Type :=
| Error (message : jsstring)   (* [new Error(message)] *)
| SyntaxError                  (* [JSON.parse], [response.json()] *)
| TypeError                    (* a rejected [fetch] *)
| URIError                     (* [encodeURIComponent] *)
| DOMException.                (* a WebRTC call that fails *)

Inductive Completion (A : Type) : Type :=
| Return (a : A)
| Throw (e : JSError).

Arguments Return {A} a.
Arguments Throw {A} e.

(* ================================================================== *)
(** ** HTTP as [fetch] shows it *)

Module Http.

Inductive Method := GET | POST.

(** [Json v] is the text [JSON.stringify(v)]. *)
Inductive Body :=
| NoBody
| Json (v : JSValue)
| Raw (s : jsstring).

Record Request := {
  url : jsstring;
  method : Method;
  contentType : jsstring;
  body : Body
}.

(** [json] is what [JSON.parse] makes of [text]: [None] when it raises
    [SyntaxError]. *)
Record Response := {
  status : N;
  statusText : jsstring;
  contentTypeHeader : option jsstring;
  text : jsstring;
  json : option JSValue
}.

Definition ok (r : Response) : bool := Uri.between 200 299 (status r).

(** What the promise of [fetch] settles to. *)
Inductive Settled :=
| Responded (r : Response)
| Unreachable.

End Http.

Import Http.

(* ================================================================== *)
(** ** The API client *)

Module Api.

(** The module variable [livepeerStreamId]. *)
Record Module_ := { livepeerStreamId : option jsstring }.

Definition initial : Module_ := {| livepeerStreamId := None |}.

Definition setLivepeerStreamId (id : option jsstring) (_ : Module_) : Module_ :=
  {| livepeerStreamId := id |}.

(** An asynchronous call, cut at its [await fetch(...)]: either the
    request left and [settle] turns what came back into the result, or
    the call was rejected before any request. *)
Inductive Issued :=
| Sent (req : Request) (settle : Settled -> Completion JSValue)
| Aborted (e : JSError).

(** Run a call against a network that answers [net]. *)
Definition perform (net : Request -> Settled) (i : Issued)
  : list Request * Completion JSValue :=
  match i with
  | Sent req settle => ([req], settle (net req))
  | Aborted e => ([], Throw e)
  end.

Definition requests (i : Issued) : list Request :=
  match i with Sent req _ => [req] | Aborted _ => [] end.

(** [`${label}: ${response.status} ${response.statusText}: ${errorText}`] *)
Definition failure (label : jsstring) (r : Response) : JSError :=
  Error (label ++ js": " ++ JsString.of_N (status r) ++ js" "
               ++ statusText r ++ js": " ++ text r).

(** The tail shared by the backend fetchers:
    [if (!response.ok) throw ...; return await response.json()]. *)
Definition settle_json (label : jsstring) (o : Settled) : Completion JSValue :=
  match o with
  | Unreachable => Throw TypeError
  | Responded r =>
      if ok r then
        match json r with
        | Some v => Return v
        | None => Throw SyntaxError
        end
      else Throw (failure label r)
  end.

Definition json_request (m : Method) (u : jsstring) (b : Body) : Request :=
  {| url := u; method := m; contentType := js"application/json"; body := b |}.

(** [body: JSON.stringify(data)]: for [undefined] the text is [undefined]
    and the request has no body. *)
Definition json_body (data : JSValue) : Body :=
  match data with
  | JUndefined => NoBody
  | _ => Json data
  end.

Definition forward_settle (o : Settled) : Completion JSValue :=
  match o with
  | Unreachable => Throw TypeError
  | Responded r =>
      if ok r then
        if JsString.truthy (text r) then
          match json r with
          | Some v => Return v
          | None => Return (JString (text r))
          end
        else Return JNull
      else Throw (failure js"Livepeer update failed" r)
  end.

Definition envelope (route : jsstring) (payload : JSValue) : JSValue :=
  JObject [(js"route", JString route); (js"request", payload)].

Definition forwardLivepeerRequest
           (streamId route : jsstring) (payload : JSValue) : Issued :=
  match Uri.encodeURIComponent streamId with
  | None => Aborted URIError
  | Some component =>
      Sent (json_request POST
              (js"/ai/stream/" ++ component ++ js"/update")
              (Json (envelope route payload)))
           forward_settle
  end.

Definition withLivepeerRoute
           (route : jsstring) (requestBody : JSValue) (fetcher : Issued)
           (m : Module_) : Module_ * Issued :=
  match livepeerStreamId m with
  | Some id =>
      if JsString.truthy id
      then (m, forwardLivepeerRequest id route (Js.coalesce requestBody JNull))
      else (m, fetcher)
  | None => (m, fetcher)
  end.

(** A default parameter value: used when the argument is [undefined].
    After [data = {}] the value stringified is never [undefined], so the
    body of [loadPipeline] and of [startLivepeerStream] is always there. *)
Definition default (v d : JSValue) : JSValue :=
  match v with JUndefined => d | _ => v end.

Definition sendWebRTCOffer (data : JSValue) :=
  withLivepeerRoute js"/api/v1/webrtc/offer" data
    (Sent (json_request POST js"/api/v1/webrtc/offer" (json_body data))
          (settle_json js"WebRTC offer failed")).

Definition loadPipeline (data : JSValue) :=
  let data := default data (JObject []) in
  withLivepeerRoute js"/api/v1/pipeline/load" data
    (Sent (json_request POST js"/api/v1/pipeline/load" (Json data))
          (settle_json js"Pipeline load failed")).

Definition getPipelineStatus :=
  withLivepeerRoute js"/api/v1/pipeline/status" JNull
    (Sent (json_request GET js"/api/v1/pipeline/status" NoBody)
          (settle_json js"Pipeline status failed")).

Definition checkModelStatus (pipelineId : jsstring) :=
  withLivepeerRoute (js"/api/v1/models/status?pipeline_id=" ++ pipelineId) JNull
    (Sent (json_request GET
             (js"/api/v1/models/status?pipeline_id=" ++ pipelineId) NoBody)
          (settle_json js"Model status check failed")).

Definition downloadPipelineModels (pipelineId : jsstring) :=
  let payload := JObject [(js"pipeline_id", JString pipelineId)] in
  withLivepeerRoute js"/api/v1/models/download" payload
    (Sent (json_request POST js"/api/v1/models/download" (Json payload))
          (settle_json js"Model download failed")).

Definition updatePipelineParameters (data : JSValue) :=
  withLivepeerRoute js"/api/v1/pipeline/update" data
    (Sent (json_request POST js"/api/v1/pipeline/update" (json_body data))
          (settle_json js"Pipeline update failed")).

Definition getHardwareInfo :=
  withLivepeerRoute js"/api/v1/hardware/info" JNull
    (Sent (json_request GET js"/api/v1/hardware/info" NoBody)
          (settle_json js"Hardware info failed")).

Definition start_settle (o : Settled) : Completion JSValue :=
  match settle_json js"Livepeer stream start failed" o with
  | Throw e => Throw e
  | Return result =>
      if negb (Js.truthy (Js.get result js"whep_url")) then
        Throw (Error js"Livepeer stream start response missing whep_url")
      else if negb (Js.truthy (Js.get result js"stream_id")) then
        Throw (Error js"Livepeer stream start response missing stream_id")
      else Return result
  end.

Definition startLivepeerStream (data : JSValue) (m : Module_)
  : Module_ * Issued :=
  let data := default data (JObject []) in
  (m, Sent (json_request POST js"/ai/stream/start" (Json data)) start_settle).

End Api.

(* ================================================================== *)
(** ** Browser objects the hook handles *)

Module Media.

Inductive Kind := Audio | Video.

Record Track := { trackId : N; kind : Kind }.

(** A [MediaStream] holds each of its tracks once. *)
Record Stream := { streamId : N; tracks : list Track }.

Definition is_video (t : Track) : bool :=
  match kind t with Video => true | Audio => false end.

Definition getTracks (s : Stream) : list Track := tracks s.
Definition getVideoTracks (s : Stream) : list Track := filter is_video (tracks s).

End Media.

Inductive RTCPeerConnectionState :=
| new | connecting | connected | disconnected | failed | closed.

Inductive RTCDataChannelState := dc_connecting | dc_open | dc_closing | dc_closed.

(** A peer connection is named by the order of its construction; its
    ["parameters"] data channel carries the same name. *)
Definition PcId := N.

(** An [RTCRtpSender] as [getSenders()] lists it. *)
Record Sender := { senderId : N; track : option Media.Track }.

(** [await startLivepeerStream(...)] resolves to a value of this declared
    type. *)
Record LivepeerStreamStartResponse := { whep_url : jsstring; stream_id : jsstring }.

(** [pc.localDescription], when it is not [null]. *)
Record SessionDescription := { sdp : jsstring; type_ : jsstring }.

(** An [await] inside a call: the call either finished with a result, or
    is suspended on the promise it awaits. *)
Inductive Awaiting (A : Type) : Type :=
| Resolved (a : A)
| Suspended.

Arguments Resolved {A} a.
Arguments Suspended {A}.

(** What the event handlers of one [startStream] call captured. *)
Record Closure := {
  whepUrl : option jsstring;
  initialParameters : JSValue
}.

(** What the hook does to the outside, in order. *)
Inductive Effect :=
| Fetch (req : Request)
| SetLivepeerStreamId (id : option jsstring)
| NewPeerConnection (pc : PcId)
| CreateDataChannel (pc : PcId)
| AddTrack (pc : PcId) (t : Media.Track)
| AddTransceiver (pc : PcId)
| AttachHandlers (pc : PcId)
| CreateOffer (pc : PcId)
| SetLocalDescription (pc : PcId)
| SetRemoteDescription (pc : PcId) (answer : JSValue)
| Close (pc : PcId)
| ReplaceTrack (pc : PcId) (sender : N) (t : Media.Track)
| Send (channel : PcId) (message : JSValue)   (* [JSON.stringify(message)] *)
| Toast (description : JSValue)
| OnStreamStop.

Inductive Transport := webrtc | livepeer.

Record UseWebRTCOptions := {
  onStreamStop : bool;                     (* a callback was passed *)
  parameterTransport_opt : option Transport
}.

(* ================================================================== *)
(** ** The state of one hook instance and of what it shares *)

Record World := {
  (* useState *)
  remoteStream : option Media.Stream;
  connectionState : RTCPeerConnectionState;
  isConnecting : bool;
  isStreaming : bool;
  (* useRef *)
  peerConnectionRef : option PcId;
  dataChannelRef : option PcId;
  currentStreamRef : option Media.Stream;
  livepeerStreamIdRef : option jsstring;
  (* the API module *)
  api : Api.Module_;
  (* the browser *)
  nextPc : PcId;                      (* connections constructed so far *)
  openPcs : list PcId;                (* constructed and not closed *)
  channels : list PcId;               (* connections with a data channel *)
  handlers : list (PcId * Closure);   (* connections with handlers attached *)
  (* the effects so far, oldest first *)
  log : list Effect
}.

Definition initial_world : World := {|
  remoteStream := None; connectionState := new;
  isConnecting := false; isStreaming := false;
  peerConnectionRef := None; dataChannelRef := None;
  currentStreamRef := None; livepeerStreamIdRef := None;
  api := Api.initial;
  nextPc := 0; openPcs := []; channels := []; handlers := [];
  log := []
|}.

Module W.

Definition setRemoteStream v (w : World) : World :=
  {| remoteStream := v; connectionState := connectionState w;
     isConnecting := isConnecting w; isStreaming := isStreaming w;
     peerConnectionRef := peerConnectionRef w; dataChannelRef := dataChannelRef w;
     currentStreamRef := currentStreamRef w;
     livepeerStreamIdRef := livepeerStreamIdRef w; api := api w;
     nextPc := nextPc w; openPcs := openPcs w; channels := channels w;
     handlers := handlers w; log := log w |}.

Definition setConnectionState v (w : World) : World :=
  {| remoteStream := remoteStream w; connectionState := v;
     isConnecting := isConnecting w; isStreaming := isStreaming w;
     peerConnectionRef := peerConnectionRef w; dataChannelRef := dataChannelRef w;
     currentStreamRef := currentStreamRef w;
     livepeerStreamIdRef := livepeerStreamIdRef w; api := api w;
     nextPc := nextPc w; openPcs := openPcs w; channels := channels w;
     handlers := handlers w; log := log w |}.

Definition setIsConnecting v (w : World) : World :=
  {| remoteStream := remoteStream w; connectionState := connectionState w;
     isConnecting := v; isStreaming := isStreaming w;
     peerConnectionRef := peerConnectionRef w; dataChannelRef := dataChannelRef w;
     currentStreamRef := currentStreamRef w;
     livepeerStreamIdRef := livepeerStreamIdRef w; api := api w;
     nextPc := nextPc w; openPcs := openPcs w; channels := channels w;
     handlers := handlers w; log := log w |}.

Definition setIsStreaming v (w : World) : World :=
  {| remoteStream := remoteStream w; connectionState := connectionState w;
     isConnecting := isConnecting w; isStreaming := v;
     peerConnectionRef := peerConnectionRef w; dataChannelRef := dataChannelRef w;
     currentStreamRef := currentStreamRef w;
     livepeerStreamIdRef := livepeerStreamIdRef w; api := api w;
     nextPc := nextPc w; openPcs := openPcs w; channels := channels w;
     handlers := handlers w; log := log w |}.

Definition setPeerConnectionRef v (w : World) : World :=
  {| remoteStream := remoteStream w; connectionState := connectionState w;
     isConnecting := isConnecting w; isStreaming := isStreaming w;
     peerConnectionRef := v; dataChannelRef := dataChannelRef w;
     currentStreamRef := currentStreamRef w;
     livepeerStreamIdRef := livepeerStreamIdRef w; api := api w;
     nextPc := nextPc w; openPcs := openPcs w; channels := channels w;
     handlers := handlers w; log := log w |}.

Definition setDataChannelRef v (w : World) : World :=
  {| remoteStream := remoteStream w; connectionState := connectionState w;
     isConnecting := isConnecting w; isStreaming := isStreaming w;
     peerConnectionRef := peerConnectionRef w; dataChannelRef := v;
     currentStreamRef := currentStreamRef w;
     livepeerStreamIdRef := livepeerStreamIdRef w; api := api w;
     nextPc := nextPc w; openPcs := openPcs w; channels := channels w;
     handlers := handlers w; log := log w |}.

Definition setCurrentStreamRef v (w : World) : World :=
  {| remoteStream := remoteStream w; connectionState := connectionState w;
     isConnecting := isConnecting w; isStreaming := isStreaming w;
     peerConnectionRef := peerConnectionRef w; dataChannelRef := dataChannelRef w;
     currentStreamRef := v;
     livepeerStreamIdRef := livepeerStreamIdRef w; api := api w;
     nextPc := nextPc w; openPcs := openPcs w; channels := channels w;
     handlers := handlers w; log := log w |}.

Definition setLivepeerStreamIdRef v (w : World) : World :=
  {| remoteStream := remoteStream w; connectionState := connectionState w;
     isConnecting := isConnecting w; isStreaming := isStreaming w;
     peerConnectionRef := peerConnectionRef w; dataChannelRef := dataChannelRef w;
     currentStreamRef := currentStreamRef w;
     livepeerStreamIdRef := v; api := api w;
     nextPc := nextPc w; openPcs := openPcs w; channels := channels w;
     handlers := handlers w; log := log w |}.

Definition setApi v (w : World) : World :=
  {| remoteStream := remoteStream w; connectionState := connectionState w;
     isConnecting := isConnecting w; isStreaming := isStreaming w;
     peerConnectionRef := peerConnectionRef w; dataChannelRef := dataChannelRef w;
     currentStreamRef := currentStreamRef w;
     livepeerStreamIdRef := livepeerStreamIdRef w; api := v;
     nextPc := nextPc w; openPcs := openPcs w; channels := channels w;
     handlers := handlers w; log := log w |}.

(** The browser side: counter, open connections, channels, handlers. *)
Definition setBrowser n o c h (w : World) : World :=
  {| remoteStream := remoteStream w; connectionState := connectionState w;
     isConnecting := isConnecting w; isStreaming := isStreaming w;
     peerConnectionRef := peerConnectionRef w; dataChannelRef := dataChannelRef w;
     currentStreamRef := currentStreamRef w;
     livepeerStreamIdRef := livepeerStreamIdRef w; api := api w;
     nextPc := n; openPcs := o; channels := c; handlers := h; log := log w |}.

Definition emit (e : Effect) (w : World) : World :=
  {| remoteStream := remoteStream w; connectionState := connectionState w;
     isConnecting := isConnecting w; isStreaming := isStreaming w;
     peerConnectionRef := peerConnectionRef w; dataChannelRef := dataChannelRef w;
     currentStreamRef := currentStreamRef w;
     livepeerStreamIdRef := livepeerStreamIdRef w; api := api w;
     nextPc := nextPc w; openPcs := openPcs w; channels := channels w;
     handlers := handlers w; log := log w ++ [e] |}.

Definition is_open (pc : PcId) (w : World) : bool := existsb (N.eqb pc) (openPcs w).

Definition closure_of (pc : PcId) (w : World) : option Closure :=
  option_map snd (find (fun h => fst h =? pc) (handlers w)).

End W.

(* ================================================================== *)
(** ** The hook *)

Module Hook.

(** Statements of the hook: they read and write the world and may throw. *)
Definition M (A : Type) : Type := World -> Completion A * World.

Definition ret {A} (a : A) : M A := fun w => (Return a, w).

Definition bind {A B} (m : M A) (k : A -> M B) : M B :=
  fun w => match m w with
           | (Return a, w') => k a w'
           | (Throw e, w') => (Throw e, w')
           end.

Definition throw {A} (e : JSError) : M A := fun w => (Throw e, w).

(** [try { body } catch (error) { handler }]. *)
Definition try_catch {A} (body : M A) (handler : JSError -> M A) : M A :=
  fun w => match body w with
           | (Return a, w') => (Return a, w')
           | (Throw e, w') => handler e w'
           end.

Definition read : M World := fun w => (Return w, w).
Definition act (f : World -> World) : M unit := fun w => (Return tt, f w).
Definition when (b : bool) (m : M unit) : M unit := if b then m else ret tt.
Definition exec {A} (m : M A) (w : World) : World := snd (m w).

Declare Scope hook_scope.
Delimit Scope hook_scope with hook.
Notation "x <- m ;; k" := (bind m (fun x => k))
  (at level 61, m at next level, right associativity) : hook_scope.
Notation "m ;; k" := (bind m (fun _ => k))
  (at level 61, right associativity) : hook_scope.
Local Open Scope hook_scope.

Definition is_some {A} (o : option A) : bool :=
  match o with Some _ => true | None => false end.

(** *** Calls into the browser and the API module *)

Definition setLivepeerStreamId (id : option jsstring) : M unit :=
  act (fun w => W.emit (SetLivepeerStreamId id)
                  (W.setApi (Api.setLivepeerStreamId id (api w)) w)).

(** [new RTCPeerConnection(config)] *)
Definition newRTCPeerConnection : M PcId :=
  fun w =>
    let pc := nextPc w in
    (Return pc,
     W.emit (NewPeerConnection pc)
       (W.setBrowser (pc + 1) (pc :: openPcs w) (channels w) (handlers w) w)).

(** [pc.close()] *)
Definition close (pc : PcId) : M unit :=
  act (fun w => W.emit (Close pc)
                  (W.setBrowser (nextPc w)
                     (filter (fun p => negb (p =? pc)) (openPcs w))
                     (channels w) (handlers w) w)).

(** A call that raises [InvalidStateError] on a closed connection. *)
Definition on_open (pc : PcId) (f : World -> World) : M unit :=
  fun w => if W.is_open pc w then (Return tt, f w) else (Throw DOMException, w).

(** [pc.createDataChannel("parameters", ...)], with its handlers. *)
Definition createDataChannel (pc : PcId) : M unit :=
  on_open pc (fun w => W.emit (CreateDataChannel pc)
                         (W.setBrowser (nextPc w) (openPcs w)
                            (pc :: channels w) (handlers w) w)).

Definition addTrack (pc : PcId) (t : Media.Track) : M unit :=
  on_open pc (W.emit (AddTrack pc t)).

Definition addTransceiver (pc : PcId) : M unit :=
  on_open pc (W.emit (AddTransceiver pc)).

(** [pc.ontrack = ...; pc.onconnectionstatechange = ...; ...] *)
Definition attachHandlers (pc : PcId) (c : Closure) : M unit :=
  act (fun w => W.emit (AttachHandlers pc)
                  (W.setBrowser (nextPc w) (openPcs w) (channels w)
                     ((pc, c) :: handlers w) w)).

(** Calling an [async] API function: it runs up to its [fetch]. *)
Definition call (f : Api.Module_ -> Api.Module_ * Api.Issued) : M unit :=
  fun w =>
    let (m, issued) := f (api w) in
    match issued with
    | Api.Sent req _ => (Return tt, W.emit (Fetch req) (W.setApi m w))
    | Api.Aborted e => (Throw e, W.setApi m w)
    end.

Section Instance.

Variable options : UseWebRTCOptions.

(** [options?.parameterTransport ?? "webrtc"] *)
Definition parameterTransport : Transport :=
  match parameterTransport_opt options with
  | Some t => t
  | None => webrtc
  end.

Definition isLivepeerTransport : bool :=
  match parameterTransport with livepeer => true | webrtc => false end.

(** [livepeerStreamIdRef.current = null; setLivepeerStreamId(null);] *)
Definition clearLivepeerStreamId : M unit :=
  act (W.setLivepeerStreamIdRef None) ;; setLivepeerStreamId None.

(** [if (peerConnectionRef.current) { .close(); .current = null; }] *)
Definition closePeerConnection : M unit :=
  w <- read ;;
  match peerConnectionRef w with
  | Some pc => close pc ;; act (W.setPeerConnectionRef None)
  | None => ret tt
  end.

(** *** startStream *)

Fixpoint addVideoTracks (pc : PcId) (ts : list Media.Track) : M unit :=
  match ts with
  | [] => ret tt
  | t :: r =>
      when (Media.is_video t) (addTrack pc t) ;; addVideoTracks pc r
  end.

(** From "Add video track" to [await pc.createOffer()]. *)
Definition startMedia (pc : PcId) (url : option jsstring)
           (params : JSValue) (stream : option Media.Stream) : M unit :=
  match stream with
  | Some s => addVideoTracks pc (Media.getTracks s)
  | None => addTransceiver pc
  end ;;
  attachHandlers pc {| whepUrl := url; initialParameters := params |} ;;
  act (W.emit (CreateOffer pc)).

(** The [catch] of the whole function. *)
Definition startCatch : M unit :=
  closePeerConnection ;;
  act (W.setLivepeerStreamIdRef None) ;;
  setLivepeerStreamId None ;;
  act (W.setIsConnecting false) ;;
  act (W.setIsStreaming false).

(** The call itself: up to the first [await]. *)
Definition startStream (params : JSValue) (stream : option Media.Stream)
  : M unit :=
  w <- read ;;
  if isConnecting w || is_some (peerConnectionRef w) then ret tt
  else
    act (W.setIsConnecting true) ;;
    try_catch
      (when (negb isLivepeerTransport) clearLivepeerStreamId ;;
       act (W.setCurrentStreamRef stream) ;;
       pc <- newRTCPeerConnection ;;
       act (W.setPeerConnectionRef (Some pc)) ;;
       if negb isLivepeerTransport then
         createDataChannel pc ;;
         act (W.setDataChannelRef (Some pc)) ;;
         startMedia pc None params stream
       else
         act (W.setDataChannelRef None) ;;
         call (Api.startLivepeerStream
                 (JObject [(js"initialParameters", params)])))
      (fun _ => startCatch).

(** The inner [try] around [await startLivepeerStream(...)], once the
    promise settled to [outcome]: it yields [whepUrl]. *)
Definition startStream_relayAnswer
           (outcome : Completion LivepeerStreamStartResponse)
  : M (option jsstring) :=
  try_catch
    (match outcome with
     | Return response =>
         act (W.setLivepeerStreamIdRef (Some (stream_id response))) ;;
         setLivepeerStreamId (Some (stream_id response)) ;;
         ret (Some (whep_url response))
     | Throw e => throw e
     end)
    (fun error => clearLivepeerStreamId ;; throw error).

(** The rest of the call after [await startLivepeerStream(...)]. *)
Definition startStream_relayStarted
           (pc : PcId) (params : JSValue) (stream : option Media.Stream)
           (outcome : Completion LivepeerStreamStartResponse) : M unit :=
  try_catch
    (url <- startStream_relayAnswer outcome ;;
     startMedia pc url params stream)
    (fun _ => startCatch).

(** After [await pc.createOffer()] settled. *)
Definition startStream_offerCreated (pc : PcId) (resolved : bool) : M unit :=
  try_catch
    (if resolved then act (W.emit (SetLocalDescription pc))
     else throw DOMException)
    (fun _ => startCatch).

(** After [await pc.setLocalDescription(offer)] settled. *)
Definition startStream_localDescriptionSet (resolved : bool) : M unit :=
  try_catch
    (if resolved then ret tt else throw DOMException)
    (fun _ => startCatch).

(** *** Handlers attached by startStream *)

Definition onTrack (streams : list Media.Stream) : M unit :=
  match streams with
  | s :: _ => act (W.setRemoteStream (Some s))
  | [] => ret tt
  end.

Definition onConnectionStateChange (state : RTCPeerConnectionState) : M unit :=
  act (W.setConnectionState state) ;;
  match state with
  | connected =>
      act (W.setIsConnecting false) ;;
      act (W.setIsStreaming true)
  | disconnected | failed | closed =>
      act (W.setIsConnecting false) ;;
      act (W.setIsStreaming false) ;;
      when isLivepeerTransport clearLivepeerStreamId
  | new | connecting => ret tt
  end.

(** [dataChannel.onmessage]; [parsed] is [JSON.parse(event.data)]. *)
Definition onDataChannelMessage (parsed : option JSValue) : M unit :=
  try_catch
    (match parsed with
     | None => throw SyntaxError
     | Some (JUndefined | JNull) => throw TypeError   (* [data.type] *)
     | Some data =>
         match Js.get data js"type" with
         | JString type =>
             when (JsString.eqb type js"stream_stopped")
               (act (W.setIsStreaming false) ;;
                act (W.setIsConnecting false) ;;
                act (W.setRemoteStream None) ;;
                when (Js.truthy (Js.get data js"error_message"))
                  (act (W.emit (Toast (Js.get data js"error_message")))) ;;
                closePeerConnection ;;
                clearLivepeerStreamId ;;
                when (onStreamStop options) (act (W.emit OnStreamStop)))
         | _ => ret tt
         end
     end)
    (fun _ => ret tt).

Definition truthy_ref (r : option jsstring) : bool :=
  match r with Some s => JsString.truthy s | None => false end.

(** [pc.onicecandidate], up to its [await]. *)
Definition onIceCandidate (c : Closure) (candidate : bool)
           (localDescription : option SessionDescription) : M unit :=
  if candidate then ret tt
  else
    try_catch
      (if isLivepeerTransport then
         match whepUrl c with
         | Some url =>
             if JsString.truthy url then
               match localDescription with
               | Some d =>
                   if JsString.truthy (sdp d) then
                     act (W.emit (Fetch {| url := url; method := POST;
                                           contentType := js"application/sdp";
                                           body := Raw (sdp d) |}))
                   else throw (Error js"Local description missing during WHEP negotiation")
               | None =>
                   throw (Error js"Local description missing during WHEP negotiation")
               end
             else throw (Error js"Missing WHEP URL for Livepeer transport")
         | None => throw (Error js"Missing WHEP URL for Livepeer transport")
         end
       else
         match localDescription with
         | Some d =>
             call (Api.sendWebRTCOffer
                     (JObject [(js"sdp", JString (sdp d));
                               (js"type", JString (type_ d));
                               (js"initialParameters", initialParameters c)]))
         | None => throw TypeError   (* [pc.localDescription!.sdp] *)
         end)
      (fun _ => act (W.setIsConnecting false)).

(** After [await fetch(whepUrl, ...)] settled. *)
Definition onIceCandidate_whepAnswered (pc : PcId) (o : Settled) : M unit :=
  try_catch
    (match o with
     | Unreachable => throw TypeError
     | Responded r =>
         if negb (ok r) then throw (Api.failure js"WHEP negotiation failed" r)
         else
           let contentType :=
             match contentTypeHeader r with
             | Some h => if JsString.truthy h then h else []
             | None => []
             end in
           answerSdp <-
             (if JsString.includes js"application/json" contentType then
                match json r with
                | None => throw SyntaxError
                | Some (JUndefined | JNull) => throw TypeError
                | Some j =>
                    ret (Js.or (Js.or (Js.get j js"sdp") (Js.get j js"answer"))
                               (Js.get j js"data"))
                end
              else ret (JString (text r))) ;;
           if negb (Js.truthy answerSdp) then
             throw (Error js"WHEP negotiation response missing SDP answer")
           else
             act (W.emit (SetRemoteDescription pc
                            (JObject [(js"type", JString js"answer");
                                      (js"sdp", answerSdp)])))
     end)
    (fun _ => act (W.setIsConnecting false)).

(** After [await sendWebRTCOffer(...)] settled. *)
Definition onIceCandidate_offerAnswered
           (pc : PcId) (outcome : Completion JSValue) : M unit :=
  try_catch
    (match outcome with
     | Return answer => act (W.emit (SetRemoteDescription pc answer))
     | Throw e => throw e
     end)
    (fun _ => act (W.setIsConnecting false)).

(** After [await pc.setRemoteDescription(answer)] settled. *)
Definition onIceCandidate_remoteDescriptionSet (resolved : bool) : M unit :=
  try_catch
    (if resolved then ret tt else throw DOMException)
    (fun _ => act (W.setIsConnecting false)).

(** *** updateVideoTrack *)

Definition sends_video (s : Sender) : bool :=
  match track s with
  | Some t => Media.is_video t
  | None => false
  end.

(** The call, up to [await sender.replaceTrack(videoTrack)];
    [senders] is what [getSenders()] returns. *)
Definition updateVideoTrack (newStream : Media.Stream) (senders : list Sender)
  : M (Awaiting bool) :=
  w <- read ;;
  match peerConnectionRef w with
  | Some pc =>
      if isStreaming w then
        try_catch
          (match Media.getVideoTracks newStream with
           | [] => ret (Resolved false)
           | videoTrack :: _ =>
               match find sends_video senders with
               | Some sender =>
                   act (W.emit (ReplaceTrack pc (senderId sender) videoTrack)) ;;
                   ret Suspended
               | None => ret (Resolved false)
               end
           end)
          (fun _ => ret (Resolved false))
      else ret (Resolved false)
  | None => ret (Resolved false)
  end.

(** After [await sender.replaceTrack(videoTrack)] settled. *)
Definition updateVideoTrack_replaced
           (newStream : Media.Stream) (resolved : bool) : M bool :=
  try_catch
    (if resolved then
       act (W.setCurrentStreamRef (Some newStream)) ;; ret true
     else throw DOMException)
    (fun _ => ret false).

(** The call with nothing else happening while it is suspended. *)
Definition updateVideoTrack_settled
           (newStream : Media.Stream) (senders : list Sender)
           (replaced : bool) : M bool :=
  r <- updateVideoTrack newStream senders ;;
  match r with
  | Resolved b => ret b
  | Suspended => updateVideoTrack_replaced newStream replaced
  end.

(** *** sendParameterUpdate *)

(** The loop over [Object.entries(params)]. *)
Definition filterParams (params : list (jsstring * JSValue))
  : list (jsstring * JSValue) :=
  fold_left
    (fun filteredParams entry =>
       if negb (Js.nullish (snd entry))
       then Js.set (fst entry) (snd entry) filteredParams
       else filteredParams)
    params [].

(** [readyState] is [dataChannelRef.current.readyState]. *)
Definition sendParameterUpdate (params : list (jsstring * JSValue))
           (readyState : RTCDataChannelState) : M unit :=
  let filteredParams := filterParams params in
  if Nat.eqb (List.length (Js.keys filteredParams)) 0 then ret tt
  else
    match parameterTransport with
    | livepeer =>
        w <- read ;;
        if negb (truthy_ref (livepeerStreamIdRef w)) then ret tt
        else
          try_catch
            (call (Api.updatePipelineParameters (JObject filteredParams)))
            (fun _ => ret tt)
    | webrtc =>
        w <- read ;;
        match dataChannelRef w, readyState with
        | Some channel, dc_open =>
            try_catch
              (act (W.emit (Send channel (JObject filteredParams))))
              (fun _ => ret tt)
        | _, _ => ret tt
        end
    end.

(** *** stopStream and the unmount cleanup *)

Definition stopStream : M unit :=
  closePeerConnection ;;
  act (W.setDataChannelRef None) ;;
  act (W.setCurrentStreamRef None) ;;
  clearLivepeerStreamId ;;
  act (W.setRemoteStream None) ;;
  act (W.setConnectionState new) ;;
  act (W.setIsStreaming false).

Definition unmount : M unit :=
  w <- read ;;
  match peerConnectionRef w with
  | Some pc => close pc
  | None => ret tt
  end.

(** *** Runs of one hook instance *)

(** What can happen to the instance: calls of the functions it returns,
    events on the connections it made, settlements of the promises it
    awaits, and, last, a call of the exported [setLivepeerStreamId] from
    outside the instance (another instance of the hook, which shares the
    module, or any other importer). *)
Inductive Event :=
| StartStream (params : JSValue) (stream : option Media.Stream)
| RelayStarted (pc : PcId) (params : JSValue) (stream : option Media.Stream)
               (outcome : Completion LivepeerStreamStartResponse)
| OfferCreated (pc : PcId) (resolved : bool)
| LocalDescriptionSet (resolved : bool)
| TrackEvent (pc : PcId) (streams : list Media.Stream)
| ConnectionStateChange (pc : PcId) (state : RTCPeerConnectionState)
| IceCandidate (pc : PcId) (candidate : bool)
               (localDescription : option SessionDescription)
| WhepAnswered (pc : PcId) (o : Settled)
| OfferAnswered (pc : PcId) (outcome : Completion JSValue)
| RemoteDescriptionSet (resolved : bool)
| DataChannelMessage (channel : PcId) (parsed : option JSValue)
| UpdateVideoTrack (newStream : Media.Stream) (senders : list Sender)
| TrackReplaced (newStream : Media.Stream) (resolved : bool)
| SendParameterUpdate (params : list (jsstring * JSValue))
                      (readyState : RTCDataChannelState)
| StopStream
| Unmount
| SetElsewhere (id : option jsstring).

(** An event of a connection reaches the handlers attached to it. *)
Definition dispatch (pc : PcId) (handler : Closure -> M unit) : M unit :=
  w <- read ;;
  match W.closure_of pc w with
  | Some c => handler c
  | None => ret tt
  end.

Definition handle (e : Event) : M unit :=
  match e with
  | StartStream params stream => startStream params stream
  | RelayStarted pc params stream outcome =>
      startStream_relayStarted pc params stream outcome
  | OfferCreated pc resolved => startStream_offerCreated pc resolved
  | LocalDescriptionSet resolved => startStream_localDescriptionSet resolved
  | TrackEvent pc streams => dispatch pc (fun _ => onTrack streams)
  | ConnectionStateChange pc state =>
      dispatch pc (fun _ => onConnectionStateChange state)
  | IceCandidate pc candidate localDescription =>
      dispatch pc (fun c => onIceCandidate c candidate localDescription)
  | WhepAnswered pc o => onIceCandidate_whepAnswered pc o
  | OfferAnswered pc outcome => onIceCandidate_offerAnswered pc outcome
  | RemoteDescriptionSet resolved => onIceCandidate_remoteDescriptionSet resolved
  | DataChannelMessage channel parsed =>
      w <- read ;;
      when (existsb (N.eqb channel) (channels w)) (onDataChannelMessage parsed)
  | UpdateVideoTrack newStream senders =>
      updateVideoTrack newStream senders ;; ret tt
  | TrackReplaced newStream resolved =>
      updateVideoTrack_replaced newStream resolved ;; ret tt
  | SendParameterUpdate params readyState =>
      sendParameterUpdate params readyState
  | StopStream => stopStream
  | Unmount => unmount
  | SetElsewhere id => act (fun w => W.setApi (Api.setLivepeerStreamId id (api w)) w)
  end.

Definition step (w : World) (e : Event) : World := exec (handle e) w.

Definition run (es : list Event) (w : World) : World := fold_left step es w.

End Instance.

End Hook.

(* ================================================================== *)
(** * Vocabulary of the properties *)

(* ================================================================== *)
(** ** Calls of the API client *)

Module Calls.

Import Api.

(** The calls that go through [withLivepeerRoute], with their arguments. *)
Inductive Eligible :=
| SendWebRTCOffer (data : JSValue)
| LoadPipeline (data : JSValue)
| GetPipelineStatus
| CheckModelStatus (pipelineId : jsstring)
| DownloadPipelineModels (pipelineId : jsstring)
| UpdatePipelineParameters (data : JSValue)
| GetHardwareInfo.

Definition invoke (c : Eligible) : Module_ -> Module_ * Issued :=
  match c with
  | SendWebRTCOffer data => sendWebRTCOffer data
  | LoadPipeline data => loadPipeline data
  | GetPipelineStatus => getPipelineStatus
  | CheckModelStatus pipelineId => checkModelStatus pipelineId
  | DownloadPipelineModels pipelineId => downloadPipelineModels pipelineId
  | UpdatePipelineParameters data => updatePipelineParameters data
  | GetHardwareInfo => getHardwareInfo
  end.

(** Every function the client exports that makes a request. *)
Inductive Call :=
| Routed (c : Eligible)
| StartLivepeerStream (data : JSValue)
| ForwardLivepeerRequest (streamId route : jsstring) (payload : JSValue).

Definition invoke_any (c : Call) (m : Module_) : Module_ * Issued :=
  match c with
  | Routed c => invoke c m
  | StartLivepeerStream data => startLivepeerStream data m
  | ForwardLivepeerRequest streamId route payload =>
      (m, forwardLivepeerRequest streamId route payload)
  end.

(** The request a call makes to the backend, that is, with no relay
    stream id set. *)
Definition backend_request (c : Eligible) : option Request :=
  match snd (invoke c initial) with
  | Sent req _ => Some req
  | Aborted _ => None
  end.

(** The value a request body carries: [null] when there is none. *)
Definition carried (b : Body) : JSValue :=
  match b with
  | Json v => Js.coalesce v JNull
  | NoBody | Raw _ => JNull
  end.

Definition relay_request (component route : jsstring) (payload : JSValue) : Request :=
  json_request POST (js"/ai/stream/" ++ component ++ js"/update")
               (Json (envelope route payload)).

(** Whether the module variable routes calls to the relay:
    [if (livepeerStreamId)]. *)
Definition relay_set (m : Module_) : bool :=
  match livepeerStreamId m with
  | Some id => JsString.truthy id
  | None => false
  end.

(** How a call reads a 2xx answer. *)
Inductive Reading := PlainJson | ValidatedJson | RelayBody.

Definition reading (c : Call) (m : Module_) : Reading :=
  match c with
  | Routed _ => if relay_set m then RelayBody else PlainJson
  | StartLivepeerStream _ => ValidatedJson
  | ForwardLivepeerRequest _ _ _ => RelayBody
  end.

(** The label a backend call puts in front of its error message. *)
Definition own_label (c : Eligible) : jsstring :=
  match c with
  | SendWebRTCOffer _ => js"WebRTC offer failed"
  | LoadPipeline _ => js"Pipeline load failed"
  | GetPipelineStatus => js"Pipeline status failed"
  | CheckModelStatus _ => js"Model status check failed"
  | DownloadPipelineModels _ => js"Model download failed"
  | UpdatePipelineParameters _ => js"Pipeline update failed"
  | GetHardwareInfo => js"Hardware info failed"
  end.

(** The label of the error a call raises on an answer that is not 2xx:
    its own when its request went to its own endpoint, the relay-forward
    primitive's when it was routed through the relay. *)
Definition label (c : Call) (m : Module_) : jsstring :=
  match c with
  | Routed c => if relay_set m then js"Livepeer update failed" else own_label c
  | StartLivepeerStream _ => js"Livepeer stream start failed"
  | ForwardLivepeerRequest _ _ _ => js"Livepeer update failed"
  end.

(** Both fields of a stream-start answer are there and truthy. *)
Definition has_both (v : JSValue) : bool :=
  Js.truthy (Js.get v js"whep_url") && Js.truthy (Js.get v js"stream_id").

End Calls.

(* ================================================================== *)
(** ** Connections the hook owns *)

Module Ownership.

Import Hook.

(** Every open connection is the one the hook refers to. *)
Definition owned (w : World) : Prop :=
  NoDup (openPcs w) /\
  forall pc, In pc (openPcs w) -> peerConnectionRef w = Some pc.

(** A step that opens nothing, and forgets the connection only on
    closing it. *)
Definition settles (w w' : World) : Prop :=
  (exists keep, openPcs w' = filter keep (openPcs w)) /\
  (peerConnectionRef w' = peerConnectionRef w \/
   (peerConnectionRef w' = None /\
    forall pc, peerConnectionRef w = Some pc -> ~ In pc (openPcs w'))).

(** Statements all of whose executions settle. *)
Definition quiet {A} (m : M A) : Prop := forall w, settles w (snd (m w)).

End Ownership.

(* ================================================================== *)
(** ** Effects and states *)

Import Api.

(** The states that end streaming. *)
Definition lost (s : RTCPeerConnectionState) : bool :=
  match s with
  | disconnected | failed | closed => true
  | new | connecting | connected => false
  end.

(** How many times the log shows [setLivepeerStreamId(null)]. *)
Definition clears (l : list Effect) : nat :=
  List.length
    (filter (fun e => match e with
                      | SetLivepeerStreamId None => true
                      | _ => false
                      end) l).

Definition present (entry : jsstring * JSValue) : bool :=
  negb (Js.nullish (snd entry)).

(** A field that is there and can be assigned to a plain object: its name
    is not [__proto__]. *)
Definition survives (entry : jsstring * JSValue) : bool :=
  present entry && negb (JsString.eqb (fst entry) js"__proto__").

(** An effect that sends [payload] and nothing else: a data-channel
    message, an update request to the backend, or the relay envelope of
    one. *)
Definition carries (payload : JSValue) (e : Effect) : Prop :=
  match e with
  | Send _ message => message = payload
  | Fetch req =>
      body req = Json payload \/
      body req = Json (envelope js"/api/v1/pipeline/update" payload)
  | _ => False
  end.

Definition emit_all (effects : list Effect) (w : World) : World :=
  fold_left (fun v e => W.emit e v) effects w.

(* ================================================================== *)
(** ** Sample data *)

Module Sample.

Definition answer (code : N) (reason body : string) (parsed : option JSValue)
  : Response :=
  {| status := code; statusText := js reason;
     contentTypeHeader := Some js"application/json";
     text := js body; json := parsed |}.

(** [200 OK] with body [{}]. *)
Definition empty_object : Response := answer 200 "OK" "{}" (Some (JObject [])).

(** [500 Internal Server Error] with body [{}]. *)
Definition server_error : Response :=
  answer 500 "Internal Server Error" "{}" (Some (JObject [])).

Definition always (r : Response) : Request -> Settled := fun _ => Responded r.

Definition relayed (id : jsstring) : Api.Module_ :=
  {| Api.livepeerStreamId := Some id |}.

(** A lone high surrogate, [U+D800]. *)
Definition lone_surrogate : jsstring := [55296].

Definition camera : Media.Stream :=
  {| Media.streamId := 1;
     Media.tracks := [ {| Media.trackId := 1; Media.kind := Media.Video |} ] |}.

Definition direct : UseWebRTCOptions :=
  {| onStreamStop := false; parameterTransport_opt := None |}.

Definition relay : UseWebRTCOptions :=
  {| onStreamStop := false; parameterTransport_opt := Some livepeer |}.

Definition started : LivepeerStreamStartResponse :=
  {| whep_url := js"https://relay.example/whep/abc"; stream_id := js"abc" |}.

(** The local description once [setLocalDescription] resolved. *)
Definition offer : SessionDescription :=
  {| sdp := js"v=0 (offer)"; type_ := js"offer" |}.

(** The relay's WHEP answer: [201 Created], an SDP body. *)
Definition whep_answer : Response :=
  {| status := 201; statusText := js"Created";
     contentTypeHeader := Some js"application/sdp";
     text := js"v=0 (answer)"; json := None |}.

(** The backend's answer to the offer. *)
Definition backend_answer : JSValue :=
  JObject [(js"sdp", JString js"v=0 (answer)"); (js"type", JString js"answer")].

End Sample.

(** A relay session that reached [connected]. *)
Definition relay_session : list Hook.Event :=
  [ Hook.StartStream JUndefined None;
    Hook.RelayStarted 0 JUndefined None (Return Sample.started);
    Hook.OfferCreated 0 true;
    Hook.LocalDescriptionSet true;
    Hook.IceCandidate 0 false (Some Sample.offer);
    Hook.WhepAnswered 0 (Responded Sample.whep_answer);
    Hook.RemoteDescriptionSet true;
    Hook.ConnectionStateChange 0 connecting;
    Hook.ConnectionStateChange 0 connected ].

(** A hook that streams over connection [0]. *)
Definition streaming_world : World :=
  Hook.run Sample.direct
    [ Hook.StartStream JUndefined (Some Sample.camera);
      Hook.OfferCreated 0 true;
      Hook.LocalDescriptionSet true;
      Hook.IceCandidate 0 false (Some Sample.offer);
      Hook.OfferAnswered 0 (Return Sample.backend_answer);
      Hook.RemoteDescriptionSet true;
      Hook.ConnectionStateChange 0 connecting;
      Hook.ConnectionStateChange 0 connected ]
    initial_world.

Definition video_sender : Sender :=
  {| senderId := 0;
     track := Some {| Media.trackId := 1; Media.kind := Media.Video |} |}.

Definition sample_update : list (jsstring * JSValue) :=
  [ (js"prompts", JArray [JString js"a cat"]);
    (js"noise_scale", JUndefined);
    (js"paused", JBool false);
    (js"transition", JNull) ].

(* ================================================================== *)
(** ** Percent-encoding read back *)

Module Percent.

Import Uri.

(** What an encoded component is read as: a character kept as it is, or
    one octet written [%XX]. *)
Inductive Token := Lit (c : N) | Oct (b : N).

(** The value of a hexadecimal digit, upper case as [hex] writes it. *)
Definition unhex (c : N) : N := if c <? 58 then c - 48 else c - 55.

Fixpoint tokens (e : jsstring) : list Token :=
  match e with
  | [] => []
  | c :: r =>
      if c =? 37 then
        match r with
        | h1 :: h2 :: r' => Oct (16 * unhex h1 + unhex h2) :: tokens r'
        | _ => [Lit c]
        end
      else Lit c :: tokens r
  end.

(** The code units of a code point. *)
Definition units (cp : N) : jsstring :=
  if cp <? 65536 then [cp]
  else [55296 + (cp - 65536) / 1024; 56320 + (cp - 65536) mod 1024].

(** UTF-8 read back, by the length the first octet announces. *)
Fixpoint chars (ts : list Token) : jsstring :=
  match ts with
  | [] => []
  | Lit c :: r => c :: chars r
  | Oct b :: r =>
      if b <? 128 then b :: chars r
      else if b <? 224 then
        match r with
        | Oct b2 :: r' => units ((b - 192) * 64 + (b2 - 128)) ++ chars r'
        | _ => []
        end
      else if b <? 240 then
        match r with
        | Oct b2 :: Oct b3 :: r' =>
            units ((b - 224) * 4096 + (b2 - 128) * 64 + (b3 - 128)) ++ chars r'
        | _ => []
        end
      else
        match r with
        | Oct b2 :: Oct b3 :: Oct b4 :: r' =>
            units ((b - 240) * 262144 + (b2 - 128) * 4096
                   + (b3 - 128) * 64 + (b4 - 128)) ++ chars r'
        | _ => []
        end
  end.

(** A left inverse of [encodeURIComponent]. *)
Definition decode (e : jsstring) : jsstring := chars (tokens e).

(** Every code unit fits sixteen bits. *)
Definition sixteen_bit (s : jsstring) : bool := forallb (fun c => c <? 65536) s.

End Percent.

(* ================================================================== *)
(** ** Relations between the states of the hook *)

Module Steps.

Import Hook.

(** The relay id of the hook and the one of the API module agree. *)
Definition coherent (w : World) : Prop :=
  livepeerStreamIdRef w = livepeerStreamId (api w).

(** A step that leaves both relay ids alone or leaves them equal. *)
Definition syncs (w w' : World) : Prop :=
  (livepeerStreamIdRef w' = livepeerStreamIdRef w /\ api w' = api w) \/
  coherent w'.

(** A step that only adds effects that satisfy [P] to the log. *)
Definition logs (P : Effect -> Prop) (w w' : World) : Prop :=
  exists l, log w' = log w ++ l /\ Forall P l.

(** A step of the negotiation: it may add effects and drop the connecting
    flag, and changes nothing else. *)
Definition negotiates (w w' : World) : Prop :=
  remoteStream w' = remoteStream w /\
  connectionState w' = connectionState w /\
  isStreaming w' = isStreaming w /\
  peerConnectionRef w' = peerConnectionRef w /\
  dataChannelRef w' = dataChannelRef w /\
  currentStreamRef w' = currentStreamRef w /\
  livepeerStreamIdRef w' = livepeerStreamIdRef w /\
  api w' = api w /\
  nextPc w' = nextPc w /\
  openPcs w' = openPcs w /\
  channels w' = channels w /\
  handlers w' = handlers w /\
  (isConnecting w' = isConnecting w \/ isConnecting w' = false) /\
  exists l, log w' = log w ++ l.

(** Every execution of the statement is related by [R]. *)
Definition respects (R : World -> World -> Prop) {A} (m : M A) : Prop :=
  forall w, R w (snd (m w)).

End Steps.

(* ================================================================== *)
(** ** Kinds of effects and of events *)

(** Neither the creation of a data channel nor a message on one. *)
Definition channel_free (e : Effect) : Prop :=
  match e with
  | CreateDataChannel _ | Send _ _ => False
  | _ => True
  end.

(** Not a request for a relay session. *)
Definition no_relay_start (e : Effect) : Prop :=
  match e with
  | Fetch req => url req <> js"/ai/stream/start"
  | _ => True
  end.

(** A write of the module's relay id from outside the hook instance. *)
Definition outside (e : Hook.Event) : bool :=
  match e with
  | Hook.SetElsewhere _ => true
  | _ => false
  end.

(** The events of the exchange: the end of ICE gathering and the
    settlements of what it awaits. *)
Definition exchange (e : Hook.Event) : bool :=
  match e with
  | Hook.IceCandidate _ _ _ | Hook.WhepAnswered _ _
  | Hook.OfferAnswered _ _ | Hook.RemoteDescriptionSet _ => true
  | _ => false
  end.

(** What the exchange does to the outside: requests, and the remote
    description it sets. *)
Definition exchange_effect (e : Effect) : Prop :=
  match e with
  | Fetch _ | SetRemoteDescription _ _ => True
  | _ => False
  end.

(** The media a start attaches to the connection: the video tracks of the
    stream in their order, or one video transceiver when there is no
    stream. *)
Definition media_effects (pc : PcId) (stream : option Media.Stream) : list Effect :=
  match stream with
  | Some s => map (AddTrack pc) (Media.getVideoTracks s)
  | None => [AddTransceiver pc]
  end.

(** What closing the held connection adds to the log. *)
Definition closes (held : option PcId) : list Effect :=
  match held with
  | Some pc => [Close pc]
  | None => []
  end.

(** The connections left open once the held one is closed. *)
Definition without (held : option PcId) (opened : list PcId) : list PcId :=
  match held with
  | Some pc => filter (fun p => negb (p =? pc)) opened
  | None => opened
  end.

(** What the notice shows the user and whom it tells. *)
Definition notice_toast (data : JSValue) : list Effect :=
  if Js.truthy (Js.get data js"error_message")
  then [Toast (Js.get data js"error_message")]
  else [].

Definition notice_callback (options : UseWebRTCOptions) : list Effect :=
  if onStreamStop options then [OnStreamStop] else [].

(** A message whose [type] is ["stream_stopped"]. *)
Definition stop_notice (parsed : option JSValue) : bool :=
  match parsed with
  | Some data =>
      match Js.get data js"type" with
      | JString type => JsString.eqb type js"stream_stopped"
      | _ => false
      end
  | None => false
  end.

(** The events that end a session from the hook's side: [stopStream], the
    unmount cleanup, a rejection inside [startStream], and a stop notice on
    a data channel of the hook. *)
Definition ends_session (w : World) (e : Hook.Event) : bool :=
  match e with
  | Hook.StopStream | Hook.Unmount => true
  | Hook.OfferCreated _ resolved | Hook.LocalDescriptionSet resolved =>
      negb resolved
  | Hook.RelayStarted _ _ _ (Throw _) => true
  | Hook.DataChannelMessage channel parsed =>
      existsb (N.eqb channel) (channels w) && stop_notice parsed
  | _ => false
  end.

(** Whether a change to [state] clears the relay id: a lost connection,
    with the relay transport. *)
Definition drops_relay (options : UseWebRTCOptions)
           (state : RTCPeerConnectionState) : bool :=
  lost state && Hook.isLivepeerTransport options.

(** Where the answer's SDP may stand, in the order the handler looks:
    the fields [sdp], [answer] and [data] of a JSON body, or the text of
    any other body. *)
Definition sdp_candidates (r : Response) : list JSValue :=
  let contentType :=
    match contentTypeHeader r with
    | Some h => if JsString.truthy h then h else []
    | None => []
    end in
  if JsString.includes js"application/json" contentType then
    match json r with
    | Some j => [Js.get j js"sdp"; Js.get j js"answer"; Js.get j js"data"]
    | None => []
    end
  else [JString (text r)].

(** The SDP the handler accepts from a settled WHEP request. *)
Definition accepted_sdp (o : Settled) : option JSValue :=
  match o with
  | Responded r => if ok r then find Js.truthy (sdp_candidates r) else None
  | Unreachable => None
  end.

(* ================================================================== *)
(** * Lemmas *)

(* ================================================================== *)
(** ** Strings and URI components *)

Module UriFacts.

Import Uri.

Lemma hex_unescaped d : unescaped (hex d) = true.
Proof.
  unfold hex.
  assert (H : d mod 16 < 16) by (apply N.mod_lt; discriminate).
  set (x := d mod 16) in *.
  assert (C : x = 0 \/ x = 1 \/ x = 2 \/ x = 3 \/ x = 4 \/ x = 5 \/ x = 6 \/
              x = 7 \/ x = 8 \/ x = 9 \/ x = 10 \/ x = 11 \/ x = 12 \/
              x = 13 \/ x = 14 \/ x = 15) by lia.
  repeat (destruct C as [-> | C]; [reflexivity |]).
  subst x. rewrite C. reflexivity.
Qed.

Lemma pct_units b : forallb component_unit (pct b) = true.
Proof.
  unfold pct, component_unit. cbn [forallb].
  rewrite !hex_unescaped. reflexivity.
Qed.

Lemma flat_pct_units bs : forallb component_unit (flat_map pct bs) = true.
Proof.
  induction bs as [| b bs IH]; [reflexivity |].
  cbn [flat_map]. rewrite forallb_app, pct_units, IH. reflexivity.
Qed.

Lemma escape_units cp : forallb component_unit (escape cp) = true.
Proof. apply flat_pct_units. Qed.

(** Induction on strings that may consume two code units at once. *)
Lemma two_step_ind (P : jsstring -> Prop) :
  P [] ->
  (forall c r, P r -> (forall d r', r = d :: r' -> P r') -> P (c :: r)) ->
  forall s, P s.
Proof.
  intros H0 Hs s.
  enough (H : P s /\ (forall d r', s = d :: r' -> P r')) by apply H.
  induction s as [| c r [IH1 IH2]].
  - split; [exact H0 | discriminate].
  - split.
    + apply Hs; assumption.
    + intros d r' E. injection E as _ <-. exact IH1.
Qed.

(** Encoding leaves only unreserved characters and [%]. *)
Lemma encode_units s :
  forall e, encodeURIComponent s = Some e -> forallb component_unit e = true.
Proof.
  induction s as [| c r IH1 IH2] using two_step_ind; intros e H.
  - injection H as <-. reflexivity.
  - cbn [encodeURIComponent] in H.
    destruct (unescaped c) eqn:U.
    { destruct (encodeURIComponent r) as [e' |]; [| discriminate].
      injection H as <-. cbn [forallb].
      unfold component_unit at 1. rewrite U. cbn. now apply IH1. }
    destruct (is_trail c); [discriminate |].
    destruct (is_lead c).
    + destruct r as [| d r']; [discriminate |].
      destruct (is_trail d); [| discriminate].
      destruct (encodeURIComponent r') as [e' |] eqn:E; [| discriminate].
      injection H as <-.
      rewrite forallb_app, escape_units.
      exact (IH2 d r' eq_refl e' E).
    + destruct (encodeURIComponent r) as [e' |]; [| discriminate].
      injection H as <-.
      rewrite forallb_app, escape_units. now apply IH1.
Qed.

Lemma unescaped_ascii c : unescaped c = true -> c <= 126.
Proof.
  unfold unescaped, is_alpha, is_digit, is_mark, between. cbn [existsb].
  intros H.
  repeat (apply orb_prop in H; destruct H as [H | H]);
    try (apply andb_prop in H; destruct H as [_ H]; apply N.leb_le in H; lia);
    try (apply N.eqb_eq in H; subst c; lia);
    discriminate.
Qed.

Lemma surrogate_escaped c : is_lead c || is_trail c = true -> unescaped c = false.
Proof.
  intros H. destruct (unescaped c) eqn:U; [| reflexivity].
  apply unescaped_ascii in U.
  unfold is_lead, is_trail, between in H.
  apply orb_prop in H.
  destruct H as [H | H]; apply andb_prop in H; destruct H as [H _];
    apply N.leb_le in H; lia.
Qed.

(** The encoder fails exactly on strings with an unpaired surrogate. *)
Lemma encode_defined s :
  well_formed s = true <-> exists e, encodeURIComponent s = Some e.
Proof.
  induction s as [| c r IH1 IH2] using two_step_ind.
  - split; [eexists; reflexivity | reflexivity].
  - cbn [encodeURIComponent well_formed].
    destruct (is_trail c) eqn:T.
    { rewrite surrogate_escaped by (rewrite T; apply orb_true_r).
      split; [discriminate | intros [e H]; discriminate]. }
    destruct (is_lead c) eqn:L.
    + rewrite surrogate_escaped by (rewrite L; reflexivity).
      destruct r as [| d r'].
      { split; [discriminate | intros [e H]; discriminate]. }
      destruct (is_trail d); cbn [andb].
      * rewrite (IH2 d r' eq_refl).
        split; intros [e H].
        -- rewrite H. eexists; reflexivity.
        -- destruct (encodeURIComponent r'); [eexists; reflexivity | discriminate].
      * split; [discriminate | intros [e H]; discriminate].
    + rewrite IH1.
      destruct (unescaped c);
        (split; intros [e H];
         [ rewrite H; eexists; reflexivity
         | destruct (encodeURIComponent r); [eexists; reflexivity | discriminate] ]).
Qed.

Lemma reserved_not_component c : reserved c = true -> component_unit c = false.
Proof.
  unfold reserved. cbn [existsb]. intros H.
  repeat (apply orb_prop in H; destruct H as [H | H];
          [apply N.eqb_eq in H; subst c; reflexivity |]).
  discriminate.
Qed.

Lemma component_not_reserved e :
  forallb component_unit e = true ->
  forallb (fun c => negb (reserved c)) e = true.
Proof.
  intros H. apply forallb_forall. intros c Hc.
  rewrite forallb_forall in H. specialize (H c Hc).
  destruct (reserved c) eqn:R; [| reflexivity].
  apply reserved_not_component in R. congruence.
Qed.

Lemma component_has_not e c :
  forallb component_unit e = true -> reserved c = true ->
  JsString.has c e = false.
Proof.
  intros H R. unfold JsString.has.
  destruct (existsb (N.eqb c) e) eqn:X; [| reflexivity].
  apply existsb_exists in X. destruct X as [x [Hx E]].
  apply N.eqb_eq in E. subst x.
  rewrite forallb_forall in H. specialize (H c Hx).
  apply reserved_not_component in R. congruence.
Qed.

Lemma split_whole sep s : JsString.has sep s = false -> JsString.split sep s = [s].
Proof.
  unfold JsString.has. induction s as [| c r IH]; intros H; [reflexivity |].
  cbn [existsb] in H. apply orb_false_elim in H. destruct H as [H1 H2].
  cbn [JsString.split]. rewrite N.eqb_sym, H1, (IH H2). reflexivity.
Qed.

Lemma split_app sep a b :
  JsString.has sep a = false ->
  JsString.split sep (a ++ sep :: b) = a :: JsString.split sep b.
Proof.
  unfold JsString.has. induction a as [| c r IH]; intros H.
  - cbn. rewrite N.eqb_refl. reflexivity.
  - cbn [existsb] in H. apply orb_false_elim in H. destruct H as [H1 H2].
    cbn [app JsString.split]. rewrite N.eqb_sym, H1, (IH H2). reflexivity.
Qed.

Lemma has_app c a b : JsString.has c (a ++ b) = JsString.has c a || JsString.has c b.
Proof. unfold JsString.has. apply existsb_app. Qed.

(** The encoder on a few strings. *)
Example encode_reserved :
  encodeURIComponent js"a/b?c#d e" = Some js"a%2Fb%3Fc%23d%20e".
Proof. reflexivity. Qed.

Example encode_e_acute : encodeURIComponent [233] = Some js"%C3%A9".
Proof. reflexivity. Qed.

Example encode_euro : encodeURIComponent [8364] = Some js"%E2%82%AC".
Proof. reflexivity. Qed.

(** [U+1F600] as the surrogate pair [D83D DE00]. *)
Example encode_pair : encodeURIComponent [55357; 56832] = Some js"%F0%9F%98%80".
Proof. reflexivity. Qed.

Example encode_lone_trail : encodeURIComponent [97; 56832] = None.
Proof. reflexivity. Qed.

Example status_in_decimal : JsString.of_N 404 = js"404".
Proof. reflexivity. Qed.

Example split_update_path :
  JsString.split 47 js"/ai/stream/abc/update"
  = [[]; js"ai"; js"stream"; js"abc"; js"update"].
Proof. reflexivity. Qed.

End UriFacts.

(* ================================================================== *)
(** ** The API client *)

Module ApiFacts.

Import Api Calls.

Lemma withLivepeerRoute_unset route body fetcher m :
  relay_set m = false -> withLivepeerRoute route body fetcher m = (m, fetcher).
Proof.
  unfold relay_set, withLivepeerRoute.
  destruct (livepeerStreamId m) as [id |]; [| reflexivity].
  intros ->. reflexivity.
Qed.

Lemma withLivepeerRoute_set route body fetcher m id :
  livepeerStreamId m = Some id -> JsString.truthy id = true ->
  withLivepeerRoute route body fetcher m
  = (m, forwardLivepeerRequest id route (Js.coalesce body JNull)).
Proof. unfold withLivepeerRoute. intros -> ->. reflexivity. Qed.

Lemma forward_sent streamId route payload component :
  Uri.encodeURIComponent streamId = Some component ->
  forwardLivepeerRequest streamId route payload
  = Sent (relay_request component route payload) forward_settle.
Proof. unfold forwardLivepeerRequest. intros ->. reflexivity. Qed.

Lemma forward_aborted streamId route payload :
  Uri.well_formed streamId = false ->
  forwardLivepeerRequest streamId route payload = Aborted URIError.
Proof.
  intros H. unfold forwardLivepeerRequest.
  destruct (Uri.encodeURIComponent streamId) as [e |] eqn:E; [| reflexivity].
  assert (W : Uri.well_formed streamId = true)
    by (apply UriFacts.encode_defined; eauto).
  congruence.
Qed.

Lemma coalesce_idem v : Js.coalesce (Js.coalesce v JNull) JNull = Js.coalesce v JNull.
Proof. destruct v; reflexivity. Qed.

(** What a request built with [JSON.stringify(data)] carries. *)
Lemma carried_json_body data : carried (json_body data) = Js.coalesce data JNull.
Proof. destruct data; reflexivity. Qed.

(** The relay path is none of the backend's. *)
Lemma relay_is_not_backend c component route payload backend :
  backend_request c = Some backend ->
  relay_request component route payload <> backend.
Proof.
  intros B E. apply (f_equal url) in E.
  destruct c; unfold backend_request in B; cbn in B;
    injection B as <-; cbn in E; discriminate.
Qed.

(** What the relay-forward primitive makes of a 2xx answer. *)
Lemma forward_settle_ok r :
  ok r = true ->
  forward_settle (Responded r)
  = match text r, json r with
    | [], _ => Return JNull
    | _ :: _, Some v => Return v
    | _ :: _, None => Return (JString (text r))
    end.
Proof.
  intros H. cbn. rewrite H. destruct (text r); [reflexivity |].
  cbn. destruct (json r); reflexivity.
Qed.

End ApiFacts.

(* ================================================================== *)
(** ** The hook: connections that are open *)

Module HookFacts.

Import Hook Ownership.
Local Open Scope hook_scope.

Lemma owned_at_most_one w : owned w -> (List.length (openPcs w) <= 1)%nat.
Proof.
  intros [ND H]. destruct (openPcs w) as [| a [| b r]]; cbn; try lia.
  exfalso.
  assert (Ha : peerConnectionRef w = Some a) by (apply H; left; reflexivity).
  assert (Hb : peerConnectionRef w = Some b) by (apply H; right; left; reflexivity).
  assert (a = b) by congruence. subst b.
  inversion ND as [| ? ? N1 _]. apply N1. left. reflexivity.
Qed.

Lemma owned_unreferenced w : owned w -> peerConnectionRef w = None -> openPcs w = [].
Proof.
  intros [_ H] E. destruct (openPcs w) as [| a r]; [reflexivity |].
  specialize (H a (or_introl eq_refl)). congruence.
Qed.

Lemma settles_refl w : settles w w.
Proof.
  split; [| left; reflexivity].
  exists (fun _ => true). induction (openPcs w) as [| a r IH]; cbn; congruence.
Qed.

Lemma filter_filter {A} (f g : A -> bool) l :
  filter g (filter f l) = filter (fun x => f x && g x) l.
Proof.
  induction l as [| a r IH]; [reflexivity |].
  cbn. destruct (f a); cbn; [destruct (g a) |]; rewrite ?IH; reflexivity.
Qed.

Lemma settles_trans w1 w2 w3 : settles w1 w2 -> settles w2 w3 -> settles w1 w3.
Proof.
  intros [[f Hf] H12] [[g Hg] H23]. split.
  - exists (fun x => f x && g x). rewrite Hg, Hf. apply filter_filter.
  - destruct H23 as [E | [E N]].
    + rewrite E. destruct H12 as [E' | [E' N']]; [left; exact E' |].
      right. split; [exact E' |]. intros pc Hpc In3.
      apply (N' pc Hpc). rewrite Hg in In3. apply filter_In in In3. tauto.
    + right. split; [exact E |]. intros pc Hpc.
      destruct H12 as [E' | [E' N']].
      * apply N. congruence.
      * intros In3. apply (N' pc Hpc).
        rewrite Hg in In3. apply filter_In in In3. tauto.
Qed.

Lemma settles_owned w w' : owned w -> settles w w' -> owned w'.
Proof.
  intros [ND H] [[f Hf] Hr]. split.
  - rewrite Hf. apply NoDup_filter. exact ND.
  - intros pc Hin.
    assert (Hin0 : In pc (openPcs w))
      by (rewrite Hf in Hin; apply filter_In in Hin; tauto).
    specialize (H pc Hin0).
    destruct Hr as [E | [_ N]]; [congruence |].
    exfalso. exact (N pc H Hin).
Qed.

Lemma quiet_ret {A} (a : A) : quiet (ret a).
Proof. intros w. apply settles_refl. Qed.

Lemma quiet_throw {A} e : quiet (@throw A e).
Proof. intros w. apply settles_refl. Qed.

Lemma quiet_read : quiet read.
Proof. intros w. apply settles_refl. Qed.

Lemma quiet_bind {A B} (m : M A) (k : A -> M B) :
  quiet m -> (forall a, quiet (k a)) -> quiet (bind m k).
Proof.
  intros Hm Hk w. unfold bind. specialize (Hm w).
  destruct (m w) as [[a | e] w']; cbn in *; [| exact Hm].
  eapply settles_trans; [exact Hm | apply Hk].
Qed.

Lemma quiet_try_catch {A} (m : M A) (h : JSError -> M A) :
  quiet m -> (forall e, quiet (h e)) -> quiet (try_catch m h).
Proof.
  intros Hm Hh w. unfold try_catch. specialize (Hm w).
  destruct (m w) as [[a | e] w']; cbn in *; [exact Hm |].
  eapply settles_trans; [exact Hm | apply Hh].
Qed.

Lemma quiet_when b (m : M unit) : quiet m -> quiet (when b m).
Proof. intros H. destruct b; [exact H | apply quiet_ret]. Qed.

Lemma quiet_act f :
  (forall w, openPcs (f w) = openPcs w /\
             peerConnectionRef (f w) = peerConnectionRef w) ->
  quiet (act f).
Proof.
  intros H w. cbn. destruct (H w) as [E1 E2]. split; [| left; exact E2].
  rewrite E1. destruct (settles_refl w) as [X _]. exact X.
Qed.

Lemma quiet_on_open pc f :
  (forall w, openPcs (f w) = openPcs w /\
             peerConnectionRef (f w) = peerConnectionRef w) ->
  quiet (on_open pc f).
Proof.
  intros H w. unfold on_open. destruct (W.is_open pc w); cbn.
  - exact (quiet_act f H w).
  - apply settles_refl.
Qed.

Lemma quiet_close pc : quiet (close pc).
Proof.
  intros w. cbn. split; [| left; reflexivity].
  eexists. reflexivity.
Qed.

Lemma quiet_call f : quiet (call f).
Proof.
  intros w. unfold call. destruct (f (api w)) as [m [req s | e]]; cbn;
    (split; [| left; reflexivity]); destruct (settles_refl w) as [X _]; exact X.
Qed.

Lemma quiet_closePeerConnection : quiet closePeerConnection.
Proof.
  intros w. unfold closePeerConnection, bind, read.
  destruct (peerConnectionRef w) as [pc |] eqn:E; cbn; [| apply settles_refl].
  split; [eexists; reflexivity |].
  right. split; [reflexivity |]. intros pc' Hpc' Hin.
  rewrite E in Hpc'. injection Hpc' as <-.
  apply filter_In in Hin. destruct Hin as [_ Hin].
  rewrite N.eqb_refl in Hin. discriminate.
Qed.

Ltac frame := intros; split; reflexivity.

Ltac quiet_step :=
  first
    [ apply quiet_ret | apply quiet_throw | apply quiet_read
    | apply quiet_close | apply quiet_call | apply quiet_closePeerConnection
    | apply quiet_act; frame
    | apply quiet_on_open; frame
    | apply quiet_when
    | apply quiet_bind; [| intros ?]
    | apply quiet_try_catch; [| intros ?] ].

Ltac quiet_auto := repeat quiet_step.

Section Instance.

Variable options : UseWebRTCOptions.

Lemma quiet_setLivepeerStreamId id : quiet (setLivepeerStreamId id).
Proof. unfold setLivepeerStreamId. quiet_auto. Qed.

Lemma quiet_clearLivepeerStreamId : quiet clearLivepeerStreamId.
Proof. unfold clearLivepeerStreamId, setLivepeerStreamId. quiet_auto. Qed.

Lemma quiet_addVideoTracks pc ts : quiet (addVideoTracks pc ts).
Proof.
  induction ts as [| t r IH]; cbn [addVideoTracks]; [apply quiet_ret |].
  apply quiet_bind; [| intros _; exact IH].
  unfold addTrack. quiet_auto.
Qed.

Lemma quiet_startMedia pc url params stream :
  quiet (startMedia pc url params stream).
Proof.
  unfold startMedia, attachHandlers, addTransceiver.
  apply quiet_bind; [| intros _; quiet_auto].
  destruct stream; [apply quiet_addVideoTracks | quiet_auto].
Qed.

Lemma quiet_startCatch : quiet startCatch.
Proof. unfold startCatch, setLivepeerStreamId. quiet_auto. Qed.

Lemma quiet_relayStarted pc params stream outcome :
  quiet (startStream_relayStarted pc params stream outcome).
Proof.
  unfold startStream_relayStarted, startStream_relayAnswer.
  apply quiet_try_catch; [| intros _; apply quiet_startCatch].
  apply quiet_bind; [| intros url; apply quiet_startMedia].
  apply quiet_try_catch.
  - destruct outcome; unfold setLivepeerStreamId; quiet_auto.
  - intros e. apply quiet_bind; [apply quiet_clearLivepeerStreamId |].
    intros _. apply quiet_throw.
Qed.

Lemma quiet_offerCreated pc resolved :
  quiet (startStream_offerCreated pc resolved).
Proof.
  unfold startStream_offerCreated.
  apply quiet_try_catch; [| intros _; apply quiet_startCatch].
  destruct resolved; quiet_auto.
Qed.

Lemma quiet_localDescriptionSet resolved :
  quiet (startStream_localDescriptionSet resolved).
Proof.
  unfold startStream_localDescriptionSet.
  apply quiet_try_catch; [| intros _; apply quiet_startCatch].
  destruct resolved; quiet_auto.
Qed.

Lemma quiet_onTrack streams : quiet (onTrack streams).
Proof. unfold onTrack. destruct streams; quiet_auto. Qed.

Lemma quiet_onConnectionStateChange state :
  quiet (onConnectionStateChange options state).
Proof.
  unfold onConnectionStateChange.
  apply quiet_bind; [quiet_auto | intros _].
  destruct state; quiet_auto; apply quiet_clearLivepeerStreamId.
Qed.

Lemma quiet_onDataChannelMessage parsed :
  quiet (onDataChannelMessage options parsed).
Proof.
  unfold onDataChannelMessage.
  apply quiet_try_catch; [| intros _; apply quiet_ret].
  destruct parsed as [data |]; [| apply quiet_throw].
  destruct data; try apply quiet_throw;
    match goal with
    | |- context [Js.get ?d ?k] => destruct (Js.get d k)
    end;
    quiet_auto; apply quiet_clearLivepeerStreamId.
Qed.

Lemma quiet_onIceCandidate c candidate localDescription :
  quiet (onIceCandidate options c candidate localDescription).
Proof.
  unfold onIceCandidate.
  destruct candidate; [apply quiet_ret |].
  apply quiet_try_catch; [| intros _; quiet_auto].
  destruct (isLivepeerTransport options).
  - destruct (whepUrl c) as [url |]; [| apply quiet_throw].
    destruct (JsString.truthy url); [| apply quiet_throw].
    destruct localDescription as [d |]; [| apply quiet_throw].
    destruct (JsString.truthy (sdp d)); quiet_auto.
  - destruct localDescription; quiet_auto.
Qed.

Lemma quiet_whepAnswered pc o : quiet (onIceCandidate_whepAnswered pc o).
Proof.
  unfold onIceCandidate_whepAnswered.
  apply quiet_try_catch; [| intros _; quiet_auto].
  destruct o as [r |]; [| apply quiet_throw].
  destruct (negb (ok r)); [apply quiet_throw |].
  apply quiet_bind.
  - match goal with |- context [if ?b then _ else _] => destruct b end;
      [| apply quiet_ret].
    destruct (json r) as [[] |]; quiet_auto.
  - intros a. destruct (negb (Js.truthy a)); quiet_auto.
Qed.

Lemma quiet_offerAnswered pc outcome :
  quiet (onIceCandidate_offerAnswered pc outcome).
Proof.
  unfold onIceCandidate_offerAnswered.
  apply quiet_try_catch; [| intros _; quiet_auto].
  destruct outcome; quiet_auto.
Qed.

Lemma quiet_remoteDescriptionSet resolved :
  quiet (onIceCandidate_remoteDescriptionSet resolved).
Proof.
  unfold onIceCandidate_remoteDescriptionSet.
  apply quiet_try_catch; [| intros _; quiet_auto].
  destruct resolved; quiet_auto.
Qed.

Lemma quiet_updateVideoTrack newStream senders :
  quiet (updateVideoTrack newStream senders).
Proof.
  unfold updateVideoTrack.
  apply quiet_bind; [apply quiet_read | intros w].
  destruct (peerConnectionRef w); [| apply quiet_ret].
  destruct (isStreaming w); [| apply quiet_ret].
  apply quiet_try_catch; [| intros _; apply quiet_ret].
  destruct (Media.getVideoTracks newStream); [apply quiet_ret |].
  destruct (find sends_video senders); quiet_auto.
Qed.

Lemma quiet_replaced newStream resolved :
  quiet (updateVideoTrack_replaced newStream resolved).
Proof.
  unfold updateVideoTrack_replaced.
  apply quiet_try_catch; [| intros _; apply quiet_ret].
  destruct resolved; quiet_auto.
Qed.

Lemma quiet_sendParameterUpdate params readyState :
  quiet (sendParameterUpdate options params readyState).
Proof.
  unfold sendParameterUpdate.
  match goal with |- context [if ?b then _ else _] => destruct b end;
    [apply quiet_ret |].
  destruct (parameterTransport options).
  - apply quiet_bind; [apply quiet_read | intros w].
    destruct (dataChannelRef w); [| apply quiet_ret].
    destruct readyState; quiet_auto.
  - apply quiet_bind; [apply quiet_read | intros w].
    destruct (negb (truthy_ref (livepeerStreamIdRef w))); quiet_auto.
Qed.

Lemma quiet_stopStream : quiet stopStream.
Proof.
  unfold stopStream.
  apply quiet_bind; [apply quiet_closePeerConnection | intros _].
  apply quiet_bind; [quiet_auto | intros _].
  apply quiet_bind; [quiet_auto | intros _].
  apply quiet_bind; [apply quiet_clearLivepeerStreamId | intros _].
  quiet_auto.
Qed.

Lemma quiet_unmount : quiet unmount.
Proof.
  unfold unmount.
  apply quiet_bind; [apply quiet_read | intros w].
  destruct (peerConnectionRef w); quiet_auto.
Qed.

Lemma quiet_dispatch pc handler :
  (forall c, quiet (handler c)) -> quiet (dispatch pc handler).
Proof.
  intros H. unfold dispatch.
  apply quiet_bind; [apply quiet_read | intros w].
  destruct (W.closure_of pc w); [apply H | apply quiet_ret].
Qed.

(** A start that gets past its guard opens the one connection. *)
Lemma startStream_owned params stream w :
  owned w -> owned (exec (startStream options params stream) w).
Proof.
  intros O. unfold exec, startStream, bind at 1, read.
  destruct (isConnecting w || is_some (peerConnectionRef w)) eqn:G;
    [exact O |].
  apply orb_false_elim in G. destruct G as [_ G].
  destruct (peerConnectionRef w) as [pc |] eqn:Ref; [discriminate |].
  pose proof (owned_unreferenced O Ref) as Open.
  set (prefix := when (negb (isLivepeerTransport options)) clearLivepeerStreamId).
  assert (P : forall v : World,
             openPcs v = [] ->
             openPcs (snd (prefix v)) = [] ).
  { intros v Hv. subst prefix.
    destruct (isLivepeerTransport options); cbn; exact Hv. }
  unfold bind at 1, act at 1. cbn [snd fst].
  set (w1 := W.setIsConnecting true w).
  assert (O1 : openPcs w1 = []) by exact Open.
  unfold try_catch, bind at 1.
  specialize (P w1 O1).
  destruct (prefix w1) as [[[] | e] w2] eqn:E2; cbn [snd] in P.
  2: { apply settles_owned with (w := w2).
       - split; [rewrite P; constructor | rewrite P; intros ? []].
       - apply quiet_startCatch. }
  unfold bind at 1, act at 1.
  unfold bind at 1, newRTCPeerConnection at 1.
  unfold bind at 1, act at 1.
  match goal with
  | |- context [W.setPeerConnectionRef (Some ?p) ?v] =>
      set (w3 := W.setPeerConnectionRef (Some p) v)
  end.
  assert (O3 : owned w3).
  { subst w3. split; cbn; rewrite P.
    - constructor; [intros [] | constructor].
    - intros pc [<- | []]. reflexivity. }
  match goal with
  | |- context [(if ?b then ?x else ?y) w3] =>
      assert (Q : quiet (if b then x else y))
  end.
  { destruct (negb (isLivepeerTransport options)).
    - apply quiet_bind; [unfold createDataChannel; quiet_auto | intros _].
      apply quiet_bind; [quiet_auto | intros _]. apply quiet_startMedia.
    - quiet_auto. }
  match goal with
  | |- context [(if ?b then ?x else ?y) w3] =>
      specialize (Q w3); destruct ((if b then x else y) w3) as [[[] | e] w4]
  end; cbn [snd] in *.
  - eapply settles_owned; eauto.
  - eapply settles_owned; [eapply settles_owned; eauto |].
    apply quiet_startCatch.
Qed.

Lemma handle_owned e w : owned w -> owned (step options w e).
Proof.
  intros O. unfold step.
  destruct e; cbn [handle];
    try (apply startStream_owned; exact O);
    (apply settles_owned with (w := w); [exact O |]).
  - apply quiet_relayStarted.
  - apply quiet_offerCreated.
  - apply quiet_localDescriptionSet.
  - apply quiet_dispatch. intros _. apply quiet_onTrack.
  - apply quiet_dispatch. intros _. apply quiet_onConnectionStateChange.
  - apply quiet_dispatch. intros c. apply quiet_onIceCandidate.
  - apply quiet_whepAnswered.
  - apply quiet_offerAnswered.
  - apply quiet_remoteDescriptionSet.
  - apply quiet_bind; [apply quiet_read | intros v].
    apply quiet_when. apply quiet_onDataChannelMessage.
  - apply quiet_bind; [apply quiet_updateVideoTrack | intros _; apply quiet_ret].
  - apply quiet_bind; [apply quiet_replaced | intros _; apply quiet_ret].
  - apply quiet_sendParameterUpdate.
  - apply quiet_stopStream.
  - apply quiet_unmount.
  - quiet_auto.
Qed.

Lemma run_owned es : forall w, owned w -> owned (run options es w).
Proof.
  induction es as [| e es IH]; intros w O; [exact O |].
  cbn [run fold_left]. apply IH. apply handle_owned. exact O.
Qed.

Lemma initial_owned : owned initial_world.
Proof. split; [constructor | intros pc []]. Qed.

End Instance.

End HookFacts.

(* ================================================================== *)
(** ** The hook: single steps *)

Import Calls ApiFacts.
Import Ownership HookFacts.

Lemma setApi_same w : W.setApi (api w) w = w.
Proof. destruct w. reflexivity. Qed.

Lemma clears_app a b : clears (a ++ b) = (clears a + clears b)%nat.
Proof. unfold clears. rewrite filter_app, length_app. reflexivity. Qed.

Section RelayTransport.

Variable options : UseWebRTCOptions.
Hypothesis relay : Hook.isLivepeerTransport options = true.

Lemma change_lost state w :
  lost state = true ->
  Hook.onConnectionStateChange options state w
  = (Return tt,
     W.emit (SetLivepeerStreamId None)
       (W.setApi (Api.setLivepeerStreamId None (api w))
          (W.setLivepeerStreamIdRef None
             (W.setIsStreaming false
                (W.setIsConnecting false
                   (W.setConnectionState state w)))))).
Proof.
  intros L. unfold Hook.onConnectionStateChange.
  destruct state; try discriminate; rewrite relay; reflexivity.
Qed.

Lemma change_kept state w :
  lost state = false ->
  let w' := Hook.exec (Hook.onConnectionStateChange options state) w in
  log w' = log w /\ handlers w' = handlers w /\
  livepeerStreamIdRef w' = livepeerStreamIdRef w /\ api w' = api w.
Proof.
  intros L. destruct state; try discriminate; repeat split.
Qed.

Lemma changes_count pc states :
  forall w,
    W.closure_of pc w <> None ->
    let w' := Hook.run options (map (Hook.ConnectionStateChange pc) states) w in
    handlers w' = handlers w /\
    clears (log w') = (clears (log w) + List.length (filter lost states))%nat /\
    (existsb lost states = true ->
     livepeerStreamIdRef w' = None /\ Api.livepeerStreamId (api w') = None) /\
    (existsb lost states = false ->
     livepeerStreamIdRef w' = livepeerStreamIdRef w /\ api w' = api w).
Proof.
  induction states as [| s states IH]; intros w A.
  - cbn. repeat split; try discriminate. lia.
  - cbn [map].
    change (Hook.run options (Hook.ConnectionStateChange pc s
                              :: map (Hook.ConnectionStateChange pc) states) w)
      with (Hook.run options (map (Hook.ConnectionStateChange pc) states)
              (Hook.step options w (Hook.ConnectionStateChange pc s))).
    set (w1 := Hook.step options w (Hook.ConnectionStateChange pc s)).
    assert (E1 : w1 = Hook.exec (Hook.onConnectionStateChange options s) w).
    { subst w1. unfold Hook.step, Hook.exec, Hook.handle, Hook.dispatch,
                       Hook.bind, Hook.read.
      destruct (W.closure_of pc w); [reflexivity | contradiction]. }
    assert (H1 : handlers w1 = handlers w).
    { rewrite E1. destruct (lost s) eqn:L.
      - unfold Hook.exec. rewrite (@change_lost s w L). reflexivity.
      - apply (change_kept s w L). }
    assert (A1 : W.closure_of pc w1 <> None).
    { unfold W.closure_of in *. rewrite H1. exact A. }
    specialize (IH w1 A1). cbv zeta in IH.
    destruct IH as [IHh [IHc [IHl IHk]]].
    cbv zeta. split; [rewrite IHh; exact H1 |].
    cbn [filter existsb]. destruct (lost s) eqn:L.
    + assert (L1 : log w1 = log w ++ [SetLivepeerStreamId None] /\
                   livepeerStreamIdRef w1 = None /\
                   Api.livepeerStreamId (api w1) = None).
      { rewrite E1. unfold Hook.exec. rewrite (@change_lost s w L).
        repeat split. }
      destruct L1 as [L1 [L2 L3]].
      split; [| split].
      * rewrite IHc, L1, clears_app. cbn. lia.
      * intros _. destruct (existsb lost states) eqn:X.
        -- apply IHl. reflexivity.
        -- destruct (IHk eq_refl) as [-> ->]. split; assumption.
      * discriminate.
    + destruct (change_kept s w L) as [K1 [_ [K3 K4]]]. rewrite <- E1 in *.
      split; [| split].
      * rewrite IHc, K1. cbn. lia.
      * intros X. apply IHl. exact X.
      * intros X. destruct (IHk X) as [-> ->]. split; assumption.
Qed.

End RelayTransport.

(** What [stopStream] does, for every state. *)
Lemma stopStream_outcome (w : World) :
  let w' := Hook.exec Hook.stopStream w in
  Hook.stopStream w = (Return tt, w') /\
  peerConnectionRef w' = None /\
  dataChannelRef w' = None /\
  currentStreamRef w' = None /\
  livepeerStreamIdRef w' = None /\
  Api.livepeerStreamId (api w') = None /\
  remoteStream w' = None /\
  connectionState w' = new /\
  isStreaming w' = false /\
  isConnecting w' = isConnecting w /\
  log w' = log w
           ++ match peerConnectionRef w with
              | Some pc => [Close pc]
              | None => []
              end
           ++ [SetLivepeerStreamId None].
Proof.
  destruct w as [rs cs ic st held dc cur sid ap np opened chs hs lg].
  destruct held as [h |]; intros w'; repeat split;
    cbn; rewrite <- ?app_assoc; reflexivity.
Qed.

Lemma eqb_false a b : a <> b -> JsString.eqb a b = false.
Proof.
  intros H. unfold JsString.eqb.
  destruct (list_eq_dec N.eq_dec a b); [contradiction | reflexivity].
Qed.

Lemma eqb_refl a : JsString.eqb a a = true.
Proof.
  unfold JsString.eqb.
  destruct (list_eq_dec N.eq_dec a a); [reflexivity | contradiction].
Qed.

Lemma eqb_eq a b : JsString.eqb a b = true -> a = b.
Proof.
  unfold JsString.eqb.
  destruct (list_eq_dec N.eq_dec a b); [intros _; assumption | discriminate].
Qed.

Lemma set_fresh k v fields :
  ~ In k (Js.keys fields) -> JsString.eqb k js"__proto__" = false ->
  Js.set k v fields = fields ++ [(k, v)].
Proof.
  intros H P. induction fields as [| [k' v'] r IH].
  - cbn [Js.set]. rewrite P. reflexivity.
  - cbn [Js.set]. rewrite eqb_false.
    + rewrite IH; [reflexivity |]. intros X. apply H. right. exact X.
    + intros ->. apply H. left. reflexivity.
Qed.

(** An assignment to [__proto__] leaves an object without such a field as
    it is. *)
Lemma set_proto v fields :
  ~ In js"__proto__" (Js.keys fields) -> Js.set js"__proto__" v fields = fields.
Proof.
  induction fields as [| [k' v'] r IH]; intros H; [reflexivity |].
  cbn [Js.set]. rewrite eqb_false.
  - rewrite IH; [reflexivity |]. intros X. apply H. right. exact X.
  - intros E. apply H. left. symmetry. exact E.
Qed.

Lemma survives_not_proto params :
  ~ In js"__proto__" (Js.keys (filter survives params)).
Proof.
  induction params as [| [k v] r IH]; [intros [] |].
  cbn [filter]. unfold survives at 1. cbn [fst snd].
  destruct (present (k, v)); cbn [andb]; [| exact IH].
  destruct (JsString.eqb k js"__proto__") eqn:E; cbn [negb]; [exact IH |].
  intros [X | X]; [| exact (IH X)].
  cbn [fst] in X. subst k. unfold JsString.eqb in E.
  destruct (list_eq_dec N.eq_dec js"__proto__" js"__proto__");
    [discriminate | contradiction].
Qed.

Lemma filter_loop params :
  forall kept,
    NoDup (Js.keys kept ++ Js.keys params) ->
    ~ In js"__proto__" (Js.keys kept) ->
    fold_left
      (fun filteredParams entry =>
         if negb (Js.nullish (snd entry))
         then Js.set (fst entry) (snd entry) filteredParams
         else filteredParams)
      params kept
    = kept ++ filter survives params.
Proof.
  induction params as [| [k v] r IH]; intros kept ND NP.
  - cbn. rewrite app_nil_r. reflexivity.
  - cbn [fold_left filter fst snd]. unfold survives at 1, present. cbn [fst snd].
    cbn [Js.keys map fst] in ND. fold (Js.keys r) in ND.
    destruct (negb (Js.nullish v)); cbn [andb].
    + destruct (JsString.eqb k js"__proto__") eqn:P; cbn [negb].
      * apply eqb_eq in P. subst k. rewrite set_proto by exact NP.
        apply IH; [apply NoDup_remove_1 in ND; exact ND | exact NP].
      * rewrite set_fresh.
        -- rewrite IH.
           ++ rewrite <- app_assoc. reflexivity.
           ++ unfold Js.keys in *. rewrite map_app, <- app_assoc. exact ND.
           ++ unfold Js.keys. rewrite map_app. intros X.
              apply in_app_or in X. destruct X as [X | [X | []]].
              ** exact (NP X).
              ** cbn [fst] in X. subst k. unfold JsString.eqb in P.
                 destruct (list_eq_dec N.eq_dec js"__proto__" js"__proto__");
                   [discriminate | contradiction].
        -- apply NoDup_remove_2 in ND. intros X. apply ND.
           apply in_or_app. left. exact X.
        -- exact P.
    + apply IH; [apply NoDup_remove_1 in ND; exact ND | exact NP].
Qed.

Lemma filterParams_filter params :
  NoDup (Js.keys params) -> Hook.filterParams params = filter survives params.
Proof.
  intros ND. unfold Hook.filterParams.
  apply (filter_loop params [] ND). intros [].
Qed.

Lemma filter_all_absent params :
  forallb (fun entry => Js.nullish (snd entry)) params = true ->
  filter survives params = [].
Proof.
  induction params as [| e r IH]; [reflexivity |].
  cbn [forallb filter]. intros H. apply andb_prop in H. destruct H as [H1 H2].
  unfold survives at 1, present. rewrite H1. cbn. apply IH. exact H2.
Qed.

Ltac finish NotAll :=
  cbn; rewrite ?setApi_same; repeat split;
  solve
    [ lia
    | discriminate
    | contradiction
    | intros ? [<- | []];
      first [reflexivity | left; reflexivity | right; reflexivity]
    | intros ? Absurd; destruct Absurd
    | intros A; destruct (NotAll A)
    | intros ? E _; injection E as <-; reflexivity
    | intros; congruence
    | intros; discriminate ].

(** A relay start that fails, from the answer on: the relay says [200 OK]
    with body [{}], [startLivepeerStream] throws, and the hook is left
    with no open connection, no relay id, and neither flag set. *)
Example relay_start_rejected :
  let e := Error js"Livepeer stream start response missing whep_url" in
  let w := Hook.run Sample.relay
             [ Hook.StartStream JUndefined None;
               Hook.RelayStarted 0 JUndefined None (Throw e) ]
             initial_world in
  start_settle (Responded Sample.empty_object) = Throw e /\
  log w = [ NewPeerConnection 0;
            Fetch (json_request POST js"/ai/stream/start"
                     (Json (JObject [(js"initialParameters", JUndefined)])));
            SetLivepeerStreamId None;
            Close 0;
            SetLivepeerStreamId None ] /\
  openPcs w = [] /\
  peerConnectionRef w = None /\
  livepeerStreamIdRef w = None /\
  livepeerStreamId (api w) = None /\
  isConnecting w = false /\
  isStreaming w = false.
Proof. vm_compute. repeat split. Qed.

(* ================================================================== *)
(** * The claims *)

(* ================================================================== *)
(** ** The API client *)

(** C1, as the code has it.  Let the relay stream id be set to a non-empty
    id without unpaired surrogates.  Then every indirection-eligible call
    leaves the module variable alone and issues exactly one request: a POST
    to the relay's update path for that id, whose body is the envelope of
    the route and of the body the call would have sent to the backend
    ([null] when it sends none); that request is not the backend's.  What
    the call settles to is what the relay-forward primitive makes of the
    relay's answer: on a 2xx answer [null] for an empty body, else the
    parsed JSON, else the raw text; an error on any other status; the
    network failure when there is no answer. *)
Theorem relay_indirection :
  forall (c : Eligible) (m : Module_) (id : jsstring) (net : Request -> Settled),
    livepeerStreamId m = Some id ->
    JsString.truthy id = true ->
    Uri.well_formed id = true ->
    exists component backend,
      Uri.encodeURIComponent id = Some component /\
      backend_request c = Some backend /\
      let relay :=
        relay_request component (url backend) (carried (body backend)) in
      fst (invoke c m) = m /\
      fst (perform net (snd (invoke c m))) = [relay] /\
      relay <> backend /\
      snd (perform net (snd (invoke c m)))
      = match net relay with
        | Unreachable => Throw TypeError
        | Responded r =>
            if ok r then
              match text r, json r with
              | [], _ => Return JNull
              | _ :: _, Some v => Return v
              | _ :: _, None => Return (JString (text r))
              end
            else Throw (failure js"Livepeer update failed" r)
        end.
Proof.
  intros c m id net Hid Ht Hw.
  apply UriFacts.encode_defined in Hw. destruct Hw as [component Hc].
  exists component.
  assert (S : forall r, forward_settle r
              = match r with
                | Unreachable => Throw TypeError
                | Responded r =>
                    if ok r then
                      match text r, json r with
                      | [], _ => Return JNull
                      | _ :: _, Some v => Return v
                      | _ :: _, None => Return (JString (text r))
                      end
                    else Throw (failure js"Livepeer update failed" r)
                end).
  { intros [r |]; [| reflexivity]. cbn.
    destruct (ok r); [| reflexivity].
    destruct (text r); [reflexivity |]. cbn. destruct (json r); reflexivity. }
  destruct c; eexists; (split; [exact Hc |]); (split; [reflexivity |]);
    cbv zeta; cbn [invoke];
    unfold sendWebRTCOffer, loadPipeline, getPipelineStatus, checkModelStatus,
           downloadPipelineModels, updatePipelineParameters, getHardwareInfo;
    rewrite (@withLivepeerRoute_set _ _ _ _ _ Hid Ht);
    rewrite (@forward_sent _ _ _ _ Hc);
    cbn [fst snd perform url body carried json_request];
    rewrite ?carried_json_body, ?coalesce_idem;
    (repeat split;
     [ intros E; apply (f_equal url) in E; cbn in E; discriminate
     | apply S ]).
Qed.

(** C1 at [getHardwareInfo] with the relay stream id ["abc"]. *)
Lemma relay_indirection_witness :
  exists component backend,
    Uri.encodeURIComponent js"abc" = Some component /\
    backend_request GetHardwareInfo = Some backend /\
    fst (perform (Sample.always Sample.empty_object)
                 (snd (invoke GetHardwareInfo (Sample.relayed js"abc"))))
    = [relay_request component (url backend) (carried (body backend))].
Proof.
  destruct (relay_indirection GetHardwareInfo (Sample.relayed js"abc")
              (Sample.always Sample.empty_object)
              eq_refl eq_refl eq_refl)
    as [component [backend [H1 [H2 [_ [H4 _]]]]]].
  exists component, backend. repeat split; assumption.
Defined.

(** C1 as stated fails: with the id set to a lone surrogate no POST is
    issued, and with the id ["abc"] a relay answer [500] with body [{}] is
    not returned but raised as an error. *)
Lemma relay_indirection_fails :
  perform (Sample.always Sample.empty_object)
          (snd (getHardwareInfo (Sample.relayed Sample.lone_surrogate)))
  = ([], Throw URIError)
  /\
  snd (perform (Sample.always Sample.server_error)
               (snd (getHardwareInfo (Sample.relayed js"abc"))))
  = Throw (Error js"Livepeer update failed: 500 Internal Server Error: {}").
Proof. split; reflexivity. Qed.

(** C2.  [startLivepeerStream] sends one POST to [/ai/stream/start] and
    never assigns the module's relay stream id.  It resolves, to the parsed
    body, exactly when the relay answered 2xx with a JSON body whose
    [whep_url] and [stream_id] are both truthy; whenever an answer lacks
    either (or is not JSON at all) the call throws. *)
Theorem startLivepeerStream_validates :
  forall (data : JSValue) (m : Module_) (net : Request -> Settled),
    let req := json_request POST js"/ai/stream/start"
                            (Json (default data (JObject []))) in
    let outcome := perform net (snd (startLivepeerStream data m)) in
    fst (startLivepeerStream data m) = m /\
    fst outcome = [req] /\
    (forall v,
        snd outcome = Return v <->
        exists r, net req = Responded r /\ ok r = true /\
                  json r = Some v /\ has_both v = true) /\
    (forall r,
        net req = Responded r ->
        match json r with Some v => has_both v | None => false end = false ->
        exists e, snd outcome = Throw e).
Proof.
  intros data m net req outcome. subst outcome.
  cbn [startLivepeerStream fst snd perform]. fold req.
  repeat split.
  - unfold start_settle, settle_json.
    destruct (net req) as [r |]; [| discriminate].
    destruct (ok r) eqn:K; [| discriminate].
    destruct (json r) as [body |] eqn:J; [| discriminate].
    unfold has_both.
    destruct (Js.truthy (Js.get body js"whep_url")) eqn:T1; cbn [negb];
      [| discriminate].
    destruct (Js.truthy (Js.get body js"stream_id")) eqn:T2; cbn [negb];
      [| discriminate].
    intros H. injection H as <-. exists r.
    rewrite T1, T2. repeat split; assumption.
  - intros [r [Hn [K [J B]]]]. rewrite Hn.
    unfold start_settle, settle_json. rewrite K, J.
    unfold has_both in B. apply andb_prop in B. destruct B as [-> ->].
    reflexivity.
  - intros r Hn B. rewrite Hn. unfold start_settle, settle_json.
    destruct (ok r); [| eexists; reflexivity].
    destruct (json r) as [body |]; [| eexists; reflexivity].
    unfold has_both in B.
    destruct (Js.truthy (Js.get body js"whep_url")); cbn [negb andb] in *;
      [| eexists; reflexivity].
    rewrite B. eexists; reflexivity.
Qed.

(** C7, as the code has it.  Whatever request a client function sent, an
    answer outside 200..299 makes it throw an [Error] whose message is the
    label of the call, the status in decimal, the status text and the body
    text: [label: status statusText: body].  The label is the function's
    own ([WebRTC offer failed], [Pipeline load failed], [Pipeline status
    failed], [Model status check failed], [Model download failed],
    [Pipeline update failed], [Hardware info failed], [Livepeer stream
    start failed]) when the request went to the function's own endpoint,
    and [Livepeer update failed] for the relay-forward primitive and for
    every function routed through it.  A 2xx answer is read in one of three
    ways: the backend functions return the parsed JSON body and throw when
    it is not JSON; [startLivepeerStream] does the same but throws unless
    [whep_url] and [stream_id] are truthy; the relay-forward primitive, and
    every function routed through it, returns [null] for an empty body,
    else the parsed JSON, else the raw text. *)
Theorem http_outcomes :
  forall (c : Call) (m : Module_) (req : Request)
         (settle : Settled -> Completion JSValue),
    snd (invoke_any c m) = Sent req settle ->
    (forall r, ok r = false ->
       settle (Responded r)
       = Throw (Error (label c m ++ js": " ++ JsString.of_N (status r) ++ js" "
                                 ++ statusText r ++ js": " ++ text r))) /\
    (forall r, ok r = true ->
       settle (Responded r)
       = match reading c m with
         | PlainJson =>
             match json r with
             | Some v => Return v
             | None => Throw SyntaxError
             end
         | ValidatedJson =>
             match json r with
             | Some v =>
                 if has_both v then Return v
                 else if Js.truthy (Js.get v js"whep_url")
                 then Throw (Error js"Livepeer stream start response missing stream_id")
                 else Throw (Error js"Livepeer stream start response missing whep_url")
             | None => Throw SyntaxError
             end
         | RelayBody =>
             match text r, json r with
             | [], _ => Return JNull
             | _ :: _, Some v => Return v
             | _ :: _, None => Return (JString (text r))
             end
         end).
Proof.
  intros c m req settle H.
  assert (Plain : forall l,
             settle = settle_json l ->
             (forall r, ok r = false ->
                settle (Responded r)
                = Throw (Error (l ++ js": " ++ JsString.of_N (status r) ++ js" "
                                  ++ statusText r ++ js": " ++ text r))) /\
             (forall r, ok r = true ->
                settle (Responded r)
                = match json r with
                  | Some v => Return v
                  | None => Throw SyntaxError
                  end)).
  { intros l ->. split; intros r K; cbn; rewrite K; reflexivity. }
  assert (Relay : settle = forward_settle ->
             (forall r, ok r = false ->
                settle (Responded r)
                = Throw (Error (js"Livepeer update failed" ++ js": "
                                  ++ JsString.of_N (status r) ++ js" "
                                  ++ statusText r ++ js": " ++ text r))) /\
             (forall r, ok r = true ->
                settle (Responded r)
                = match text r, json r with
                  | [], _ => Return JNull
                  | _ :: _, Some v => Return v
                  | _ :: _, None => Return (JString (text r))
                  end)).
  { intros ->. split; intros r K.
    - cbn. rewrite K. reflexivity.
    - apply forward_settle_ok. exact K. }
  assert (Fwd : forall id route payload,
             forwardLivepeerRequest id route payload = Sent req settle ->
             settle = forward_settle).
  { intros id route payload F. unfold forwardLivepeerRequest in F.
    destruct (Uri.encodeURIComponent id); [| discriminate].
    injection F as _ <-. reflexivity. }
  destruct c as [c | data | id route payload]; cbn [invoke_any reading label] in *.
  - destruct (relay_set m) eqn:R.
    + apply Relay. unfold relay_set in R.
      destruct (livepeerStreamId m) as [id |] eqn:Hid; [| discriminate].
      destruct c; cbn [invoke] in H;
        unfold sendWebRTCOffer, loadPipeline, getPipelineStatus, checkModelStatus,
               downloadPipelineModels, updatePipelineParameters, getHardwareInfo in H;
        rewrite (@withLivepeerRoute_set _ _ _ _ _ Hid R) in H;
        cbn [snd] in H; eapply Fwd; exact H.
    + destruct c; cbn [invoke own_label] in *;
        unfold sendWebRTCOffer, loadPipeline, getPipelineStatus, checkModelStatus,
               downloadPipelineModels, updatePipelineParameters, getHardwareInfo in H;
        rewrite (@withLivepeerRoute_unset _ _ _ _ R) in H;
        cbn [snd] in H; injection H as _ <-; apply Plain; reflexivity.
  - cbn [startLivepeerStream snd] in H. injection H as _ <-.
    split; intros r K.
    + unfold start_settle, settle_json. rewrite K. reflexivity.
    + unfold start_settle, settle_json, has_both. rewrite K.
      destruct (json r) as [v |]; [| reflexivity].
      destruct (Js.truthy (Js.get v js"whep_url")); cbn [negb andb];
        [| reflexivity].
      destruct (Js.truthy (Js.get v js"stream_id")); reflexivity.
  - cbn [snd] in H. apply Relay. eapply Fwd. exact H.
Qed.

(** C7 at [updatePipelineParameters] and a [500] answer: sent to the
    backend the call names itself, routed through the relay it names the
    relay-forward primitive. *)
Lemma http_outcomes_witness :
  snd (perform (Sample.always Sample.server_error)
               (snd (updatePipelineParameters (JObject []) Api.initial)))
  = Throw (Error js"Pipeline update failed: 500 Internal Server Error: {}") /\
  snd (perform (Sample.always Sample.server_error)
               (snd (updatePipelineParameters (JObject [])
                       (Sample.relayed js"abc"))))
  = Throw (Error js"Livepeer update failed: 500 Internal Server Error: {}").
Proof.
  split.
  - exact (proj1 (@http_outcomes
                    (Routed (UpdatePipelineParameters (JObject [])))
                    Api.initial _ _ eq_refl)
                 Sample.server_error eq_refl).
  - exact (proj1 (@http_outcomes
                    (Routed (UpdatePipelineParameters (JObject [])))
                    (Sample.relayed js"abc") _ _ eq_refl)
                 Sample.server_error eq_refl).
Defined.

(** C7 as stated fails: [startLivepeerStream] gets [200 OK] with the JSON
    body [{}] and does not return it. *)
Lemma http_outcomes_fails :
  ok Sample.empty_object = true /\
  json Sample.empty_object = Some (JObject []) /\
  snd (perform (Sample.always Sample.empty_object)
               (snd (startLivepeerStream (JObject []) Api.initial)))
  = Throw (Error js"Livepeer stream start response missing whep_url").
Proof. repeat split. Qed.

(** C10, as the code has it.  For a stream id without unpaired surrogates,
    [forwardLivepeerRequest] sends one POST to
    ["/ai/stream/" ++ encodeURIComponent(streamId) ++ "/update"]; the encoded
    id holds only unreserved characters and [%], so none of [/ ? #] or any
    other reserved character, and it is exactly the fourth [/]-separated
    segment of the path, which has neither query nor fragment.  For an id
    with an unpaired surrogate [encodeURIComponent] raises [URIError] and no
    request is sent. *)
Theorem forwardLivepeerRequest_path :
  forall (streamId route : jsstring) (payload : JSValue),
    match Uri.encodeURIComponent streamId with
    | Some component =>
        let target := js"/ai/stream/" ++ component ++ js"/update" in
        Uri.well_formed streamId = true /\
        forwardLivepeerRequest streamId route payload
        = Sent (json_request POST target (Json (envelope route payload)))
               forward_settle /\
        forallb Uri.component_unit component = true /\
        forallb (fun c => negb (Uri.reserved c)) component = true /\
        JsString.split 47 target = [[]; js"ai"; js"stream"; component; js"update"] /\
        JsString.has 63 target = false /\
        JsString.has 35 target = false
    | None =>
        Uri.well_formed streamId = false /\
        forwardLivepeerRequest streamId route payload = Aborted URIError /\
        requests (forwardLivepeerRequest streamId route payload) = []
    end.
Proof.
  intros streamId route payload.
  destruct (Uri.encodeURIComponent streamId) as [component |] eqn:E.
  - pose proof (UriFacts.encode_units _ E) as U.
    assert (S47 : JsString.has 47 component = false)
      by (apply UriFacts.component_has_not; [exact U | reflexivity]).
    assert (S63 : JsString.has 63 component = false)
      by (apply UriFacts.component_has_not; [exact U | reflexivity]).
    assert (S35 : JsString.has 35 component = false)
      by (apply UriFacts.component_has_not; [exact U | reflexivity]).
    cbv zeta. repeat split.
    + apply UriFacts.encode_defined. eauto.
    + unfold forwardLivepeerRequest. rewrite E. reflexivity.
    + exact U.
    + apply UriFacts.component_not_reserved. exact U.
    + change (js"/ai/stream/" ++ component ++ js"/update")
        with ([] ++ 47 :: js"ai" ++ 47 :: js"stream" ++ 47 :: component
                   ++ 47 :: js"update").
      rewrite UriFacts.split_app by reflexivity.
      rewrite UriFacts.split_app by reflexivity.
      rewrite UriFacts.split_app by reflexivity.
      rewrite UriFacts.split_app by exact S47.
      reflexivity.
    + rewrite !UriFacts.has_app, S63. reflexivity.
    + rewrite !UriFacts.has_app, S35. reflexivity.
  - assert (W : Uri.well_formed streamId = false).
    { destruct (Uri.well_formed streamId) eqn:W; [| reflexivity].
      apply UriFacts.encode_defined in W. destruct W as [e W]. congruence. }
    unfold forwardLivepeerRequest. rewrite E. repeat split. exact W.
Qed.

(** C10 as stated fails: for the id made of one lone surrogate no POST is
    sent at all. *)
Lemma forwardLivepeerRequest_lone_surrogate :
  perform (Sample.always Sample.empty_object)
          (forwardLivepeerRequest Sample.lone_surrogate
                                  js"/api/v1/pipeline/update" JNull)
  = ([], Throw URIError).
Proof. reflexivity. Qed.

(* ================================================================== *)
(** ** The session hook *)

(** C3, as the code has it.  With relay transport, each transition of the
    connection to [disconnected], [failed] or [closed] makes the handler
    record the state, set streaming and connecting to false, and clear the
    relay id, in the ref and in the API module, by exactly one call of
    [setLivepeerStreamId(null)].  Over a run of transitions on a connection
    with handlers attached there is one such call per such transition; after
    the first one the id is clear and stays clear, and a run without any
    leaves it as it was. *)
Theorem connection_lost_clears_relay :
  forall options : UseWebRTCOptions,
    Hook.isLivepeerTransport options = true ->
    (forall state w,
        lost state = true ->
        let w' := Hook.exec (Hook.onConnectionStateChange options state) w in
        connectionState w' = state /\
        isStreaming w' = false /\
        isConnecting w' = false /\
        livepeerStreamIdRef w' = None /\
        Api.livepeerStreamId (api w') = None /\
        log w' = log w ++ [SetLivepeerStreamId None]) /\
    (forall pc states w,
        W.closure_of pc w <> None ->
        let w' := Hook.run options (map (Hook.ConnectionStateChange pc) states) w in
        clears (log w') = (clears (log w) + List.length (filter lost states))%nat /\
        (existsb lost states = true ->
         livepeerStreamIdRef w' = None /\ Api.livepeerStreamId (api w') = None) /\
        (existsb lost states = false ->
         livepeerStreamIdRef w' = livepeerStreamIdRef w /\ api w' = api w)).
Proof.
  intros options R. split.
  - intros state w L. cbv zeta. unfold Hook.exec.
    rewrite (@change_lost options R state w L). repeat split.
  - intros pc states w A. apply (@changes_count options R pc states w A).
Qed.

(** C3 at a connected relay session whose connection fails. *)
Lemma connection_lost_clears_relay_witness :
  let w := Hook.run Sample.relay relay_session initial_world in
  let w' := Hook.exec (Hook.onConnectionStateChange Sample.relay failed) w in
  livepeerStreamIdRef w = Some js"abc" /\
  livepeerStreamIdRef w' = None /\
  log w' = log w ++ [SetLivepeerStreamId None].
Proof.
  split; [reflexivity |].
  destruct (proj1 (connection_lost_clears_relay Sample.relay eq_refl)
                  failed
                  (Hook.run Sample.relay relay_session initial_world)
                  eq_refl)
    as [_ [_ [_ [H [_ L]]]]].
  split; assumption.
Defined.

(** C3 as stated fails: a relay session that goes [disconnected] and then
    [failed] clears the shared relay identifier twice, not once. *)
Lemma connection_lost_clears_twice :
  let w := Hook.run Sample.relay
             (relay_session ++ [Hook.ConnectionStateChange 0 disconnected;
                                Hook.ConnectionStateChange 0 failed])
             initial_world in
  clears (log w) = 2%nat /\ clears (log w) <> 1%nat.
Proof. split; [reflexivity | discriminate]. Qed.

(** C4.  A call of [startStream] while the hook is connecting, or while it
    holds a peer connection, returns at once and changes nothing: no state,
    no effect, no new connection.  And over every run of the hook at most
    one peer connection is open, the one the hook refers to. *)
Theorem startStream_busy_is_noop :
  forall options : UseWebRTCOptions,
    (forall params stream w,
        isConnecting w = true \/ peerConnectionRef w <> None ->
        Hook.startStream options params stream w = (Return tt, w)) /\
    (forall events,
        let w := Hook.run options events initial_world in
        (List.length (openPcs w) <= 1)%nat /\
        forall pc, In pc (openPcs w) -> peerConnectionRef w = Some pc).
Proof.
  intros options. split.
  - intros params stream w H.
    unfold Hook.startStream, Hook.bind at 1, Hook.read.
    destruct H as [-> | H]; [reflexivity |].
    destruct (peerConnectionRef w); [| contradiction].
    rewrite orb_true_r. reflexivity.
  - intros events w.
    assert (O : owned w) by (apply run_owned, initial_owned).
    split; [apply owned_at_most_one; exact O | apply O].
Qed.

(** C4 at a second [startStream] right after the first. *)
Lemma startStream_busy_is_noop_witness :
  let w := Hook.run Sample.direct
                    [Hook.StartStream JUndefined (Some Sample.camera)]
                    initial_world in
  peerConnectionRef w = Some 0 /\
  Hook.startStream Sample.direct JUndefined (Some Sample.camera) w = (Return tt, w).
Proof.
  split; [reflexivity |].
  apply (proj1 (startStream_busy_is_noop Sample.direct)).
  right. discriminate.
Defined.

(** C5, as the code has it.  [sendParameterUpdate] keeps the fields of the
    update that are neither [undefined] nor [null] and are not named
    [__proto__], in their order and with their values.  It changes nothing
    but the log, to which it adds at most one effect, and that effect
    carries exactly the kept fields.  When every field is [undefined] or
    [null], or no field is kept, it adds none, with either transport.
    Otherwise: with the data-channel transport it sends the kept fields on
    the channel when the hook has one and it is open, and nothing when not;
    with the relay transport it does nothing without a relay id in the
    ref, and with one it makes the parameter-update request where the API
    module routes it: a POST of the envelope to the relay's update path
    when the module's id is set (none when that id cannot be encoded), a
    POST of the kept fields to the backend when it is not. *)
Theorem sendParameterUpdate_sends_filtered :
  forall (options : UseWebRTCOptions) (params : list (jsstring * JSValue))
         (readyState : RTCDataChannelState) (w : World),
    NoDup (Js.keys params) ->
    let kept := filter survives params in
    let route := js"/api/v1/pipeline/update" in
    Hook.filterParams params = kept /\
    exists effects,
      Hook.sendParameterUpdate options params readyState w
      = (Return tt, emit_all effects w) /\
      (List.length effects <= 1)%nat /\
      (forall e, In e effects -> carries (JObject kept) e) /\
      (forallb (fun entry => Js.nullish (snd entry)) params = true ->
       effects = []) /\
      (kept = [] -> effects = []) /\
      (kept <> [] ->
       Hook.parameterTransport options = webrtc ->
       effects = match dataChannelRef w, readyState with
                 | Some channel, dc_open => [Send channel (JObject kept)]
                 | _, _ => []
                 end) /\
      (kept <> [] ->
       Hook.parameterTransport options = livepeer ->
       effects
       = if Hook.truthy_ref (livepeerStreamIdRef w) then
           match livepeerStreamId (api w) with
           | Some id =>
               if JsString.truthy id then
                 match Uri.encodeURIComponent id with
                 | Some component =>
                     [Fetch (relay_request component route (JObject kept))]
                 | None => []
                 end
               else [Fetch (json_request POST route (Json (JObject kept)))]
           | None => [Fetch (json_request POST route (Json (JObject kept)))]
           end
         else []).
Proof.
  intros options params readyState w ND kept route.
  pose proof (filterParams_filter params ND) as F. fold kept in F.
  split; [exact F |].
  unfold Hook.sendParameterUpdate. rewrite F.
  destruct kept as [| first rest] eqn:K.
  { exists []. cbn. repeat split; try lia; try contradiction. }
  assert (NotAll : forallb (fun entry => Js.nullish (snd entry)) params = true
                   -> False).
  { intros A. apply filter_all_absent in A. fold kept in A. congruence. }
  cbn [Js.keys map List.length Nat.eqb].
  destruct (Hook.parameterTransport options) eqn:T.
  - (* data channel *)
    unfold Hook.bind, Hook.read.
    destruct (dataChannelRef w) as [channel |] eqn:D;
      [destruct readyState |].
    2: { exists [Send channel (JObject (first :: rest))]. finish NotAll. }
    all: exists []; finish NotAll.
  - (* relay *)
    unfold Hook.bind, Hook.read.
    destruct (Hook.truthy_ref (livepeerStreamIdRef w)) eqn:R; cbn [negb];
      [| exists []; finish NotAll].
    unfold Hook.try_catch, Hook.call, updatePipelineParameters,
           withLivepeerRoute.
    destruct (livepeerStreamId (api w)) as [id |] eqn:G;
      [destruct (JsString.truthy id);
       [unfold forwardLivepeerRequest;
        destruct (Uri.encodeURIComponent id) as [component |] |] |].
    2: { exists []. finish NotAll. }
    all: eexists [Fetch _]; finish NotAll.
Qed.

(** C5 at an update with two fields set, one [undefined] and one [null],
    sent by a connected relay session. *)
Lemma sendParameterUpdate_sends_filtered_witness :
  let w := Hook.run Sample.relay relay_session initial_world in
  let kept := [ (js"prompts", JArray [JString js"a cat"]);
                (js"paused", JBool false) ] in
  Hook.filterParams sample_update = kept /\
  exists effects,
    Hook.sendParameterUpdate Sample.relay sample_update dc_closed w
    = (Return tt, emit_all effects w) /\
    effects = [Fetch (relay_request js"abc" js"/api/v1/pipeline/update"
                        (JObject kept))].
Proof.
  assert (ND : NoDup (Js.keys sample_update)).
  { unfold sample_update. cbn.
    repeat (constructor; [cbn; intuition discriminate |]). constructor. }
  destruct (sendParameterUpdate_sends_filtered
              Sample.relay sample_update dc_closed
              (Hook.run Sample.relay relay_session initial_world) ND)
    as [F [effects (E & _ & _ & _ & _ & _ & L)]].
  cbv zeta. split; [exact F |].
  exists effects. split; [exact E |].
  apply L; [discriminate | reflexivity].
Defined.

(** C5 as stated fails: a field named [__proto__] is neither [undefined]
    nor [null], yet the assignment that should keep it sets the prototype
    of the filtered object instead, and the field is not sent; an update
    with no other field is not sent at all, here on an open data
    channel. *)
Lemma sendParameterUpdate_drops_proto :
  let params := [ (js"__proto__", JObject [(js"paused", JBool true)]) ] in
  filter present params = params /\
  Hook.filterParams params = [] /\
  dataChannelRef streaming_world = Some 0 /\
  Hook.sendParameterUpdate Sample.direct params dc_open streaming_world
  = (Return tt, streaming_world).
Proof. vm_compute. repeat split. Qed.

(** C6.  When the relay-session start fails with [e], the inner handler
    clears the relay id, in the ref and in the API module, and throws [e]
    again; the handler of the whole function then closes the connection the
    hook holds and forgets it, clears the relay id once more and sets
    connecting and streaming to false.  Whatever ran before, no connection
    is open afterwards and no relay id is set. *)
Theorem relay_start_failure_tears_down :
  forall (options : UseWebRTCOptions) (events : list Hook.Event)
         (pc : PcId) (params : JSValue) (stream : option Media.Stream)
         (e : JSError),
    let w := Hook.run options events initial_world in
    let w' := Hook.exec
                (Hook.startStream_relayStarted pc params stream (Throw e)) w in
    Hook.startStream_relayAnswer (Throw e) w
    = (Throw e,
       W.emit (SetLivepeerStreamId None)
         (W.setApi (Api.setLivepeerStreamId None (api w))
            (W.setLivepeerStreamIdRef None w))) /\
    Hook.startStream_relayStarted pc params stream (Throw e) w = (Return tt, w') /\
    log w' = log w
             ++ SetLivepeerStreamId None
             :: match peerConnectionRef w with
                | Some held => [Close held]
                | None => []
                end
             ++ [SetLivepeerStreamId None] /\
    peerConnectionRef w' = None /\
    openPcs w' = [] /\
    livepeerStreamIdRef w' = None /\
    Api.livepeerStreamId (api w') = None /\
    isConnecting w' = false /\
    isStreaming w' = false.
Proof.
  intros options events pc params stream e w w'.
  assert (O : owned w) by (apply run_owned, initial_owned).
  subst w'. generalize dependent w. intros w O.
  destruct w as [rs cs ic st held dc cur sid ap np opened chs hs lg].
  unfold owned in O. cbn in O. destruct O as [ND Own].
  assert (Open : filter (fun p => negb (p =? match held with
                                              | Some h => h
                                              | None => 0
                                              end)) opened = []
                 /\ (held = None -> opened = [])).
  { destruct opened as [| a r]; [split; reflexivity |].
    pose proof (Own a (or_introl eq_refl)) as Ha. subst held.
    split; [| discriminate].
    cbn. rewrite N.eqb_refl. cbn.
    destruct r as [| b r]; [reflexivity |]. exfalso.
    pose proof (Own b (or_intror (or_introl eq_refl))) as Hb.
    injection Hb as <-. inversion ND as [| ? ? N1 _]. apply N1. left. reflexivity. }
  destruct Open as [Open1 Open2].
  destruct held as [h |]; cbn.
  - rewrite Open1. repeat split. rewrite <- !app_assoc. reflexivity.
  - rewrite (Open2 eq_refl). repeat split. rewrite <- !app_assoc. reflexivity.
Qed.

(** C8, as the code has it.  [updateVideoTrack] returns false and touches
    nothing when the hook holds no connection, is not streaming, the new
    stream has no video track, or no sender of the connection carries a
    video track.  Otherwise it calls [replaceTrack] on the first sender that
    carries video, with the first video track of the new stream; when that
    succeeds it records the new stream as the current one and returns true,
    when it fails it returns false.  Nothing else of the state changes. *)
Theorem updateVideoTrack_outcome :
  forall (newStream : Media.Stream) (senders : list Sender)
         (replaced : bool) (w : World),
    Hook.updateVideoTrack_settled newStream senders replaced w
    = match peerConnectionRef w, isStreaming w,
            Media.getVideoTracks newStream, find Hook.sends_video senders with
      | Some pc, true, videoTrack :: _, Some sender =>
          let w1 := W.emit (ReplaceTrack pc (senderId sender) videoTrack) w in
          if replaced
          then (Return true, W.setCurrentStreamRef (Some newStream) w1)
          else (Return false, w1)
      | _, _, _, _ => (Return false, w)
      end.
Proof.
  intros newStream senders replaced w.
  unfold Hook.updateVideoTrack_settled, Hook.updateVideoTrack,
         Hook.bind at 1, Hook.bind at 1, Hook.read.
  destruct (peerConnectionRef w) as [pc |]; [| reflexivity].
  destruct (isStreaming w); [| reflexivity].
  unfold Hook.try_catch at 1.
  destruct (Media.getVideoTracks newStream) as [| videoTrack rest];
    [reflexivity |].
  destruct (find Hook.sends_video senders) as [sender |]; [| reflexivity].
  destruct replaced; reflexivity.
Qed.

(** C8 as stated fails: the hook streams, the new stream has a video track
    and the connection a video sender, yet the call returns false, because
    [replaceTrack] was rejected. *)
Lemma updateVideoTrack_rejected :
  isStreaming streaming_world = true /\
  peerConnectionRef streaming_world = Some 0 /\
  Media.getVideoTracks Sample.camera <> [] /\
  find Hook.sends_video [video_sender] = Some video_sender /\
  fst (Hook.updateVideoTrack_settled Sample.camera [video_sender] false
                                     streaming_world)
  = Return false.
Proof. vm_compute. repeat split. discriminate. Qed.

(** C9 at the failing input.  A stream is started and, while it is still
    connecting, stopped.  [stopStream] closes the connection and resets
    everything the claim lists except the connecting flag, which stays
    true; every later [startStream] is then turned away by its guard. *)
Theorem stopStream_while_connecting :
  let before :=
    Hook.run Sample.direct
      [ Hook.StartStream JUndefined (Some Sample.camera);
        Hook.OfferCreated 0 true;
        Hook.LocalDescriptionSet true ]
      initial_world in
  let after := Hook.step Sample.direct before Hook.StopStream in
  isConnecting before = true /\
  openPcs before = [0] /\
  openPcs after = [] /\
  peerConnectionRef after = None /\
  dataChannelRef after = None /\
  currentStreamRef after = None /\
  livepeerStreamIdRef after = None /\
  Api.livepeerStreamId (api after) = None /\
  remoteStream after = None /\
  connectionState after = new /\
  isStreaming after = false /\
  isConnecting after = true /\
  Hook.step Sample.direct after
            (Hook.StartStream JUndefined (Some Sample.camera)) = after.
Proof. vm_compute. repeat split. Qed.

(* ================================================================== *)
(** * Further lemmas *)

(* ================================================================== *)
(** ** Percent-encoding read back *)

From Stdlib Require Import ZArith.

Module PercentFacts.

Import Uri Percent UriFacts.

Ltac Zify.zify_post_hook ::= Z.to_euclidean_division_equations.

Lemma unhex_hex d : d < 16 -> unhex (hex d) = d.
Proof.
  intros H. unfold hex, unhex. rewrite N.mod_small by exact H.
  destruct (N.ltb_spec d 10).
  - destruct (N.ltb_spec (48 + d) 58); lia.
  - destruct (N.ltb_spec (55 + d) 58); lia.
Qed.

Lemma hex_not_percent d : hex d <> 37.
Proof.
  intros H. pose proof (hex_unescaped d) as U. rewrite H in U. discriminate.
Qed.

Lemma tokens_pct b r : b < 256 -> tokens (pct b ++ r) = Oct b :: tokens r.
Proof.
  intros H. unfold pct. cbn [app tokens]. rewrite N.eqb_refl.
  f_equal. f_equal.
  assert (E : hex b = hex (b mod 16)).
  { unfold hex. rewrite N.Div0.mod_mod. reflexivity. }
  rewrite E, !unhex_hex; lia.
Qed.

Lemma tokens_lit c r : unescaped c = true -> tokens (c :: r) = Lit c :: tokens r.
Proof.
  intros U. cbn [tokens].
  destruct (N.eqb_spec c 37) as [-> |]; [discriminate | reflexivity].
Qed.

Lemma tokens_octets bs r :
  Forall (fun b => b < 256) bs ->
  tokens (flat_map pct bs ++ r) = map Oct bs ++ tokens r.
Proof.
  induction 1 as [| b bs Hb _ IH]; [reflexivity |].
  cbn [flat_map map]. rewrite <- !app_assoc, tokens_pct by exact Hb.
  cbn [app]. rewrite IH. reflexivity.
Qed.

Lemma utf8_octets cp : cp < 1114112 -> Forall (fun b => b < 256) (utf8 cp).
Proof.
  intros H. unfold utf8.
  destruct (N.ltb_spec cp 128); [repeat constructor; lia |].
  destruct (N.ltb_spec cp 2048); [repeat constructor; lia |].
  destruct (N.ltb_spec cp 65536); repeat constructor; lia.
Qed.

Lemma chars_utf8 cp ts :
  cp < 1114112 -> chars (map Oct (utf8 cp) ++ ts) = units cp ++ chars ts.
Proof.
  intros H. unfold utf8.
  destruct (N.ltb_spec cp 128) as [A | A].
  { cbn [map app chars]. destruct (N.ltb_spec cp 128); [| lia].
    unfold units. destruct (N.ltb_spec cp 65536); [reflexivity | lia]. }
  destruct (N.ltb_spec cp 2048) as [B | B].
  { cbn [map app chars].
    destruct (N.ltb_spec (192 + cp / 64) 128); [lia |].
    destruct (N.ltb_spec (192 + cp / 64) 224); [| lia].
    f_equal. f_equal. lia. }
  destruct (N.ltb_spec cp 65536) as [C | C].
  { cbn [map app chars].
    destruct (N.ltb_spec (224 + cp / 4096) 128); [lia |].
    destruct (N.ltb_spec (224 + cp / 4096) 224); [lia |].
    destruct (N.ltb_spec (224 + cp / 4096) 240); [| lia].
    f_equal. f_equal. lia. }
  cbn [map app chars].
  destruct (N.ltb_spec (240 + cp / 262144) 128); [lia |].
  destruct (N.ltb_spec (240 + cp / 262144) 224); [lia |].
  destruct (N.ltb_spec (240 + cp / 262144) 240); [lia |].
  f_equal. f_equal. lia.
Qed.

Lemma decode_escape cp r :
  cp < 1114112 -> decode (escape cp ++ r) = units cp ++ decode r.
Proof.
  intros H. unfold decode, escape.
  rewrite tokens_octets by (apply utf8_octets; exact H).
  apply chars_utf8. exact H.
Qed.

Lemma units_pair c d :
  is_lead c = true -> is_trail d = true ->
  pair_code_point c d < 1114112 /\ units (pair_code_point c d) = [c; d].
Proof.
  unfold is_lead, is_trail, between, pair_code_point, units. intros L T.
  apply andb_prop in L. destruct L as [L1 L2].
  apply andb_prop in T. destruct T as [T1 T2].
  apply N.leb_le in L1, L2, T1, T2.
  split; [lia |].
  destruct (N.ltb_spec ((c - 55296) * 1024 + (d - 56320) + 65536) 65536); [lia |].
  f_equal; [| f_equal]; lia.
Qed.

(** Decoding undoes encoding. *)
Lemma decode_encode s :
  sixteen_bit s = true ->
  forall e, encodeURIComponent s = Some e -> decode e = s.
Proof.
  induction s as [| c r IH1 IH2] using two_step_ind; intros B e H.
  - injection H as <-. reflexivity.
  - cbn [encodeURIComponent] in H.
    unfold sixteen_bit in B. cbn [forallb] in B.
    apply andb_prop in B. destruct B as [Bc Br]. apply N.ltb_lt in Bc.
    destruct (unescaped c) eqn:U.
    { destruct (encodeURIComponent r) as [e' |] eqn:E; [| discriminate].
      injection H as <-. unfold decode. rewrite tokens_lit by exact U.
      cbn [chars]. f_equal. apply (IH1 Br e' eq_refl). }
    destruct (is_trail c); [discriminate |].
    destruct (is_lead c) eqn:L.
    + destruct r as [| d r']; [discriminate |].
      destruct (is_trail d) eqn:T; [| discriminate].
      destruct (encodeURIComponent r') as [e' |] eqn:E; [| discriminate].
      injection H as <-.
      destruct (units_pair c d L T) as [P1 P2].
      rewrite decode_escape by exact P1. rewrite P2. cbn [app].
      f_equal. f_equal. cbn [forallb] in Br.
      apply andb_prop in Br. destruct Br as [_ Br'].
      exact (IH2 d r' eq_refl Br' e' E).
    + destruct (encodeURIComponent r) as [e' |] eqn:E; [| discriminate].
      injection H as <-.
      rewrite decode_escape by lia.
      unfold units. destruct (N.ltb_spec c 65536); [| lia].
      cbn [app]. f_equal. apply (IH1 Br e' eq_refl).
Qed.

End PercentFacts.

Import Percent PercentFacts.

Lemma escape_long cp : (3 <= List.length (Uri.escape cp))%nat.
Proof.
  unfold Uri.escape, Uri.utf8.
  destruct (cp <? 128); [cbn; lia |].
  destruct (cp <? 2048); [cbn; lia |].
  destruct (cp <? 65536); cbn; lia.
Qed.

Lemma escape_short cp :
  cp < 65536 -> (List.length (Uri.escape cp) <= 9)%nat.
Proof.
  intros H. unfold Uri.escape, Uri.utf8.
  destruct (cp <? 128); [cbn; lia |].
  destruct (cp <? 2048); [cbn; lia |].
  destruct (N.ltb_spec cp 65536); [cbn; lia | lia].
Qed.

(** A surrogate pair is written with four octets. *)
Lemma escape_pair c d :
  List.length (Uri.escape (Uri.pair_code_point c d)) = 12%nat.
Proof.
  assert (P : 65536 <= Uri.pair_code_point c d)
    by (unfold Uri.pair_code_point; lia).
  unfold Uri.escape, Uri.utf8.
  destruct (N.ltb_spec (Uri.pair_code_point c d) 128); [lia |].
  destruct (N.ltb_spec (Uri.pair_code_point c d) 2048); [lia |].
  destruct (N.ltb_spec (Uri.pair_code_point c d) 65536); [lia |].
  reflexivity.
Qed.

(** An encoded string is no shorter than the string, and longer as soon
    as its first character is escaped. *)
Lemma encode_grows s :
  forall e, Uri.encodeURIComponent s = Some e ->
            (List.length s <= List.length e)%nat /\
            (match s with
             | c :: _ => Uri.unescaped c = false
             | [] => False
             end -> (List.length s < List.length e)%nat).
Proof.
  induction s as [| c r IH1 IH2] using UriFacts.two_step_ind; intros e H.
  - injection H as <-. split; [cbn; lia | intros []].
  - cbn [Uri.encodeURIComponent] in H.
    destruct (Uri.unescaped c) eqn:U.
    { destruct (Uri.encodeURIComponent r) as [e' |] eqn:E; [| discriminate].
      injection H as <-. destruct (IH1 e' eq_refl) as [A _].
      split; [cbn; lia | discriminate]. }
    destruct (Uri.is_trail c); [discriminate |].
    destruct (Uri.is_lead c).
    + destruct r as [| d r']; [discriminate |].
      destruct (Uri.is_trail d); [| discriminate].
      destruct (Uri.encodeURIComponent r') as [e' |] eqn:E; [| discriminate].
      injection H as <-. destruct (IH2 d r' eq_refl e' E) as [A _].
      rewrite length_app. cbn [List.length].
      rewrite (escape_pair c d). split; intros; lia.
    + destruct (Uri.encodeURIComponent r) as [e' |] eqn:E; [| discriminate].
      injection H as <-. destruct (IH1 e' eq_refl) as [A _].
      pose proof (escape_long c) as L.
      rewrite length_app. cbn [List.length]. split; intros; lia.
Qed.

Lemma encode_same s :
  Uri.encodeURIComponent s = Some s <-> forallb Uri.unescaped s = true.
Proof.
  split.
  - induction s as [| c r IH]; intros H; [reflexivity |].
    destruct (Uri.unescaped c) eqn:U.
    + cbn [forallb]. rewrite U. cbn [andb]. apply IH.
      cbn [Uri.encodeURIComponent] in H. rewrite U in H.
      destruct (Uri.encodeURIComponent r) as [e' |]; [| discriminate].
      injection H as ->. reflexivity.
    + exfalso. destruct (encode_grows (c :: r) H) as [_ S].
      specialize (S U). lia.
  - induction s as [| c r IH]; intros H; [reflexivity |].
    cbn [forallb] in H. apply andb_prop in H. destruct H as [U R].
    cbn [Uri.encodeURIComponent]. rewrite U, (IH R). reflexivity.
Qed.

Lemma encode_bounded s :
  sixteen_bit s = true ->
  forall e, Uri.encodeURIComponent s = Some e ->
            (List.length e <= 9 * List.length s)%nat.
Proof.
  induction s as [| c r IH1 IH2] using UriFacts.two_step_ind; intros B e H.
  - injection H as <-. cbn. lia.
  - cbn [Uri.encodeURIComponent] in H.
    unfold sixteen_bit in B. cbn [forallb] in B.
    apply andb_prop in B. destruct B as [Bc Br]. apply N.ltb_lt in Bc.
    destruct (Uri.unescaped c).
    { destruct (Uri.encodeURIComponent r) as [e' |] eqn:E; [| discriminate].
      injection H as <-. specialize (IH1 Br e' eq_refl). cbn [List.length]. lia. }
    destruct (Uri.is_trail c); [discriminate |].
    destruct (Uri.is_lead c).
    + destruct r as [| d r']; [discriminate |].
      destruct (Uri.is_trail d); [| discriminate].
      destruct (Uri.encodeURIComponent r') as [e' |] eqn:E; [| discriminate].
      injection H as <-. cbn [forallb] in Br.
      apply andb_prop in Br. destruct Br as [_ Br'].
      specialize (IH2 d r' eq_refl Br' e' E).
      rewrite length_app, escape_pair. cbn [List.length]. lia.
    + destruct (Uri.encodeURIComponent r) as [e' |] eqn:E; [| discriminate].
      injection H as <-. specialize (IH1 Br e' eq_refl).
      pose proof (escape_short Bc) as L.
      rewrite length_app. cbn [List.length]. lia.
Qed.

(* ================================================================== *)
(** ** Bodies of the backend requests *)

Lemma backend_body c backend :
  backend_request c = Some backend ->
  (method backend = GET -> body backend = NoBody) /\
  (method backend = POST ->
   (body backend = NoBody <->
    c = SendWebRTCOffer JUndefined \/ c = UpdatePipelineParameters JUndefined)) /\
  (forall s, body backend <> Raw s).
Proof.
  destruct c as [data | data | | pipelineId | pipelineId | data |];
    try destruct data;
    intros E; injection E as <-; cbn;
    (split; [intros; first [reflexivity | discriminate] |]);
    (split; [| intros; discriminate]);
    intros M; try discriminate M; split; intros H;
    first [ reflexivity | discriminate H
          | left; reflexivity | right; reflexivity
          | destruct H as [H | H]; discriminate H ].
Qed.

(* ================================================================== *)
(** ** Relations every statement of the hook respects *)

Module StepFacts.

Import Hook Steps.
Local Open Scope hook_scope.

Section Relation.

Variable R : World -> World -> Prop.

Hypothesis R_refl : forall w, R w w.
Hypothesis R_trans : forall a b c, R a b -> R b c -> R a c.

Lemma respects_ret {A} (a : A) : respects R (ret a).
Proof. intros w. apply R_refl. Qed.

Lemma respects_throw {A} e : respects R (@throw A e).
Proof. intros w. apply R_refl. Qed.

Lemma respects_read : respects R read.
Proof. intros w. apply R_refl. Qed.

Lemma respects_bind {A B} (m : M A) (k : A -> M B) :
  respects R m -> (forall a, respects R (k a)) -> respects R (bind m k).
Proof.
  intros Hm Hk w. unfold bind. specialize (Hm w).
  destruct (m w) as [[a | e] w']; cbn [snd] in *; [| exact Hm].
  eapply R_trans; [exact Hm | apply Hk].
Qed.

Lemma respects_try_catch {A} (m : M A) (h : JSError -> M A) :
  respects R m -> (forall e, respects R (h e)) -> respects R (try_catch m h).
Proof.
  intros Hm Hh w. unfold try_catch. specialize (Hm w).
  destruct (m w) as [[a | e] w']; cbn [snd] in *; [exact Hm |].
  eapply R_trans; [exact Hm | apply Hh].
Qed.

Lemma respects_when b (m : M unit) : respects R m -> respects R (when b m).
Proof. intros H. destruct b; [exact H | apply respects_ret]. Qed.

Lemma respects_act f : (forall w, R w (f w)) -> respects R (act f).
Proof. intros H w. apply H. Qed.

Lemma respects_on_open pc f : (forall w, R w (f w)) -> respects R (on_open pc f).
Proof.
  intros H w. unfold on_open. destruct (W.is_open pc w); cbn [snd];
    [apply H | apply R_refl].
Qed.

(** Two statements in a row that respect [R] together. *)
Lemma respects_pair {B} (m1 m2 : M unit) (k : M B) :
  respects R (bind m1 (fun _ => m2)) -> respects R k ->
  respects R (bind m1 (fun _ => bind m2 (fun _ => k))).
Proof.
  intros H12 Hk w. specialize (H12 w). unfold bind in *.
  destruct (m1 w) as [[[] | e] w1]; cbn [snd] in *; [| exact H12].
  destruct (m2 w1) as [[[] | e] w2]; cbn [snd] in *; [| exact H12].
  eapply R_trans; [exact H12 | apply Hk].
Qed.

End Relation.

Ltac respects_step refl trans prim :=
  first
    [ apply respects_ret; exact refl
    | apply respects_throw; exact refl
    | apply respects_read; exact refl
    | prim
    | apply respects_when; [exact refl |]
    | apply respects_bind; [exact trans | | intro]
    | apply respects_try_catch; [exact trans | | intro]
    | match goal with
      | |- respects _ (match ?x with _ => _ end) => destruct x
      end ].

Lemma withLivepeerRoute_module route body fetcher m :
  fst (Api.withLivepeerRoute route body fetcher m) = m.
Proof.
  unfold Api.withLivepeerRoute.
  destruct (livepeerStreamId m) as [id |]; [| reflexivity].
  destruct (JsString.truthy id); reflexivity.
Qed.

(** *** The two relay ids *)

Lemma syncs_refl w : syncs w w.
Proof. left. split; reflexivity. Qed.

Lemma syncs_trans a b c : syncs a b -> syncs b c -> syncs a c.
Proof.
  unfold syncs, coherent. intros [[A1 A2] | A] [[B1 B2] | B].
  - left. split; congruence.
  - right. exact B.
  - right. congruence.
  - right. exact B.
Qed.

Lemma syncs_publish id :
  respects syncs (act (W.setLivepeerStreamIdRef id) ;; setLivepeerStreamId id).
Proof. intros w. right. reflexivity. Qed.

Lemma syncs_call f : (forall m, fst (f m) = m) -> respects syncs (call f).
Proof.
  intros H w. unfold call. specialize (H (api w)).
  destruct (f (api w)) as [m [req s | e]]; cbn [fst] in H; subst m;
    left; split; reflexivity.
Qed.

Ltac syncs_prim :=
  first
    [ apply syncs_publish
    | apply respects_pair; [exact syncs_trans | apply syncs_publish |]
    | apply respects_act; intros ?; left; split; reflexivity
    | apply respects_on_open; [exact syncs_refl | intros ?; left; split; reflexivity]
    | apply syncs_call; intros ?;
      first [reflexivity | apply withLivepeerRoute_module]
    | intros ?; left; split; reflexivity ].

Ltac syncs_auto := repeat respects_step syncs_refl syncs_trans syncs_prim.

Lemma syncs_addVideoTracks pc ts : respects syncs (addVideoTracks pc ts).
Proof.
  induction ts as [| t r IH]; cbn [addVideoTracks]; [syncs_auto |].
  apply respects_bind; [exact syncs_trans | | intros _; exact IH].
  unfold addTrack. syncs_auto.
Qed.

Lemma syncs_startMedia pc url params stream :
  respects syncs (startMedia pc url params stream).
Proof.
  unfold startMedia, attachHandlers, addTransceiver.
  apply respects_bind; [exact syncs_trans | | intros _; syncs_auto].
  destruct stream; [apply syncs_addVideoTracks | syncs_auto].
Qed.

Lemma syncs_handle options e :
  outside e = false -> respects syncs (handle options e).
Proof.
  intros O. destruct e; try discriminate; cbn [handle];
    unfold startStream, startStream_relayStarted, startStream_relayAnswer,
           startStream_offerCreated, startStream_localDescriptionSet,
           dispatch, onTrack, onConnectionStateChange, onIceCandidate,
           onIceCandidate_whepAnswered, onIceCandidate_offerAnswered,
           onIceCandidate_remoteDescriptionSet, onDataChannelMessage,
           updateVideoTrack, updateVideoTrack_replaced, sendParameterUpdate,
           stopStream, unmount, startCatch, closePeerConnection,
           clearLivepeerStreamId, createDataChannel, close,
           newRTCPeerConnection;
    repeat first
      [ apply syncs_startMedia
      | respects_step syncs_refl syncs_trans syncs_prim ].
Qed.

(** Over every run of the hook without a write from outside the two
    relay ids agree, if they did at its start. *)
Lemma run_coherent options es :
  existsb outside es = false ->
  forall w, coherent w -> coherent (run options es w).
Proof.
  induction es as [| e es IH]; intros O w C; [exact C |].
  cbn [existsb] in O. apply orb_false_elim in O. destruct O as [O1 O2].
  cbn [run fold_left]. apply (IH O2).
  destruct (syncs_handle options e O1 w) as [[E1 E2] | H]; [| exact H].
  unfold step, exec, coherent in *. congruence.
Qed.

End StepFacts.

Import Steps StepFacts.

(* ================================================================== *)
(** ** What the statements of the hook add to the log *)

Module LogFacts.

Import Hook Steps StepFacts.
Local Open Scope hook_scope.

Section Kind.

Variable P : Effect -> Prop.

Lemma logs_refl w : logs P w w.
Proof. exists []. split; [symmetry; apply app_nil_r | constructor]. Qed.

Lemma logs_trans a b c : logs P a b -> logs P b c -> logs P a c.
Proof.
  intros [l1 [E1 F1]] [l2 [E2 F2]]. exists (l1 ++ l2). split.
  - rewrite E2, E1, app_assoc. reflexivity.
  - apply Forall_app. split; assumption.
Qed.

Lemma logs_emit e w : P e -> logs P w (W.emit e w).
Proof. intros H. exists [e]. split; [reflexivity | repeat constructor; exact H]. Qed.

Lemma logs_call f :
  (forall m req s, snd (f m) = Api.Sent req s -> P (Fetch req)) ->
  respects (logs P) (call f).
Proof.
  intros H w. unfold call. specialize (H (api w)).
  destruct (f (api w)) as [m [req s | e]]; cbn [snd] in *.
  - apply (logs_emit (W.setApi m w)). apply (H req s eq_refl).
  - apply (logs_refl (W.setApi m w)).
Qed.

End Kind.

Ltac logs_one :=
  first
    [ exists []; split; [rewrite app_nil_r; reflexivity | constructor]
    | eexists [_]; split; [reflexivity | constructor; [exact I | constructor]] ].

Ltac logs_prim P fetches :=
  first
    [ apply logs_call; fetches
    | apply respects_act; intros ?; logs_one
    | apply respects_on_open; [exact (logs_refl P) | intros ?; logs_one]
    | intros ?; logs_one ].

Ltac logs_auto P fetches :=
  repeat respects_step (logs_refl P) (logs_trans (P:=P)) ltac:(logs_prim P fetches).

Ltac unfold_handlers :=
  unfold startStream, startStream_relayStarted, startStream_relayAnswer,
         startStream_offerCreated, startStream_localDescriptionSet,
         dispatch, onTrack, onConnectionStateChange, onIceCandidate,
         onIceCandidate_whepAnswered, onIceCandidate_offerAnswered,
         onIceCandidate_remoteDescriptionSet, onDataChannelMessage,
         updateVideoTrack, updateVideoTrack_replaced, sendParameterUpdate,
         stopStream, unmount, startCatch, closePeerConnection,
         clearLivepeerStreamId, setLivepeerStreamId, startMedia,
         attachHandlers, addTransceiver, createDataChannel, close,
         newRTCPeerConnection.

Lemma logs_addVideoTracks P pc ts :
  (forall t, P (AddTrack pc t)) -> respects (logs P) (addVideoTracks pc ts).
Proof.
  intros H. induction ts as [| t r IH]; cbn [addVideoTracks].
  - apply respects_ret. apply logs_refl.
  - apply respects_bind; [apply logs_trans | | intros _; exact IH].
    apply respects_when; [apply logs_refl |].
    unfold addTrack. apply respects_on_open; [apply logs_refl |].
    intros w. apply logs_emit. apply H.
Qed.

(** With the relay transport no step creates or uses a data channel. *)
Lemma relay_channel_free options e :
  parameterTransport options = livepeer ->
  respects (logs channel_free) (handle options e).
Proof.
  intros T.
  assert (T' : isLivepeerTransport options = true)
    by (unfold isLivepeerTransport; rewrite T; reflexivity).
  destruct e; cbn [handle]; unfold_handlers; rewrite ?T, ?T'; cbn [negb];
    repeat first
      [ apply logs_addVideoTracks; intros ?; exact I
      | respects_step (logs_refl channel_free)
                      (logs_trans (P:=channel_free))
                      ltac:(logs_prim channel_free ltac:(intros; exact I)) ].
Qed.

Lemma start_is_not_update component :
  js"/ai/stream/" ++ component ++ js"/update" <> js"/ai/stream/start".
Proof.
  intros E.
  change (js"/ai/stream/" ++ component ++ js"/update"
          = js"/ai/stream/" ++ js"start") in E.
  apply app_inv_head in E. apply (f_equal (@List.length N)) in E.
  rewrite length_app in E.
  change (List.length js"/update") with 7%nat in E.
  change (List.length js"start") with 5%nat in E. lia.
Qed.

Lemma offer_is_not_start data m req s :
  snd (Api.sendWebRTCOffer data m) = Api.Sent req s ->
  url req <> js"/ai/stream/start".
Proof.
  unfold Api.sendWebRTCOffer, Api.withLivepeerRoute.
  assert (D : forall r k,
             Api.Sent (Api.json_request POST js"/api/v1/webrtc/offer" (json_body data))
                      (Api.settle_json js"WebRTC offer failed") = Api.Sent r k ->
             url r <> js"/ai/stream/start").
  { intros r k H. injection H as <- _. discriminate. }
  destruct (livepeerStreamId m) as [id |]; cbn [snd]; [| apply D].
  destruct (JsString.truthy id); cbn [snd]; [| apply D].
  unfold Api.forwardLivepeerRequest.
  destruct (Uri.encodeURIComponent id) as [component |]; [| discriminate].
  intros H. injection H as <- _. apply start_is_not_update.
Qed.

(** With the data-channel transport no step asks the relay for a session. *)
Lemma direct_no_relay_start options e :
  parameterTransport options = webrtc ->
  respects (logs no_relay_start) (handle options e).
Proof.
  intros T.
  assert (T' : isLivepeerTransport options = false)
    by (unfold isLivepeerTransport; rewrite T; reflexivity).
  destruct e; cbn [handle]; unfold_handlers; rewrite ?T, ?T'; cbn [negb];
    repeat first
      [ apply logs_addVideoTracks; intros ?; exact I
      | respects_step (logs_refl no_relay_start)
                      (logs_trans (P:=no_relay_start))
                      ltac:(logs_prim no_relay_start
                              ltac:(intros ? ? ? H;
                                    apply (offer_is_not_start _ _ H))) ].
Qed.

Lemma run_logs P options :
  (forall e, respects (logs P) (handle options e)) ->
  forall es w, logs P w (run options es w).
Proof.
  intros H es. induction es as [| e es IH]; intros w; [apply logs_refl |].
  cbn [run fold_left]. eapply logs_trans; [apply (H e w) | apply IH].
Qed.

End LogFacts.

Import LogFacts.

(* ================================================================== *)
(** ** The offer/answer exchange *)

Module ExchangeFacts.

Import Hook Steps StepFacts LogFacts.
Local Open Scope hook_scope.

Lemma negotiates_refl w : negotiates w w.
Proof.
  unfold negotiates. repeat split; try reflexivity.
  - left. reflexivity.
  - exists []. symmetry. apply app_nil_r.
Qed.

Lemma negotiates_trans a b c : negotiates a b -> negotiates b c -> negotiates a c.
Proof.
  unfold negotiates.
  intros [A1 [A2 [A3 [A4 [A5 [A6 [A7 [A8 [A9 [A10 [A11 [A12 [A13 [l1 A14]]]]]]]]]]]]]]
         [B1 [B2 [B3 [B4 [B5 [B6 [B7 [B8 [B9 [B10 [B11 [B12 [B13 [l2 B14]]]]]]]]]]]]]].
  repeat split; try congruence.
  - destruct B13 as [B13 | B13]; [| right; exact B13].
    destruct A13 as [A13 | A13]; [left | right]; congruence.
  - exists (l1 ++ l2). rewrite B14, A14, app_assoc. reflexivity.
Qed.

Ltac negotiates_one :=
  unfold negotiates; cbn;
  repeat split;
  first
    [ reflexivity
    | left; reflexivity
    | right; reflexivity
    | exists []; rewrite app_nil_r; reflexivity
    | eexists [_]; reflexivity ].

Lemma negotiates_call f :
  (forall m, fst (f m) = m) -> respects negotiates (call f).
Proof.
  intros H w. unfold call. specialize (H (api w)).
  destruct (f (api w)) as [m [req s | e]]; cbn [fst snd] in *; subst m;
    rewrite ?setApi_same.
  - destruct w; negotiates_one.
  - apply negotiates_refl.
Qed.

Ltac negotiates_prim :=
  first
    [ apply negotiates_call; intros ?; apply withLivepeerRoute_module
    | apply respects_act; intros ?; negotiates_one ].

(** No step of the exchange tears the session down. *)
Lemma exchange_negotiates options e :
  exchange e = true -> respects negotiates (handle options e).
Proof.
  intros X. destruct e; try discriminate; cbn [handle];
    unfold dispatch, onIceCandidate, onIceCandidate_whepAnswered,
           onIceCandidate_offerAnswered, onIceCandidate_remoteDescriptionSet;
    repeat respects_step negotiates_refl negotiates_trans negotiates_prim.
Qed.

Lemma exchange_logs options e :
  exchange e = true -> respects (logs exchange_effect) (handle options e).
Proof.
  intros X. destruct e; try discriminate; cbn [handle];
    unfold dispatch, onIceCandidate, onIceCandidate_whepAnswered,
           onIceCandidate_offerAnswered, onIceCandidate_remoteDescriptionSet;
    repeat respects_step (logs_refl exchange_effect)
                         (logs_trans (P:=exchange_effect))
                         ltac:(logs_prim exchange_effect ltac:(intros; exact I)).
Qed.

End ExchangeFacts.

Import ExchangeFacts.

(* ================================================================== *)
(** ** Single steps on a world spelled out *)

Lemma emit_all_app a b w : emit_all (a ++ b) w = emit_all b (emit_all a w).
Proof. unfold emit_all. apply fold_left_app. Qed.

Lemma emit_all_log l w : log (emit_all l w) = log w ++ l.
Proof.
  revert w. induction l as [| e l IH]; intros w; cbn.
  - symmetry. apply app_nil_r.
  - unfold emit_all in IH. rewrite IH. cbn. rewrite <- app_assoc. reflexivity.
Qed.

Lemma emit_all_world l w :
  emit_all l w
  = {| remoteStream := remoteStream w; connectionState := connectionState w;
       isConnecting := isConnecting w; isStreaming := isStreaming w;
       peerConnectionRef := peerConnectionRef w;
       dataChannelRef := dataChannelRef w;
       currentStreamRef := currentStreamRef w;
       livepeerStreamIdRef := livepeerStreamIdRef w; api := api w;
       nextPc := nextPc w; openPcs := openPcs w; channels := channels w;
       handlers := handlers w; log := log w ++ l |}.
Proof.
  revert w. induction l as [| e l IH]; intros w.
  - destruct w. cbn. rewrite app_nil_r. reflexivity.
  - cbn. unfold emit_all in IH. rewrite IH. cbn.
    rewrite <- app_assoc. reflexivity.
Qed.

Lemma emit_all_open l pc w : W.is_open pc (emit_all l w) = W.is_open pc w.
Proof.
  revert w. induction l as [| e l IH]; intros w; [reflexivity |].
  cbn. unfold emit_all in IH. rewrite IH. reflexivity.
Qed.

Lemma addVideoTracks_open pc ts w :
  W.is_open pc w = true ->
  Hook.addVideoTracks pc ts w
  = (Return tt, emit_all (map (AddTrack pc) (filter Media.is_video ts)) w).
Proof.
  revert w. induction ts as [| t r IH]; intros w O; [reflexivity |].
  cbn [Hook.addVideoTracks filter]. unfold Hook.bind.
  destruct (Media.is_video t); cbn [Hook.when].
  - unfold Hook.addTrack, Hook.on_open. rewrite O.
    rewrite IH by exact O. reflexivity.
  - cbn [Hook.ret]. apply IH. exact O.
Qed.

Lemma addVideoTracks_closed pc ts w :
  W.is_open pc w = false ->
  Hook.addVideoTracks pc ts w
  = (if existsb Media.is_video ts then Throw DOMException else Return tt, w).
Proof.
  intros C. induction ts as [| t r IH]; [reflexivity |].
  cbn [Hook.addVideoTracks existsb]. unfold Hook.bind.
  destruct (Media.is_video t); cbn [Hook.when orb].
  - unfold Hook.addTrack, Hook.on_open. rewrite C. reflexivity.
  - cbn [Hook.ret]. exact IH.
Qed.

(** From the media to [createOffer], on a connection that is open. *)
Lemma startMedia_open pc url params stream w :
  W.is_open pc w = true ->
  Hook.startMedia pc url params stream w
  = (Return tt,
     W.emit (CreateOffer pc)
       (W.emit (AttachHandlers pc)
          (let v := emit_all (media_effects pc stream) w in
           W.setBrowser (nextPc v) (openPcs v) (channels v)
             ((pc, {| whepUrl := url; initialParameters := params |})
              :: handlers v) v))).
Proof.
  intros O. unfold Hook.startMedia, Hook.bind at 1.
  destruct stream as [s |]; cbn [media_effects].
  - unfold Media.getTracks, Media.getVideoTracks.
    rewrite addVideoTracks_open by exact O. reflexivity.
  - unfold Hook.addTransceiver, Hook.on_open. rewrite O. reflexivity.
Qed.

Ltac flat :=
  cbv [W.setRemoteStream W.setConnectionState W.setIsConnecting W.setIsStreaming
       W.setPeerConnectionRef W.setDataChannelRef W.setCurrentStreamRef
       W.setLivepeerStreamIdRef W.setApi W.setBrowser W.emit
       remoteStream connectionState isConnecting isStreaming peerConnectionRef
       dataChannelRef currentStreamRef livepeerStreamIdRef api nextPc openPcs
       channels handlers log].

Lemma bind_act {B} f (k : unit -> Hook.M B) w :
  Hook.bind (Hook.act f) k w = k tt (f w).
Proof. reflexivity. Qed.

Lemma bind_read {B} (k : World -> Hook.M B) w :
  Hook.bind Hook.read k w = k w w.
Proof. reflexivity. Qed.

(** Evaluate the one run the goal is about, by [tac]. *)
Ltac evaluate tac :=
  match goal with
  | |- context [snd (?m ?w)] =>
      let Hr := fresh "Hr" in
      eassert (Hr : m w = _); [tac; reflexivity | rewrite Hr; clear Hr]
  end.

(** A start with the data-channel transport, on a world spelled out. *)
Lemma startStream_direct_value options params stream rs cs st dc cur sid ap np opened chs hs lg :
  Hook.parameterTransport options = webrtc ->
  let w := {| remoteStream := rs; connectionState := cs; isConnecting := false;
              isStreaming := st; peerConnectionRef := None; dataChannelRef := dc;
              currentStreamRef := cur; livepeerStreamIdRef := sid; api := ap;
              nextPc := np; openPcs := opened; channels := chs; handlers := hs;
              log := lg |} in
  Hook.startStream options params stream w
  = (Return tt,
     {| remoteStream := rs; connectionState := cs; isConnecting := true;
        isStreaming := st; peerConnectionRef := Some np;
        dataChannelRef := Some np;
        currentStreamRef := stream; livepeerStreamIdRef := None;
        api := Api.setLivepeerStreamId None ap;
        nextPc := np + 1; openPcs := np :: opened; channels := np :: chs;
        handlers := (np, {| whepUrl := None; initialParameters := params |}) :: hs;
        log := lg ++ [SetLivepeerStreamId None; NewPeerConnection np;
                      CreateDataChannel np]
                  ++ media_effects np stream
                  ++ [AttachHandlers np; CreateOffer np] |}).
Proof.
  intros T w. subst w.
  unfold Hook.startStream, Hook.isLivepeerTransport. rewrite T.
  unfold Hook.bind at 1, Hook.read. flat. cbn [orb Hook.is_some negb Hook.when].
  rewrite bind_act. flat.
  unfold Hook.try_catch, Hook.clearLivepeerStreamId, Hook.setLivepeerStreamId.
  unfold Hook.bind at 1. rewrite bind_act. flat. unfold Hook.act at 1. flat.
  rewrite bind_act. flat.
  unfold Hook.bind at 1, Hook.newRTCPeerConnection. flat.
  rewrite bind_act. flat.
  unfold Hook.bind at 1, Hook.createDataChannel, Hook.on_open, W.is_open. flat.
  cbn [existsb]. rewrite N.eqb_refl. cbn [orb]. flat.
  rewrite bind_act. flat.
  rewrite startMedia_open by (unfold W.is_open; flat; cbn [existsb];
                               rewrite N.eqb_refl; reflexivity).
  rewrite emit_all_world. cbv zeta. flat.
  rewrite <- !app_assoc. reflexivity.
Qed.

(** A start with the relay transport, on a world spelled out. *)
Lemma startStream_relay_value options params stream rs cs st dc cur sid ap np opened chs hs lg :
  Hook.parameterTransport options = livepeer ->
  let w := {| remoteStream := rs; connectionState := cs; isConnecting := false;
              isStreaming := st; peerConnectionRef := None; dataChannelRef := dc;
              currentStreamRef := cur; livepeerStreamIdRef := sid; api := ap;
              nextPc := np; openPcs := opened; channels := chs; handlers := hs;
              log := lg |} in
  Hook.startStream options params stream w
  = (Return tt,
     {| remoteStream := rs; connectionState := cs; isConnecting := true;
        isStreaming := st; peerConnectionRef := Some np;
        dataChannelRef := None;
        currentStreamRef := stream; livepeerStreamIdRef := sid;
        api := ap;
        nextPc := np + 1; openPcs := np :: opened; channels := chs;
        handlers := hs;
        log := lg ++ [NewPeerConnection np;
                      Fetch (json_request POST js"/ai/stream/start"
                               (Json (JObject [(js"initialParameters", params)])))] |}).
Proof.
  intros T w. subst w.
  unfold Hook.startStream, Hook.isLivepeerTransport. rewrite T.
  rewrite bind_read. flat. cbn [orb Hook.is_some negb Hook.when].
  rewrite bind_act. flat.
  unfold Hook.try_catch.
  unfold Hook.bind at 1, Hook.ret at 1.
  rewrite bind_act. flat.
  unfold Hook.bind at 1, Hook.newRTCPeerConnection. flat.
  rewrite bind_act. flat.
  rewrite bind_act. flat.
  unfold Hook.call, startLivepeerStream, default. flat.
  rewrite <- !app_assoc. reflexivity.
Qed.

(** The relay answered with a stream, on a world spelled out whose
    connection [pc] is open. *)
Lemma relayStarted_open_value pc params stream response rs cs ic st held dc cur sid ap np opened chs hs lg :
  existsb (N.eqb pc) opened = true ->
  let w := {| remoteStream := rs; connectionState := cs; isConnecting := ic;
              isStreaming := st; peerConnectionRef := held; dataChannelRef := dc;
              currentStreamRef := cur; livepeerStreamIdRef := sid; api := ap;
              nextPc := np; openPcs := opened; channels := chs; handlers := hs;
              log := lg |} in
  Hook.startStream_relayStarted pc params stream (Return response) w
  = (Return tt,
     {| remoteStream := rs; connectionState := cs; isConnecting := ic;
        isStreaming := st; peerConnectionRef := held; dataChannelRef := dc;
        currentStreamRef := cur;
        livepeerStreamIdRef := Some (stream_id response);
        api := Api.setLivepeerStreamId (Some (stream_id response)) ap;
        nextPc := np; openPcs := opened; channels := chs;
        handlers := (pc, {| whepUrl := Some (whep_url response);
                            initialParameters := params |}) :: hs;
        log := lg ++ [SetLivepeerStreamId (Some (stream_id response))]
                  ++ media_effects pc stream
                  ++ [AttachHandlers pc; CreateOffer pc] |}).
Proof.
  intros O w. subst w.
  unfold Hook.startStream_relayStarted, Hook.startStream_relayAnswer.
  unfold Hook.try_catch at 1. unfold Hook.bind at 1.
  unfold Hook.try_catch at 1. rewrite bind_act. flat.
  unfold Hook.setLivepeerStreamId. rewrite bind_act. flat.
  unfold Hook.ret at 1.
  rewrite startMedia_open by (unfold W.is_open; flat; exact O).
  rewrite emit_all_world. cbv zeta. flat.
  rewrite <- !app_assoc. reflexivity.
Qed.

(** The [catch] of [startStream], on a world spelled out. *)
Lemma startCatch_value rs cs ic st held dc cur sid ap np opened chs hs lg :
  Hook.startCatch
    {| remoteStream := rs; connectionState := cs; isConnecting := ic;
       isStreaming := st; peerConnectionRef := held; dataChannelRef := dc;
       currentStreamRef := cur; livepeerStreamIdRef := sid; api := ap;
       nextPc := np; openPcs := opened; channels := chs; handlers := hs;
       log := lg |}
  = (Return tt,
     {| remoteStream := rs; connectionState := cs; isConnecting := false;
        isStreaming := false; peerConnectionRef := None; dataChannelRef := dc;
        currentStreamRef := cur; livepeerStreamIdRef := None;
        api := Api.setLivepeerStreamId None ap;
        nextPc := np; openPcs := without held opened; channels := chs;
        handlers := hs;
        log := lg ++ closes held ++ [SetLivepeerStreamId None] |}).
Proof.
  unfold Hook.startCatch, Hook.closePeerConnection, Hook.setLivepeerStreamId.
  unfold Hook.bind at 1. rewrite bind_read. flat.
  destruct held as [pc |]; cbn [closes without].
  - unfold Hook.close. rewrite bind_act. flat. unfold Hook.act at 1. flat.
    rewrite !bind_act. flat. unfold Hook.act. flat.
    rewrite <- !app_assoc. reflexivity.
  - unfold Hook.ret at 1. rewrite !bind_act. flat. unfold Hook.act. flat.
    reflexivity.
Qed.

Lemma media_none pc stream :
  media_effects pc stream = [] ->
  exists s, stream = Some s /\ existsb Media.is_video (Media.getTracks s) = false.
Proof.
  destruct stream as [s |]; [| discriminate]. intros E. exists s. split; [reflexivity |].
  unfold media_effects, Media.getVideoTracks, Media.getTracks in *.
  induction (Media.tracks s) as [| t r IH]; [reflexivity |].
  cbn in *. destruct (Media.is_video t); [discriminate | exact (IH E)].
Qed.

Lemma media_some pc s :
  media_effects pc (Some s) <> [] ->
  existsb Media.is_video (Media.getTracks s) = true.
Proof.
  unfold media_effects, Media.getVideoTracks, Media.getTracks.
  induction (Media.tracks s) as [| t r IH]; [intros X; contradiction |].
  cbn. destruct (Media.is_video t); [reflexivity | exact IH].
Qed.

(** Media on a connection that is closed: the first call on it raises. *)
Lemma startMedia_closed pc url params stream w :
  W.is_open pc w = false ->
  media_effects pc stream <> [] ->
  Hook.startMedia pc url params stream w = (Throw DOMException, w).
Proof.
  intros C M. unfold Hook.startMedia, Hook.bind at 1.
  destruct stream as [s |].
  - rewrite addVideoTracks_closed by exact C.
    rewrite (media_some pc s M). reflexivity.
  - unfold Hook.addTransceiver, Hook.on_open. rewrite C. reflexivity.
Qed.

(** The relay answered with a stream, on a world spelled out whose
    connection [pc] is closed. *)
Lemma relayStarted_closed_value pc params stream response rs cs ic st held dc cur sid ap np opened chs hs lg :
  existsb (N.eqb pc) opened = false ->
  media_effects pc stream <> [] ->
  Hook.startStream_relayStarted pc params stream (Return response)
    {| remoteStream := rs; connectionState := cs; isConnecting := ic;
       isStreaming := st; peerConnectionRef := held; dataChannelRef := dc;
       currentStreamRef := cur; livepeerStreamIdRef := sid; api := ap;
       nextPc := np; openPcs := opened; channels := chs; handlers := hs;
       log := lg |}
  = (Return tt,
     {| remoteStream := rs; connectionState := cs; isConnecting := false;
        isStreaming := false; peerConnectionRef := None; dataChannelRef := dc;
        currentStreamRef := cur; livepeerStreamIdRef := None;
        api := Api.setLivepeerStreamId None
                 (Api.setLivepeerStreamId (Some (stream_id response)) ap);
        nextPc := np; openPcs := without held opened; channels := chs;
        handlers := hs;
        log := lg ++ [SetLivepeerStreamId (Some (stream_id response))]
                  ++ closes held ++ [SetLivepeerStreamId None] |}).
Proof.
  intros C M.
  unfold Hook.startStream_relayStarted, Hook.startStream_relayAnswer.
  unfold Hook.try_catch at 1. unfold Hook.bind at 1.
  unfold Hook.try_catch at 1. rewrite bind_act. flat.
  unfold Hook.setLivepeerStreamId. rewrite bind_act. flat.
  unfold Hook.ret at 1.
  rewrite startMedia_closed by (try exact M; unfold W.is_open; flat; exact C).
  rewrite startCatch_value. rewrite <- !app_assoc. reflexivity.
Qed.

(** The handler of a stop notice, on a world spelled out. *)
Lemma stop_notice_value options data rs cs ic st held dc cur sid ap np opened chs hs lg :
  stop_notice (Some data) = true ->
  Hook.onDataChannelMessage options (Some data)
    {| remoteStream := rs; connectionState := cs; isConnecting := ic;
       isStreaming := st; peerConnectionRef := held; dataChannelRef := dc;
       currentStreamRef := cur; livepeerStreamIdRef := sid; api := ap;
       nextPc := np; openPcs := opened; channels := chs; handlers := hs;
       log := lg |}
  = (Return tt,
     {| remoteStream := None; connectionState := cs; isConnecting := false;
        isStreaming := false; peerConnectionRef := None; dataChannelRef := dc;
        currentStreamRef := cur; livepeerStreamIdRef := None;
        api := Api.setLivepeerStreamId None ap;
        nextPc := np; openPcs := without held opened; channels := chs;
        handlers := hs;
        log := lg ++ notice_toast data ++ closes held
                  ++ [SetLivepeerStreamId None] ++ notice_callback options |}).
Proof.
  intros N. unfold stop_notice in N.
  unfold Hook.onDataChannelMessage, Hook.try_catch.
  destruct data as [| | b | x | s | xs | fields]; try discriminate.
  destruct (Js.get (JObject fields) js"type") as [| | b | x | type | xs | fs];
    try discriminate.
  rewrite N. cbn [Hook.when].
  rewrite !bind_act. flat.
  unfold notice_toast, notice_callback.
  destruct (Js.truthy (Js.get (JObject fields) js"error_message"));
    cbn [Hook.when].
  - rewrite bind_act. flat.
    unfold Hook.closePeerConnection, Hook.clearLivepeerStreamId,
           Hook.setLivepeerStreamId.
    unfold Hook.bind at 1. rewrite bind_read. flat.
    destruct held as [pc |]; cbn [closes without].
    + unfold Hook.close. rewrite bind_act. flat. unfold Hook.act at 1. flat.
      unfold Hook.bind at 1. rewrite bind_act. flat. unfold Hook.act at 1. flat.
      destruct (onStreamStop options); cbn [Hook.when];
        [unfold Hook.act | unfold Hook.ret]; flat;
        rewrite <- ?app_assoc; cbn [app]; rewrite ?app_nil_r; reflexivity.
    + unfold Hook.ret at 1.
      unfold Hook.bind at 1. rewrite bind_act. flat. unfold Hook.act at 1. flat.
      destruct (onStreamStop options); cbn [Hook.when];
        [unfold Hook.act | unfold Hook.ret]; flat;
        rewrite <- ?app_assoc; cbn [app]; rewrite ?app_nil_r; reflexivity.
  - unfold Hook.ret at 1.
    unfold Hook.closePeerConnection, Hook.clearLivepeerStreamId,
           Hook.setLivepeerStreamId.
    unfold Hook.bind at 1. unfold Hook.bind at 1. rewrite bind_read. flat.
    destruct held as [pc |]; cbn [closes without].
    + unfold Hook.close. rewrite bind_act. flat. unfold Hook.act at 1. flat.
      unfold Hook.bind at 1. rewrite bind_act. flat. unfold Hook.act at 1. flat.
      destruct (onStreamStop options); cbn [Hook.when];
        [unfold Hook.act | unfold Hook.ret]; flat;
        rewrite <- ?app_assoc; cbn [app]; rewrite ?app_nil_r; reflexivity.
    + unfold Hook.ret at 1.
      unfold Hook.bind at 1. rewrite bind_act. flat. unfold Hook.act at 1. flat.
      destruct (onStreamStop options); cbn [Hook.when];
        [unfold Hook.act | unfold Hook.ret]; flat;
        rewrite <- ?app_assoc; cbn [app]; rewrite ?app_nil_r; reflexivity.
Qed.

(** [stopStream], on a world spelled out. *)
Lemma stopStream_value rs cs ic st held dc cur sid ap np opened chs hs lg :
  Hook.stopStream
    {| remoteStream := rs; connectionState := cs; isConnecting := ic;
       isStreaming := st; peerConnectionRef := held; dataChannelRef := dc;
       currentStreamRef := cur; livepeerStreamIdRef := sid; api := ap;
       nextPc := np; openPcs := opened; channels := chs; handlers := hs;
       log := lg |}
  = (Return tt,
     {| remoteStream := None; connectionState := new; isConnecting := ic;
        isStreaming := false; peerConnectionRef := None; dataChannelRef := None;
        currentStreamRef := None; livepeerStreamIdRef := None;
        api := Api.setLivepeerStreamId None ap;
        nextPc := np; openPcs := without held opened; channels := chs;
        handlers := hs;
        log := lg ++ closes held ++ [SetLivepeerStreamId None] |}).
Proof.
  unfold Hook.stopStream, Hook.closePeerConnection, Hook.clearLivepeerStreamId,
         Hook.setLivepeerStreamId.
  unfold Hook.bind at 1. rewrite bind_read. flat.
  destruct held as [pc |]; cbn [closes without].
  - unfold Hook.close. rewrite bind_act. flat. unfold Hook.act at 1. flat.
    rewrite !bind_act. flat.
    unfold Hook.bind at 1. rewrite bind_act. flat. unfold Hook.act at 1. flat.
    rewrite !bind_act. flat. unfold Hook.act. flat.
    rewrite <- !app_assoc. reflexivity.
  - unfold Hook.ret at 1. rewrite !bind_act. flat.
    unfold Hook.bind at 1. rewrite bind_act. flat. unfold Hook.act at 1. flat.
    rewrite !bind_act. flat. unfold Hook.act. flat.
    reflexivity.
Qed.

Lemma owned_without w :
  owned w -> without (peerConnectionRef w) (openPcs w) = [].
Proof.
  intros O. destruct (peerConnectionRef w) as [pc |] eqn:R; cbn [without].
  - destruct O as [_ H]. rewrite R in H.
    induction (openPcs w) as [| p r IH]; [reflexivity |].
    cbn [filter].
    assert (E : p = pc).
    { specialize (H p (or_introl eq_refl)). congruence. }
    subst p. rewrite N.eqb_refl. cbn [negb].
    apply IH. intros q Hq. apply H. right. exact Hq.
  - apply owned_unreferenced; assumption.
Qed.

(** What an event that ends the session leaves open and refers to. *)
Lemma ends_session_value options e w :
  ends_session w e = true ->
  let w' := Hook.step options w e in
  openPcs w' = without (peerConnectionRef w) (openPcs w) /\
  (e <> Hook.Unmount ->
   peerConnectionRef w' = None /\
   livepeerStreamIdRef w' = None /\
   livepeerStreamId (api w') = None /\
   isStreaming w' = false).
Proof.
  intros E w'. subst w'.
  destruct w as [rs cs ic st held dc cur sid ap np opened chs hs lg].
  unfold Hook.step, Hook.exec.
  destruct e; cbn [ends_session Hook.handle] in E |- *; try discriminate.
  - (* the relay refused *)
    destruct outcome as [r | err]; [discriminate |].
    evaluate ltac:(
      unfold Hook.startStream_relayStarted, Hook.startStream_relayAnswer,
             Hook.clearLivepeerStreamId, Hook.setLivepeerStreamId;
      unfold Hook.try_catch at 1; unfold Hook.bind at 1;
      unfold Hook.try_catch at 1; unfold Hook.throw at 1;
      unfold Hook.bind at 1; rewrite bind_act; flat; unfold Hook.act at 1; flat;
      unfold Hook.throw at 1;
      rewrite startCatch_value).
    repeat split.
  - destruct resolved; [discriminate |].
    evaluate ltac:(
      unfold Hook.startStream_offerCreated, Hook.try_catch, Hook.throw;
      rewrite startCatch_value).
    repeat split.
  - destruct resolved; [discriminate |].
    evaluate ltac:(
      unfold Hook.startStream_localDescriptionSet, Hook.try_catch, Hook.throw;
      rewrite startCatch_value).
    repeat split.
  - apply andb_prop in E. destruct E as [E1 E2].
    cbn [channels] in E1.
    destruct parsed as [data |]; [| discriminate].
    evaluate ltac:(
      rewrite bind_read; flat; rewrite E1; cbn [Hook.when];
      rewrite (stop_notice_value options data rs cs ic st held dc cur sid ap np
                 opened chs hs lg E2)).
    repeat split.
  - rewrite stopStream_value. repeat split.
  - split; [| intros X; contradiction].
    destruct held as [pc |]; reflexivity.
Qed.

(** A parameter update when the hook has neither data channel nor relay
    id. *)
Lemma sendParameterUpdate_idle options params readyState w :
  dataChannelRef w = None ->
  livepeerStreamIdRef w = None ->
  Hook.sendParameterUpdate options params readyState w = (Return tt, w).
Proof.
  intros D L. unfold Hook.sendParameterUpdate.
  destruct (Nat.eqb _ 0); [reflexivity |].
  destruct (Hook.parameterTransport options); rewrite bind_read.
  - rewrite D. reflexivity.
  - rewrite L. reflexivity.
Qed.

(** A parameter update with the relay transport and no relay id. *)
Lemma sendParameterUpdate_unset options params readyState w :
  Hook.parameterTransport options = livepeer ->
  livepeerStreamIdRef w = None ->
  Hook.sendParameterUpdate options params readyState w = (Return tt, w).
Proof.
  intros T L. unfold Hook.sendParameterUpdate.
  match goal with |- context [if ?b then _ else _] => destruct b end;
    [reflexivity |].
  rewrite T, bind_read, L. reflexivity.
Qed.

(** The connection-state handler, on a world spelled out. *)
Lemma onConnectionStateChange_value options state rs cs ic st held dc cur sid ap np opened chs hs lg :
  Hook.onConnectionStateChange options state
    {| remoteStream := rs; connectionState := cs; isConnecting := ic;
       isStreaming := st; peerConnectionRef := held; dataChannelRef := dc;
       currentStreamRef := cur; livepeerStreamIdRef := sid; api := ap;
       nextPc := np; openPcs := opened; channels := chs; handlers := hs;
       log := lg |}
  = (Return tt,
     {| remoteStream := rs; connectionState := state;
        isConnecting := match state with
                        | new | connecting => ic
                        | _ => false
                        end;
        isStreaming := match state with
                       | new | connecting => st
                       | connected => true
                       | _ => false
                       end;
        peerConnectionRef := held; dataChannelRef := dc;
        currentStreamRef := cur;
        livepeerStreamIdRef := if drops_relay options state then None else sid;
        api := if drops_relay options state
               then Api.setLivepeerStreamId None ap else ap;
        nextPc := np; openPcs := opened; channels := chs; handlers := hs;
        log := lg ++ if drops_relay options state
                     then [SetLivepeerStreamId None] else [] |}).
Proof.
  unfold Hook.onConnectionStateChange, drops_relay.
  rewrite bind_act. flat.
  destruct state; cbn [lost andb];
    try (unfold Hook.ret; rewrite app_nil_r; reflexivity);
    rewrite ?bind_act; flat;
    try (unfold Hook.act; flat; rewrite app_nil_r; reflexivity);
    destruct (Hook.isLivepeerTransport options); cbn [Hook.when];
    unfold Hook.clearLivepeerStreamId, Hook.setLivepeerStreamId;
    rewrite ?bind_act; flat; unfold Hook.act, Hook.ret; flat;
    rewrite ?app_nil_r; reflexivity.
Qed.

Lemma dispatch_attached options pc state w :
  W.closure_of pc w <> None ->
  Hook.handle options (Hook.ConnectionStateChange pc state) w
  = Hook.onConnectionStateChange options state w.
Proof.
  intros A. cbn [Hook.handle]. unfold Hook.dispatch. rewrite bind_read.
  destruct (W.closure_of pc w); [reflexivity | contradiction].
Qed.

(** The end of ICE gathering on a connection whose handlers are the
    latest attached. *)
Lemma dispatch_latest options pc c candidate localDescription rs cs ic st held dc cur sid ap np opened chs hs lg :
  Hook.handle options (Hook.IceCandidate pc candidate localDescription)
    {| remoteStream := rs; connectionState := cs; isConnecting := ic;
       isStreaming := st; peerConnectionRef := held; dataChannelRef := dc;
       currentStreamRef := cur; livepeerStreamIdRef := sid; api := ap;
       nextPc := np; openPcs := opened; channels := chs;
       handlers := (pc, c) :: hs; log := lg |}
  = Hook.onIceCandidate options c candidate localDescription
      {| remoteStream := rs; connectionState := cs; isConnecting := ic;
         isStreaming := st; peerConnectionRef := held; dataChannelRef := dc;
         currentStreamRef := cur; livepeerStreamIdRef := sid; api := ap;
         nextPc := np; openPcs := opened; channels := chs;
         handlers := (pc, c) :: hs; log := lg |}.
Proof.
  cbn [Hook.handle]. unfold Hook.dispatch. rewrite bind_read.
  unfold W.closure_of. cbn [handlers find fst]. rewrite N.eqb_refl. reflexivity.
Qed.

Lemma run_cons options e es w :
  Hook.run options (e :: es) w = Hook.run options es (Hook.step options w e).
Proof. reflexivity. Qed.

Lemma step_offerCreated options pc w :
  Hook.step options w (Hook.OfferCreated pc true)
  = W.emit (SetLocalDescription pc) w.
Proof. reflexivity. Qed.

Lemma step_localDescriptionSet options w :
  Hook.step options w (Hook.LocalDescriptionSet true) = w.
Proof. reflexivity. Qed.

Lemma step_offerAnswered options pc answer w :
  Hook.step options w (Hook.OfferAnswered pc (Return answer))
  = W.emit (SetRemoteDescription pc answer) w.
Proof. reflexivity. Qed.

Lemma step_remoteDescriptionSet options w :
  Hook.step options w (Hook.RemoteDescriptionSet true) = w.
Proof. reflexivity. Qed.

(* ================================================================== *)
(** ** The WHEP answer and the filter of parameter updates *)

Lemma or_first a b c :
  (if Js.truthy (Js.or (Js.or a b) c)
   then Some (Js.or (Js.or a b) c) else None)
  = find Js.truthy [a; b; c].
Proof.
  unfold Js.or. cbn [find].
  destruct (Js.truthy a) eqn:A; cbv iota; rewrite ?A; [reflexivity |].
  destruct (Js.truthy b) eqn:B; cbv iota; rewrite ?B; [reflexivity |].
  destruct (Js.truthy c) eqn:C; reflexivity.
Qed.

(** The settlement of the WHEP request, in terms of the SDP accepted. *)
Lemma whepAnswered_value pc o w :
  Hook.onIceCandidate_whepAnswered pc o w
  = (Return tt,
     match accepted_sdp o with
     | Some answerSdp =>
         W.emit (SetRemoteDescription pc
                   (JObject [ (js"type", JString js"answer");
                              (js"sdp", answerSdp) ])) w
     | None => W.setIsConnecting false w
     end).
Proof.
  unfold Hook.onIceCandidate_whepAnswered, Hook.try_catch, accepted_sdp.
  destruct o as [r |]; [| reflexivity].
  destruct (ok r); cbn [negb]; [| reflexivity].
  unfold sdp_candidates, Hook.bind.
  match goal with
  | |- context [JsString.includes ?a ?b] => destruct (JsString.includes a b)
  end.
  - destruct (json r) as [j |]; [| reflexivity].
    rewrite <- or_first.
    destruct j; cbn [Js.get Js.or Js.truthy Hook.throw Hook.ret negb find];
      try reflexivity.
    destruct (Js.truthy (Js.or (Js.or _ _) _)); reflexivity.
  - cbn [Hook.ret find].
    destruct (Js.truthy (JString (text r))); reflexivity.
Qed.

Lemma set_keys k v fields :
  Js.keys (Js.set k v fields)
  = if existsb (JsString.eqb k) (Js.keys fields) then Js.keys fields
    else if JsString.eqb k js"__proto__" then Js.keys fields
    else Js.keys fields ++ [k].
Proof.
  induction fields as [| [k' v'] r IH].
  - cbn [Js.set Js.keys map existsb].
    destruct (JsString.eqb k js"__proto__"); reflexivity.
  - cbn [Js.set Js.keys map fst existsb].
    destruct (JsString.eqb k k') eqn:E; cbn [orb Js.keys map fst].
    + apply eqb_eq in E. subst k'. reflexivity.
    + fold (Js.keys r). fold (Js.keys (Js.set k v r)). rewrite IH.
      destruct (existsb (JsString.eqb k) (Js.keys r)); [reflexivity |].
      destruct (JsString.eqb k js"__proto__"); reflexivity.
Qed.

Lemma existsb_eqb k ks : existsb (JsString.eqb k) ks = false -> ~ In k ks.
Proof.
  intros E H. assert (X : existsb (JsString.eqb k) ks = true).
  { apply existsb_exists. exists k. split; [exact H |].
    unfold JsString.eqb. destruct (list_eq_dec N.eq_dec k k); [reflexivity | contradiction]. }
  congruence.
Qed.

Lemma set_nodup k v fields :
  NoDup (Js.keys fields) -> NoDup (Js.keys (Js.set k v fields)).
Proof.
  intros ND. rewrite set_keys.
  destruct (existsb (JsString.eqb k) (Js.keys fields)) eqn:E; [exact ND |].
  destruct (JsString.eqb k js"__proto__"); [exact ND |].
  apply NoDup_app; [exact ND | repeat constructor; intros [] |].
  intros x Hx [<- | []]. exact (existsb_eqb k (Js.keys fields) E Hx).
Qed.

Lemma set_present k v fields :
  present (k, v) = true ->
  forallb present fields = true -> forallb present (Js.set k v fields) = true.
Proof.
  intros P. induction fields as [| [k' v'] r IH]; cbn [Js.set forallb].
  - intros _. destruct (JsString.eqb k js"__proto__"); cbn [forallb];
      [| rewrite P]; reflexivity.
  - intros H. apply andb_prop in H. destruct H as [H1 H2].
    destruct (JsString.eqb k k'); cbn [forallb].
    + rewrite P, H2. reflexivity.
    + rewrite H1, (IH H2). reflexivity.
Qed.

Lemma set_known k v fields x :
  In x (Js.keys (Js.set k v fields)) -> x = k \/ In x (Js.keys fields).
Proof.
  rewrite set_keys.
  destruct (existsb (JsString.eqb k) (Js.keys fields)); [tauto |].
  destruct (JsString.eqb k js"__proto__"); [tauto |].
  intros H. apply in_app_or in H. destruct H as [H | [<- | []]]; tauto.
Qed.

(** No assignment gives an object a field named [__proto__]. *)
Lemma set_no_proto k v fields :
  ~ In js"__proto__" (Js.keys fields) ->
  ~ In js"__proto__" (Js.keys (Js.set k v fields)).
Proof.
  intros NP. rewrite set_keys.
  destruct (existsb (JsString.eqb k) (Js.keys fields)); [exact NP |].
  destruct (JsString.eqb k js"__proto__") eqn:E; [exact NP |].
  intros H. apply in_app_or in H. destruct H as [H | [X | []]]; [exact (NP H) |].
  subst k. rewrite eqb_refl in E. discriminate.
Qed.

Lemma filter_loop_normal params :
  forall kept,
    NoDup (Js.keys kept) -> forallb present kept = true ->
    ~ In js"__proto__" (Js.keys kept) ->
    let result :=
      fold_left
        (fun filteredParams entry =>
           if negb (Js.nullish (snd entry))
           then Js.set (fst entry) (snd entry) filteredParams
           else filteredParams)
        params kept in
    NoDup (Js.keys result) /\ forallb present result = true /\
    ~ In js"__proto__" (Js.keys result) /\
    forall k, In k (Js.keys result) -> In k (Js.keys kept) \/ In k (Js.keys params).
Proof.
  induction params as [| [k v] r IH]; intros kept ND P NP; cbn [fold_left fst snd].
  - repeat split; try assumption. intros k H. left. exact H.
  - destruct (negb (Js.nullish v)) eqn:V.
    + destruct (IH (Js.set k v kept) (set_nodup k v kept ND)
                  (set_present k v kept V P) (set_no_proto k v kept NP))
        as (A & B & C & D).
      repeat split; try assumption.
      intros x Hx. destruct (D x Hx) as [H | H].
      * destruct (set_known k v kept x H) as [-> | H'];
          [right; left; reflexivity | left; exact H'].
      * right. right. exact H.
    + destruct (IH kept ND P NP) as (A & B & C & D).
      repeat split; try assumption.
      intros x Hx. destruct (D x Hx) as [H | H]; [left | right; right]; exact H.
Qed.

Lemma filter_all_survive fields :
  forallb present fields = true ->
  ~ In js"__proto__" (Js.keys fields) ->
  filter survives fields = fields.
Proof.
  induction fields as [| [k v] r IH]; [reflexivity |].
  cbn [forallb filter]. intros H NP. apply andb_prop in H. destruct H as [H1 H2].
  unfold survives at 1. rewrite H1. cbn [fst andb].
  rewrite eqb_false.
  - cbn [negb]. rewrite IH; [reflexivity | exact H2 |].
    intros X. apply NP. right. exact X.
  - intros E. apply NP. left. exact E.
Qed.

(* ================================================================== *)
(** ** A session from start to [connected] *)

(** The session of a start with the data-channel transport up to
    [connected], on a world spelled out. *)
Lemma direct_session_value options params stream d answer rs cs st dc cur sid ap np opened chs hs lg :
  Hook.parameterTransport options = webrtc ->
  Hook.run options
    [ Hook.StartStream params stream;
      Hook.OfferCreated np true;
      Hook.LocalDescriptionSet true;
      Hook.IceCandidate np false (Some d);
      Hook.OfferAnswered np (Return answer);
      Hook.RemoteDescriptionSet true;
      Hook.ConnectionStateChange np connected ]
    {| remoteStream := rs; connectionState := cs; isConnecting := false;
       isStreaming := st; peerConnectionRef := None; dataChannelRef := dc;
       currentStreamRef := cur; livepeerStreamIdRef := sid; api := ap;
       nextPc := np; openPcs := opened; channels := chs; handlers := hs;
       log := lg |}
  = {| remoteStream := rs; connectionState := connected; isConnecting := false;
       isStreaming := true; peerConnectionRef := Some np;
       dataChannelRef := Some np;
       currentStreamRef := stream; livepeerStreamIdRef := None;
       api := Api.initial;
       nextPc := np + 1; openPcs := np :: opened; channels := np :: chs;
       handlers := (np, {| whepUrl := None; initialParameters := params |}) :: hs;
       log := lg ++ [SetLivepeerStreamId None; NewPeerConnection np;
                     CreateDataChannel np]
                 ++ media_effects np stream
                 ++ [ AttachHandlers np; CreateOffer np; SetLocalDescription np;
                      Fetch (json_request POST js"/api/v1/webrtc/offer"
                               (Json (JObject
                                        [ (js"sdp", JString (sdp d));
                                          (js"type", JString (type_ d));
                                          (js"initialParameters", params) ])));
                      SetRemoteDescription np answer ] |}.
Proof.
  intros T.
  rewrite run_cons. unfold Hook.step at 1, Hook.exec. cbn [Hook.handle].
  rewrite (startStream_direct_value options params stream rs cs st dc cur sid ap
             np opened chs hs lg T).
  cbn [snd].
  rewrite run_cons, step_offerCreated. flat.
  rewrite run_cons, step_localDescriptionSet.
  rewrite run_cons. unfold Hook.step at 1, Hook.exec.
  rewrite dispatch_latest.
  unfold Hook.onIceCandidate, Hook.isLivepeerTransport. rewrite T.
  unfold Hook.try_catch, Hook.call, Api.sendWebRTCOffer,
         Api.withLivepeerRoute, Api.setLivepeerStreamId.
  flat. cbn [Api.livepeerStreamId initialParameters snd].
  rewrite run_cons, step_offerAnswered. flat.
  rewrite run_cons, step_remoteDescriptionSet.
  rewrite run_cons. unfold Hook.step at 1, Hook.exec.
  rewrite dispatch_attached
    by (unfold W.closure_of; cbn [handlers find fst]; rewrite N.eqb_refl;
        discriminate).
  rewrite onConnectionStateChange_value. cbn [snd].
  unfold drops_relay. cbn [lost andb Hook.run fold_left].
  rewrite app_nil_r, <- !app_assoc. reflexivity.
Qed.

(** The session of a start with the relay transport up to [connected],
    on a world spelled out. *)
Lemma relay_session_value options params stream response d o answerSdp rs cs st dc cur sid ap np opened chs hs lg :
  Hook.parameterTransport options = livepeer ->
  JsString.truthy (whep_url response) = true ->
  JsString.truthy (sdp d) = true ->
  accepted_sdp o = Some answerSdp ->
  Hook.run options
    [ Hook.StartStream params stream;
      Hook.RelayStarted np params stream (Return response);
      Hook.OfferCreated np true;
      Hook.LocalDescriptionSet true;
      Hook.IceCandidate np false (Some d);
      Hook.WhepAnswered np o;
      Hook.RemoteDescriptionSet true;
      Hook.ConnectionStateChange np connected ]
    {| remoteStream := rs; connectionState := cs; isConnecting := false;
       isStreaming := st; peerConnectionRef := None; dataChannelRef := dc;
       currentStreamRef := cur; livepeerStreamIdRef := sid; api := ap;
       nextPc := np; openPcs := opened; channels := chs; handlers := hs;
       log := lg |}
  = {| remoteStream := rs; connectionState := connected; isConnecting := false;
       isStreaming := true; peerConnectionRef := Some np;
       dataChannelRef := None;
       currentStreamRef := stream;
       livepeerStreamIdRef := Some (stream_id response);
       api := {| Api.livepeerStreamId := Some (stream_id response) |};
       nextPc := np + 1; openPcs := np :: opened; channels := chs;
       handlers := (np, {| whepUrl := Some (whep_url response);
                           initialParameters := params |}) :: hs;
       log := lg ++ [ NewPeerConnection np;
                      Fetch (json_request POST js"/ai/stream/start"
                               (Json (JObject [(js"initialParameters", params)])));
                      SetLivepeerStreamId (Some (stream_id response)) ]
                 ++ media_effects np stream
                 ++ [ AttachHandlers np; CreateOffer np; SetLocalDescription np;
                      Fetch {| url := whep_url response; method := POST;
                               contentType := js"application/sdp";
                               body := Raw (sdp d) |};
                      SetRemoteDescription np
                        (JObject [ (js"type", JString js"answer");
                                   (js"sdp", answerSdp) ]) ] |}.
Proof.
  intros T U D A.
  rewrite run_cons. unfold Hook.step at 1, Hook.exec. cbn [Hook.handle].
  rewrite (startStream_relay_value options params stream rs cs st dc cur sid ap
             np opened chs hs lg T).
  cbn [snd].
  rewrite run_cons. unfold Hook.step at 1, Hook.exec. cbn [Hook.handle].
  rewrite relayStarted_open_value
    by (cbn [existsb]; rewrite N.eqb_refl; reflexivity).
  cbn [snd].
  rewrite run_cons, step_offerCreated. flat.
  rewrite run_cons, step_localDescriptionSet.
  rewrite run_cons. unfold Hook.step at 1, Hook.exec.
  rewrite dispatch_latest.
  unfold Hook.onIceCandidate, Hook.isLivepeerTransport. rewrite T.
  cbn [whepUrl]. rewrite U, D.
  unfold Hook.try_catch, Hook.act. flat. cbn [snd].
  rewrite run_cons. unfold Hook.step at 1, Hook.exec. cbn [Hook.handle].
  rewrite whepAnswered_value, A. flat. cbn [snd].
  rewrite run_cons, step_remoteDescriptionSet.
  rewrite run_cons. unfold Hook.step at 1, Hook.exec.
  rewrite dispatch_attached
    by (unfold W.closure_of; cbn [handlers find fst]; rewrite N.eqb_refl;
        discriminate).
  rewrite onConnectionStateChange_value. cbn [snd].
  unfold drops_relay. cbn [lost andb Hook.run fold_left].
  unfold Api.setLivepeerStreamId.
  rewrite app_nil_r, <- !app_assoc. reflexivity.
Qed.

(* ================================================================== *)
(** * Further properties *)

(* ================================================================== *)
(** ** The relay path as a function of the stream id *)

(** X1.  Two different stream ids never share a relay path: when
    [forwardLivepeerRequest] sends a request for each of two different
    ids, the two requests go to different URLs. *)
Theorem forwardLivepeerRequest_separates_ids :
  forall (id1 id2 route1 route2 : jsstring) (payload1 payload2 : JSValue)
         (req1 req2 : Request) (settle1 settle2 : Settled -> Completion JSValue),
    sixteen_bit id1 = true ->
    sixteen_bit id2 = true ->
    id1 <> id2 ->
    forwardLivepeerRequest id1 route1 payload1 = Sent req1 settle1 ->
    forwardLivepeerRequest id2 route2 payload2 = Sent req2 settle2 ->
    url req1 <> url req2.
Proof.
  intros id1 id2 route1 route2 payload1 payload2 req1 req2 settle1 settle2
         B1 B2 D F1 F2 E.
  unfold forwardLivepeerRequest in F1, F2.
  destruct (Uri.encodeURIComponent id1) as [e1 |] eqn:E1; [| discriminate].
  destruct (Uri.encodeURIComponent id2) as [e2 |] eqn:E2; [| discriminate].
  injection F1 as <- _. injection F2 as <- _.
  change (js"/ai/stream/" ++ e1 ++ js"/update"
          = js"/ai/stream/" ++ e2 ++ js"/update") in E.
  apply app_inv_head in E. apply app_inv_tail in E. subst e2.
  apply D.
  rewrite <- (decode_encode id1 B1 E1), <- (decode_encode id2 B2 E2).
  reflexivity.
Qed.

(** X1 at the ids [a/b] and [a%2Fb]: the first is sent as [a%2Fb], the
    second as [a%252Fb]. *)
Lemma forwardLivepeerRequest_separates_ids_witness :
  url (relay_request js"a%2Fb" js"/r" JNull)
  <> url (relay_request js"a%252Fb" js"/r" JNull).
Proof.
  apply (@forwardLivepeerRequest_separates_ids
           js"a/b" js"a%2Fb" js"/r" js"/r" JNull JNull _ _
           forward_settle forward_settle);
    try reflexivity.
  discriminate.
Defined.

(** X2.  A stream id is sent verbatim, to [/ai/stream/<id>/update],
    exactly when it consists of letters, digits and the marks
    [- _ . ! ~ * ' ( )]; every other id that is sent is sent longer than
    it is. *)
Theorem forwardLivepeerRequest_verbatim :
  forall (streamId route : jsstring) (payload : JSValue),
    (forallb Uri.unescaped streamId = true <->
     requests (forwardLivepeerRequest streamId route payload)
     = [relay_request streamId route payload]) /\
    (forall component,
        requests (forwardLivepeerRequest streamId route payload)
        = [relay_request component route payload] ->
        (List.length streamId <= List.length component)%nat /\
        (forallb Uri.unescaped streamId = false ->
         (List.length streamId < List.length component)%nat)).
Proof.
  intros streamId route payload.
  assert (Inv : forall component,
             requests (forwardLivepeerRequest streamId route payload)
             = [relay_request component route payload] ->
             Uri.encodeURIComponent streamId = Some component).
  { intros component H. unfold forwardLivepeerRequest in H.
    destruct (Uri.encodeURIComponent streamId) as [e |]; [| discriminate].
    cbn [requests] in H. apply (f_equal (map url)) in H.
    change ([js"/ai/stream/" ++ e ++ js"/update"]
            = [js"/ai/stream/" ++ component ++ js"/update"]) in H.
    injection H as H. apply app_inv_tail in H. congruence. }
  split.
  - split.
    + intros U. apply encode_same in U.
      unfold forwardLivepeerRequest. rewrite U. reflexivity.
    + intros H. apply encode_same. apply Inv. exact H.
  - intros component H. apply Inv in H.
    destruct (encode_grows streamId H) as [A _]. split; [exact A |].
    intros U.
    destruct (Nat.eq_dec (List.length streamId) (List.length component)) as [E |];
      [| lia].
    exfalso.
    (* equal length forces every character to be kept *)
    revert component H A E. clear Inv.
    induction streamId as [| c r IH1 IH2] using UriFacts.two_step_ind;
      intros component H A E; [discriminate |].
    cbn [forallb] in U.
    destruct (Uri.unescaped c) eqn:Uc.
    + cbn [Uri.encodeURIComponent] in H. rewrite Uc in H.
      destruct (Uri.encodeURIComponent r) as [e' |] eqn:Er; [| discriminate].
      injection H as <-. cbn [List.length] in *.
      destruct (encode_grows r Er) as [Ar _].
      apply (IH1 U e' eq_refl Ar). lia.
    + destruct (encode_grows (c :: r) H) as [_ S]. specialize (S Uc). lia.
Qed.

(** X3.  The URL [forwardLivepeerRequest] sends to is at most eighteen
    characters plus nine per code unit of the stream id. *)
Theorem forwardLivepeerRequest_url_length :
  forall (streamId route : jsstring) (payload : JSValue) (req : Request)
         (settle : Settled -> Completion JSValue),
    sixteen_bit streamId = true ->
    forwardLivepeerRequest streamId route payload = Sent req settle ->
    (18 + List.length streamId <= List.length (url req)
     <= 18 + 9 * List.length streamId)%nat.
Proof.
  intros streamId route payload req settle B F.
  unfold forwardLivepeerRequest in F.
  destruct (Uri.encodeURIComponent streamId) as [e |] eqn:E; [| discriminate].
  assert (U0 : url req = js"/ai/stream/" ++ e ++ js"/update")
    by (injection F as <- _; reflexivity).
  rewrite U0, !length_app.
  change (List.length js"/ai/stream/") with 11%nat.
  change (List.length js"/update") with 7%nat.
  pose proof (encode_bounded streamId B E) as U.
  destruct (encode_grows streamId E) as [L _]. lia.
Qed.

Lemma forwardLivepeerRequest_url_length_witness :
  (18 + 3 <= List.length (url (relay_request js"a%2Fb" js"/r" JNull))
   <= 18 + 9 * 3)%nat.
Proof.
  apply (@forwardLivepeerRequest_url_length js"a/b" js"/r" JNull _ forward_settle);
    reflexivity.
Defined.

(* ================================================================== *)
(** ** Calls that are not routed *)

(** X4.  While no relay stream id is set, [null] or the empty string,
    every indirection-eligible call leaves the module variable alone and
    issues exactly one request, the one to its own backend endpoint under
    [/api/v1/], with kind [application/json].  A GET has no body; a POST
    has a JSON body, except [sendWebRTCOffer(undefined)] and
    [updatePipelineParameters(undefined)], whose POST has none, as
    [JSON.stringify(undefined)] is [undefined].  A 2xx answer is returned
    parsed, or raises [SyntaxError] when it is not JSON; a failed [fetch]
    raises its failure. *)
Theorem direct_routing :
  forall (c : Eligible) (m : Module_) (net : Request -> Settled),
    relay_set m = false ->
    exists backend,
      backend_request c = Some backend /\
      fst (invoke c m) = m /\
      fst (perform net (snd (invoke c m))) = [backend] /\
      JsString.starts_with js"/api/v1/" (url backend) = true /\
      contentType backend = js"application/json" /\
      (method backend = GET -> body backend = NoBody) /\
      (method backend = POST ->
       (body backend = NoBody <->
        c = SendWebRTCOffer JUndefined \/ c = UpdatePipelineParameters JUndefined)) /\
      (forall s, body backend <> Raw s) /\
      (net backend = Unreachable ->
       snd (perform net (snd (invoke c m))) = Throw TypeError) /\
      (forall r, net backend = Responded r -> ok r = true ->
         snd (perform net (snd (invoke c m)))
         = match json r with
           | Some v => Return v
           | None => Throw SyntaxError
           end).
Proof.
  intros c m net R.
  pose proof (backend_body c) as BB.
  destruct c; eexists; (split; [reflexivity |]);
    specialize (BB _ eq_refl); destruct BB as (B1 & B2 & B3);
    cbn [invoke];
    unfold sendWebRTCOffer, loadPipeline, getPipelineStatus, checkModelStatus,
           downloadPipelineModels, updatePipelineParameters, getHardwareInfo;
    rewrite (@withLivepeerRoute_unset _ _ _ _ R);
    cbn [fst snd perform];
    (split; [reflexivity |]); (split; [reflexivity |]);
    (split; [reflexivity |]); (split; [reflexivity |]);
    (split; [exact B1 |]); (split; [exact B2 |]); (split; [exact B3 |]);
    (split; [intros ->; reflexivity |]);
    intros r -> K; unfold settle_json; rewrite K; reflexivity.
Qed.

(** X4 with the relay stream id set to the empty string. *)
Lemma direct_routing_witness :
  fst (perform (Sample.always Sample.empty_object)
               (snd (invoke (CheckModelStatus js"longlive") (Sample.relayed []))))
  = [json_request GET js"/api/v1/models/status?pipeline_id=longlive" NoBody].
Proof.
  destruct (direct_routing (CheckModelStatus js"longlive") (Sample.relayed [])
              (Sample.always Sample.empty_object) eq_refl)
    as [backend [B [_ [H _]]]].
  injection B as <-. exact H.
Defined.

(* ================================================================== *)
(** ** The session hook over its runs *)

(** X5.  The hook writes its two copies of the relay stream id together:
    after any step of the hook itself, either the ref and the module's id
    are both as they were, or the two are equal.  So in a run in which
    nothing outside the hook instance calls the module's setter, and which
    starts with the two equal, they are equal throughout.  A call of the
    setter from outside changes the module's id and leaves the ref, so
    after it the two may differ. *)
Theorem relay_ids_written_together :
  forall options : UseWebRTCOptions,
    (forall e w,
        outside e = false ->
        let w' := Hook.step options w e in
        (livepeerStreamIdRef w' = livepeerStreamIdRef w /\ api w' = api w) \/
        livepeerStreamIdRef w' = livepeerStreamId (api w')) /\
    (forall events w,
        existsb outside events = false ->
        livepeerStreamIdRef w = livepeerStreamId (api w) ->
        let w' := Hook.run options events w in
        livepeerStreamIdRef w' = livepeerStreamId (api w')) /\
    (forall id w,
        let w' := Hook.step options w (Hook.SetElsewhere id) in
        livepeerStreamIdRef w' = livepeerStreamIdRef w /\
        livepeerStreamId (api w') = id).
Proof.
  intros options. split; [| split].
  - intros e w O. exact (syncs_handle options e O w).
  - intros events w O C. exact (@run_coherent options events O w C).
  - intros id w. split; reflexivity.
Qed.

(** X5 at a connected relay session, and at a hook that is mounted while
    the module still has the id of an earlier session. *)
Lemma relay_ids_written_together_witness :
  let w := Hook.run Sample.relay relay_session initial_world in
  let later := Hook.step Sample.relay initial_world
                 (Hook.SetElsewhere (Some js"abc")) in
  livepeerStreamIdRef w = livepeerStreamId (api w) /\
  livepeerStreamIdRef later = None /\
  livepeerStreamId (api later) = Some js"abc".
Proof.
  destruct (relay_ids_written_together Sample.relay) as (_ & A & B).
  cbv zeta. split; [| split].
  - exact (A relay_session initial_world eq_refl eq_refl).
  - exact (proj1 (B (Some js"abc") initial_world)).
  - exact (proj2 (B (Some js"abc") initial_world)).
Defined.

(** X6.  With the relay transport, in a run in which nothing outside the
    hook instance writes the module's relay id, a parameter update is
    never sent to the backend: the call adds at most one effect, and that
    effect is the POST to the update path of the relay stream whose id the
    hook holds, with the envelope of [/api/v1/pipeline/update] and of the
    filtered update.  The premise is needed: in any state in which the hook
    holds an id but the module's id is not set, the same update goes to
    the backend's [/api/v1/pipeline/update]. *)
Theorem relay_updates_stay_on_relay :
  forall (options : UseWebRTCOptions)
         (params : list (jsstring * JSValue)) (readyState : RTCDataChannelState),
    Hook.parameterTransport options = livepeer ->
    (forall events,
        existsb outside events = false ->
        let w := Hook.run options events initial_world in
        let w' := Hook.exec (Hook.sendParameterUpdate options params readyState) w in
        exists l,
          log w' = log w ++ l /\
          (List.length l <= 1)%nat /\
          forall e, In e l ->
            exists id component,
              livepeerStreamIdRef w = Some id /\
              Uri.encodeURIComponent id = Some component /\
              e = Fetch (relay_request component js"/api/v1/pipeline/update"
                           (JObject (Hook.filterParams params)))) /\
    (forall w,
        Hook.truthy_ref (livepeerStreamIdRef w) = true ->
        relay_set (api w) = false ->
        Hook.filterParams params <> [] ->
        let w' := Hook.exec (Hook.sendParameterUpdate options params readyState) w in
        log w' = log w
                 ++ [Fetch (json_request POST js"/api/v1/pipeline/update"
                              (Json (JObject (Hook.filterParams params))))]).
Proof.
  intros options params readyState T. split.
  - intros events O w w'.
    assert (C : livepeerStreamIdRef w = livepeerStreamId (api w))
      by exact (@run_coherent options events O initial_world eq_refl).
    subst w'. generalize dependent w. intros w C.
    assert (Nothing : exists l : list Effect,
               log w = log w ++ l /\ (List.length l <= 1)%nat /\
               forall e, In e l ->
                 exists id component,
                   livepeerStreamIdRef w = Some id /\
                   Uri.encodeURIComponent id = Some component /\
                   e = Fetch (relay_request component js"/api/v1/pipeline/update"
                                (JObject (Hook.filterParams params)))).
    { exists []. rewrite app_nil_r. repeat split; [cbn; lia | intros e []]. }
    unfold Hook.exec, Hook.sendParameterUpdate. rewrite T.
    destruct (Nat.eqb _ 0); [exact Nothing |].
    unfold Hook.bind, Hook.read.
    destruct (livepeerStreamIdRef w) as [id |] eqn:Ref; cbn [Hook.truthy_ref negb];
      [| exact Nothing].
    destruct (JsString.truthy id) eqn:Tid; cbn [negb]; [| exact Nothing].
    unfold Hook.try_catch, Hook.call, updatePipelineParameters.
    rewrite (@withLivepeerRoute_set _ _ _ _ _ (eq_sym C) Tid).
    unfold forwardLivepeerRequest. cbn [Js.coalesce].
    destruct (Uri.encodeURIComponent id) as [component |] eqn:E.
    + eexists [_]. cbn. split; [reflexivity |]. split; [lia |].
      intros e [<- | []]. exists id, component. repeat split. exact E.
    + cbv beta iota. rewrite setApi_same. exact Nothing.
  - intros w R M K w'. subst w'.
    unfold Hook.exec, Hook.sendParameterUpdate. rewrite T.
    destruct (Hook.filterParams params) as [| first rest] eqn:F;
      [contradiction |].
    cbn [Js.keys map List.length Nat.eqb].
    unfold Hook.bind, Hook.read. rewrite R. cbn [negb].
    unfold Hook.try_catch, Hook.call, updatePipelineParameters.
    rewrite (@withLivepeerRoute_unset _ _ _ _ M).
    reflexivity.
Qed.

(** X6 at a connected relay session, and at the same session after the
    module's id was cleared from outside. *)
Lemma relay_updates_stay_on_relay_witness :
  let w := Hook.run Sample.relay relay_session initial_world in
  let w' := Hook.exec (Hook.sendParameterUpdate Sample.relay sample_update dc_closed) w in
  let v := Hook.step Sample.relay w (Hook.SetElsewhere None) in
  let v' := Hook.exec (Hook.sendParameterUpdate Sample.relay sample_update dc_closed) v in
  (exists l, log w' = log w ++ l /\ (List.length l <= 1)%nat) /\
  log v' = log v
           ++ [Fetch (json_request POST js"/api/v1/pipeline/update"
                        (Json (JObject (Hook.filterParams sample_update))))].
Proof.
  destruct (relay_updates_stay_on_relay Sample.relay sample_update dc_closed
              eq_refl) as [A B].
  cbv zeta. split.
  - destruct (A relay_session eq_refl) as [l [H1 [H2 _]]].
    exists l. split; assumption.
  - apply B; [reflexivity | reflexivity | discriminate].
Defined.

(** X7.  The two transports keep apart over every run of the hook: with
    the relay transport no data channel is ever created and nothing is
    ever sent on one; with the data-channel transport no request ever goes
    to the relay's [/ai/stream/start]. *)
Theorem transports_keep_apart :
  forall (options : UseWebRTCOptions) (events : list Hook.Event),
    let w := Hook.run options events initial_world in
    match Hook.parameterTransport options with
    | livepeer => Forall channel_free (log w)
    | webrtc => Forall no_relay_start (log w)
    end.
Proof.
  intros options events w. subst w.
  destruct (Hook.parameterTransport options) eqn:T.
  - destruct (run_logs (P:=no_relay_start) options
                (fun e => direct_no_relay_start options e T) events initial_world)
      as [l [E F]].
    rewrite E. exact F.
  - destruct (run_logs (P:=channel_free) options
                (fun e => relay_channel_free options e T) events initial_world)
      as [l [E F]].
    rewrite E. exact F.
Qed.

(** X8.  No step of the offer/answer exchange tears the session down: the
    end of ICE gathering and the settlements of the WHEP request, of the
    offer and of [setRemoteDescription], whatever they bring, leave the
    connection, its refs, both relay ids and the streaming flag as they
    are; they only add to the log and may set connecting to false. *)
Theorem exchange_keeps_session :
  forall (options : UseWebRTCOptions) (e : Hook.Event) (w : World),
    exchange e = true ->
    let w' := Hook.step options w e in
    peerConnectionRef w' = peerConnectionRef w /\
    openPcs w' = openPcs w /\
    dataChannelRef w' = dataChannelRef w /\
    currentStreamRef w' = currentStreamRef w /\
    livepeerStreamIdRef w' = livepeerStreamIdRef w /\
    api w' = api w /\
    remoteStream w' = remoteStream w /\
    connectionState w' = connectionState w /\
    isStreaming w' = isStreaming w /\
    (isConnecting w' = isConnecting w \/ isConnecting w' = false) /\
    exists l, log w' = log w ++ l /\ Forall exchange_effect l.
Proof.
  intros options e w X w'. subst w'.
  pose proof (exchange_negotiates options e X w) as N.
  pose proof (exchange_logs options e X w) as L.
  unfold Hook.step, Hook.exec.
  destruct N as [A1 [A2 [A3 [A4 [A5 [A6 [A7 [A8 [A9 [A10 [A11 [A12 [A13 _]]]]]]]]]]]]].
  repeat split; assumption.
Qed.

(** X8 at a WHEP answer that is an error. *)
Lemma exchange_keeps_session_witness :
  let w := Hook.run Sample.relay
             [ Hook.StartStream JUndefined None;
               Hook.RelayStarted 0 JUndefined None (Return Sample.started);
               Hook.OfferCreated 0 true;
               Hook.LocalDescriptionSet true;
               Hook.IceCandidate 0 false (Some Sample.offer) ]
             initial_world in
  let w' := Hook.step Sample.relay w
              (Hook.WhepAnswered 0 (Responded Sample.server_error)) in
  openPcs w = [0] /\ openPcs w' = openPcs w /\ isConnecting w' = false.
Proof.
  split; [reflexivity |].
  split; [| reflexivity].
  apply (exchange_keeps_session Sample.relay
           (Hook.WhepAnswered 0 (Responded Sample.server_error)) _ eq_refl).
Defined.

(* ================================================================== *)
(** ** Starting a session *)

(** X9.  A start with the data-channel transport that gets past its guard
    never fails before its first [await].  It clears a stale relay id,
    opens a new connection and holds it, creates the data channel on it,
    attaches the video tracks of the stream and no other track, or a video
    transceiver when there is no stream, attaches the handlers and asks
    for the offer; the hook is connecting afterwards. *)
Theorem startStream_direct :
  forall (options : UseWebRTCOptions) (params : JSValue)
         (stream : option Media.Stream) (w : World),
    Hook.parameterTransport options = webrtc ->
    isConnecting w = false ->
    peerConnectionRef w = None ->
    let pc := nextPc w in
    let w' := Hook.exec (Hook.startStream options params stream) w in
    Hook.startStream options params stream w = (Return tt, w') /\
    isConnecting w' = true /\
    isStreaming w' = isStreaming w /\
    peerConnectionRef w' = Some pc /\
    dataChannelRef w' = Some pc /\
    currentStreamRef w' = stream /\
    livepeerStreamIdRef w' = None /\
    livepeerStreamId (api w') = None /\
    openPcs w' = pc :: openPcs w /\
    channels w' = pc :: channels w /\
    W.closure_of pc w'
    = Some {| whepUrl := None; initialParameters := params |} /\
    log w' = log w
             ++ [SetLivepeerStreamId None; NewPeerConnection pc;
                 CreateDataChannel pc]
             ++ media_effects pc stream
             ++ [AttachHandlers pc; CreateOffer pc].
Proof.
  intros options params stream w T C R pc w'. subst w' pc.
  destruct w as [rs cs ic st held dc cur sid ap np opened chs hs lg].
  cbn in C, R. subst ic held.
  unfold Hook.exec.
  rewrite (startStream_direct_value options params stream rs cs st dc cur sid ap
             np opened chs hs lg T).
  repeat split. unfold W.closure_of. cbn. rewrite N.eqb_refl. reflexivity.
Qed.

(** X9 at the first start of a hook, with a camera stream. *)
Lemma startStream_direct_witness :
  log (Hook.exec (Hook.startStream Sample.direct JUndefined (Some Sample.camera))
                 initial_world)
  = [ SetLivepeerStreamId None; NewPeerConnection 0; CreateDataChannel 0;
      AddTrack 0 {| Media.trackId := 1; Media.kind := Media.Video |};
      AttachHandlers 0; CreateOffer 0 ].
Proof.
  apply (startStream_direct Sample.direct JUndefined (Some Sample.camera)
           initial_world eq_refl eq_refl eq_refl).
Defined.

(** X10.  A start with the relay transport, when the hook is idle, makes
    the connection and asks the relay for a stream before anything else:
    one POST to [/ai/stream/start] carrying the initial parameters, sent
    to the relay itself whatever relay id is set.  Until the answer is in
    there is no data channel, no media and no handler on the connection,
    and the relay ids are left as they were. *)
Theorem startStream_relay :
  forall (options : UseWebRTCOptions) (params : JSValue)
         (stream : option Media.Stream) (w : World),
    Hook.parameterTransport options = livepeer ->
    isConnecting w = false ->
    peerConnectionRef w = None ->
    let pc := nextPc w in
    let w' := Hook.exec (Hook.startStream options params stream) w in
    Hook.startStream options params stream w = (Return tt, w') /\
    isConnecting w' = true /\
    peerConnectionRef w' = Some pc /\
    openPcs w' = pc :: openPcs w /\
    dataChannelRef w' = None /\
    channels w' = channels w /\
    handlers w' = handlers w /\
    currentStreamRef w' = stream /\
    livepeerStreamIdRef w' = livepeerStreamIdRef w /\
    api w' = api w /\
    remoteStream w' = remoteStream w /\
    connectionState w' = connectionState w /\
    isStreaming w' = isStreaming w /\
    log w' = log w
             ++ [ NewPeerConnection pc;
                  Fetch (json_request POST js"/ai/stream/start"
                           (Json (JObject [(js"initialParameters", params)]))) ].
Proof.
  intros options params stream w T C R pc w'. subst w' pc.
  destruct w as [rs cs ic st held dc cur sid ap np opened chs hs lg].
  cbn in C, R. subst ic held.
  unfold Hook.exec.
  rewrite (startStream_relay_value options params stream rs cs st dc cur sid ap
             np opened chs hs lg T).
  repeat split.
Qed.

(** X10 at a hook that still holds the id of an earlier relay stream. *)
Lemma startStream_relay_witness :
  let w := W.setApi (Sample.relayed js"old")
             (W.setLivepeerStreamIdRef (Some js"old") initial_world) in
  let w' := Hook.exec (Hook.startStream Sample.relay JUndefined None) w in
  livepeerStreamIdRef w' = Some js"old" /\
  log w' = [ NewPeerConnection 0;
             Fetch (json_request POST js"/ai/stream/start"
                      (Json (JObject [(js"initialParameters", JUndefined)]))) ].
Proof.
  pose proof (startStream_relay Sample.relay JUndefined None
                (W.setApi (Sample.relayed js"old")
                   (W.setLivepeerStreamIdRef (Some js"old") initial_world))
                eq_refl eq_refl eq_refl) as H.
  cbv zeta in H. cbv zeta. split; [apply H |].
  destruct H as (_ & _ & _ & _ & _ & _ & _ & _ & _ & _ & _ & _ & _ & L).
  exact L.
Defined.

(** X11.  When the relay answers a start with a stream and the
    connection is still open, the hook publishes the stream id to its ref
    and to the API module, attaches the media and the handlers, which
    keep the WHEP URL of the answer and the initial parameters, and asks
    for the offer; nothing else changes. *)
Theorem relay_answer_attaches :
  forall (pc : PcId) (params : JSValue) (stream : option Media.Stream)
         (response : LivepeerStreamStartResponse) (w : World),
    W.is_open pc w = true ->
    let w' := Hook.exec
                (Hook.startStream_relayStarted pc params stream (Return response))
                w in
    Hook.startStream_relayStarted pc params stream (Return response) w
    = (Return tt, w') /\
    livepeerStreamIdRef w' = Some (stream_id response) /\
    livepeerStreamId (api w') = Some (stream_id response) /\
    W.closure_of pc w'
    = Some {| whepUrl := Some (whep_url response); initialParameters := params |} /\
    log w' = log w
             ++ [SetLivepeerStreamId (Some (stream_id response))]
             ++ media_effects pc stream
             ++ [AttachHandlers pc; CreateOffer pc] /\
    isConnecting w' = isConnecting w /\
    isStreaming w' = isStreaming w /\
    peerConnectionRef w' = peerConnectionRef w /\
    openPcs w' = openPcs w /\
    dataChannelRef w' = dataChannelRef w /\
    channels w' = channels w /\
    currentStreamRef w' = currentStreamRef w /\
    remoteStream w' = remoteStream w /\
    connectionState w' = connectionState w.
Proof.
  intros pc params stream response w O w'. subst w'.
  destruct w as [rs cs ic st held dc cur sid ap np opened chs hs lg].
  unfold W.is_open in O. cbn in O.
  unfold Hook.exec.
  rewrite (relayStarted_open_value pc params stream response rs cs ic st held dc
             cur sid ap np opened chs hs lg O).
  repeat split. unfold W.closure_of. cbn. rewrite N.eqb_refl. reflexivity.
Qed.

(** X11 at the first relay start of a hook. *)
Lemma relay_answer_attaches_witness :
  let w := Hook.run Sample.relay [Hook.StartStream JUndefined None] initial_world in
  let w' := Hook.exec
              (Hook.startStream_relayStarted 0 JUndefined None
                 (Return Sample.started)) w in
  livepeerStreamIdRef w' = Some js"abc" /\
  W.closure_of 0 w'
  = Some {| whepUrl := Some js"https://relay.example/whep/abc";
            initialParameters := JUndefined |}.
Proof.
  pose proof (relay_answer_attaches 0 JUndefined None Sample.started
                (Hook.run Sample.relay [Hook.StartStream JUndefined None]
                   initial_world) eq_refl) as H.
  cbv zeta in H. cbv zeta.
  destruct H as (_ & A & _ & B & _). split; [exact A | exact B].
Defined.

(** X12.  When the relay answers a start with a stream but the connection
    has been closed in the meantime, as [stopStream] does, and there is
    media to attach, the hook publishes the new stream id and takes it
    back at once: the attempt to attach media fails, the connection the
    hook holds by then is closed and forgotten, both flags are reset and
    both relay ids end [null].  No handler is attached and no request
    goes out, to the relay or elsewhere. *)
Theorem relay_answer_after_close :
  forall (pc : PcId) (params : JSValue) (stream : option Media.Stream)
         (response : LivepeerStreamStartResponse) (w : World),
    W.is_open pc w = false ->
    media_effects pc stream <> [] ->
    let w' := Hook.exec
                (Hook.startStream_relayStarted pc params stream (Return response))
                w in
    Hook.startStream_relayStarted pc params stream (Return response) w
    = (Return tt, w') /\
    log w' = log w
             ++ [SetLivepeerStreamId (Some (stream_id response))]
             ++ closes (peerConnectionRef w)
             ++ [SetLivepeerStreamId None] /\
    livepeerStreamIdRef w' = None /\
    livepeerStreamId (api w') = None /\
    isConnecting w' = false /\
    isStreaming w' = false /\
    peerConnectionRef w' = None /\
    openPcs w' = without (peerConnectionRef w) (openPcs w) /\
    handlers w' = handlers w /\
    channels w' = channels w /\
    dataChannelRef w' = dataChannelRef w /\
    currentStreamRef w' = currentStreamRef w /\
    remoteStream w' = remoteStream w /\
    connectionState w' = connectionState w.
Proof.
  intros pc params stream response w C M w'. subst w'.
  destruct w as [rs cs ic st held dc cur sid ap np opened chs hs lg].
  unfold W.is_open in C. cbn in C.
  unfold Hook.exec.
  rewrite (relayStarted_closed_value pc params stream response rs cs ic st held
             dc cur sid ap np opened chs hs lg C M).
  repeat split.
Qed.

(** X12 at a relay start that was stopped before the relay answered: the
    answer resets the connecting flag that [stopStream] left set. *)
Lemma relay_answer_after_close_witness :
  let w := Hook.run Sample.relay
             [Hook.StartStream JUndefined None; Hook.StopStream] initial_world in
  let w' := Hook.exec
              (Hook.startStream_relayStarted 0 JUndefined None
                 (Return Sample.started)) w in
  isConnecting w = true /\
  isConnecting w' = false /\
  log w' = log w ++ [SetLivepeerStreamId (Some js"abc"); SetLivepeerStreamId None].
Proof.
  pose proof (relay_answer_after_close 0 JUndefined None Sample.started
                (Hook.run Sample.relay
                   [Hook.StartStream JUndefined None; Hook.StopStream]
                   initial_world) eq_refl
                ltac:(discriminate)) as H.
  cbv zeta in H. cbv zeta.
  destruct H as (_ & L & _ & _ & B & _).
  split; [reflexivity | split; [exact B | exact L]].
Defined.

(* ================================================================== *)
(** ** Messages on the data channel *)

(** X13.  A [stream_stopped] message on the data channel ends the session
    from the backend's side: streaming, connecting and the remote stream
    are reset, the error message, when there is one, is shown in a toast,
    the held connection is closed and forgotten, both relay ids are
    cleared and the callback, when one was passed, is called last.  Unlike
    [stopStream] the handler resets the connecting flag, and it leaves the
    data-channel ref, the local stream and the connection state as they
    are. *)
Theorem stream_stopped_notice :
  forall (options : UseWebRTCOptions) (data : JSValue) (w : World),
    stop_notice (Some data) = true ->
    let w' := Hook.exec (Hook.onDataChannelMessage options (Some data)) w in
    Hook.onDataChannelMessage options (Some data) w = (Return tt, w') /\
    isStreaming w' = false /\
    isConnecting w' = false /\
    remoteStream w' = None /\
    peerConnectionRef w' = None /\
    openPcs w' = without (peerConnectionRef w) (openPcs w) /\
    livepeerStreamIdRef w' = None /\
    livepeerStreamId (api w') = None /\
    log w' = log w ++ notice_toast data ++ closes (peerConnectionRef w)
                   ++ [SetLivepeerStreamId None] ++ notice_callback options /\
    dataChannelRef w' = dataChannelRef w /\
    currentStreamRef w' = currentStreamRef w /\
    connectionState w' = connectionState w /\
    channels w' = channels w /\
    handlers w' = handlers w.
Proof.
  intros options data w N w'. subst w'.
  destruct w as [rs cs ic st held dc cur sid ap np opened chs hs lg].
  unfold Hook.exec.
  rewrite (stop_notice_value options data rs cs ic st held dc cur sid ap np
             opened chs hs lg N).
  repeat split.
Qed.

(** X13 at a notice with an error message, on a streaming hook. *)
Lemma stream_stopped_notice_witness :
  let data := JObject [ (js"type", JString js"stream_stopped");
                        (js"error_message", JString js"out of memory") ] in
  let w' := Hook.exec (Hook.onDataChannelMessage Sample.direct (Some data))
                      streaming_world in
  log w' = log streaming_world
           ++ [ Toast (JString js"out of memory"); Close 0;
                SetLivepeerStreamId None ] /\
  dataChannelRef w' = Some 0 /\
  connectionState w' = connected.
Proof.
  pose proof (stream_stopped_notice Sample.direct
                (JObject [ (js"type", JString js"stream_stopped");
                           (js"error_message", JString js"out of memory") ])
                streaming_world eq_refl) as H.
  cbv zeta in H. cbv zeta.
  destruct H as (_ & _ & _ & _ & _ & _ & _ & _ & L & D & _ & C & _).
  split; [exact L | split; [rewrite D | rewrite C]; reflexivity].
Defined.

(** X14.  Every other message on the data channel changes nothing and
    has no effect: text that is not JSON, [null], a value that is no
    object, an object without a [type] or with another one.  The handler
    never throws. *)
Theorem other_messages_ignored :
  forall (options : UseWebRTCOptions) (parsed : option JSValue) (w : World),
    stop_notice parsed = false ->
    Hook.onDataChannelMessage options parsed w = (Return tt, w).
Proof.
  intros options parsed w N. unfold stop_notice in N.
  unfold Hook.onDataChannelMessage, Hook.try_catch.
  destruct parsed as [data |]; [| reflexivity].
  destruct data as [| | b | x | s | xs | fields]; try reflexivity.
  destruct (Js.get (JObject fields) js"type") as [| | b | x | type | xs | fs];
    try reflexivity.
  rewrite N. reflexivity.
Qed.

(** X14 at a message that is not JSON and at one of another type. *)
Lemma other_messages_ignored_witness :
  Hook.onDataChannelMessage Sample.direct None streaming_world
  = (Return tt, streaming_world) /\
  Hook.onDataChannelMessage Sample.direct
    (Some (JObject [(js"type", JString js"stats")])) streaming_world
  = (Return tt, streaming_world).
Proof.
  split.
  - apply (other_messages_ignored Sample.direct None streaming_world eq_refl).
  - apply (other_messages_ignored Sample.direct
             (Some (JObject [(js"type", JString js"stats")])) streaming_world
             eq_refl).
Defined.

(* ================================================================== *)
(** ** Ending a session *)

(** X15.  In every state the hook can reach, an event that ends the
    session leaves no connection open: [stopStream], the unmount cleanup,
    a rejected [createOffer] or [setLocalDescription], a refused relay
    start and a stop notice from the backend.  All of them but the unmount
    cleanup also forget the connection, clear both relay ids and reset
    the streaming flag. *)
Theorem session_end_closes_everything :
  forall (options : UseWebRTCOptions) (events : list Hook.Event)
         (e : Hook.Event),
    let w := Hook.run options events initial_world in
    ends_session w e = true ->
    let w' := Hook.step options w e in
    openPcs w' = [] /\
    (e <> Hook.Unmount ->
     peerConnectionRef w' = None /\
     livepeerStreamIdRef w' = None /\
     livepeerStreamId (api w') = None /\
     isStreaming w' = false).
Proof.
  intros options events e w E w'. subst w'.
  destruct (ends_session_value options e w E) as [O R].
  split; [| exact R].
  rewrite O. apply owned_without.
  apply run_owned. apply initial_owned.
Qed.

(** X15 at the unmount of a streaming hook. *)
Lemma session_end_closes_everything_witness :
  openPcs streaming_world = [0] /\
  openPcs (Hook.step Sample.direct streaming_world Hook.Unmount) = [].
Proof.
  split; [reflexivity |].
  apply (session_end_closes_everything Sample.direct
           [ Hook.StartStream JUndefined (Some Sample.camera);
             Hook.OfferCreated 0 true;
             Hook.LocalDescriptionSet true;
             Hook.IceCandidate 0 false (Some Sample.offer);
             Hook.OfferAnswered 0 (Return Sample.backend_answer);
             Hook.RemoteDescriptionSet true;
             Hook.ConnectionStateChange 0 connecting;
             Hook.ConnectionStateChange 0 connected ]
           Hook.Unmount eq_refl).
Defined.

(** X16.  After [stopStream], in whatever state it was called, the hook
    sends nothing more: a parameter update is dropped with either
    transport, [updateVideoTrack] answers [false] without touching a
    sender, and every indirection-eligible API call behaves as with a
    module that never had a relay id. *)
Theorem stopped_hook_is_silent :
  forall (options : UseWebRTCOptions) (w : World)
         (params : list (jsstring * JSValue)) (readyState : RTCDataChannelState)
         (newStream : Media.Stream) (senders : list Sender) (c : Eligible),
    let w' := Hook.exec Hook.stopStream w in
    Hook.sendParameterUpdate options params readyState w' = (Return tt, w') /\
    Hook.updateVideoTrack newStream senders w' = (Return (Resolved false), w') /\
    invoke c (api w') = invoke c Api.initial.
Proof.
  intros options w params readyState newStream senders c w'. subst w'.
  destruct w as [rs cs ic st held dc cur sid ap np opened chs hs lg].
  unfold Hook.exec. rewrite stopStream_value. cbn [snd].
  split; [| split].
  - apply sendParameterUpdate_idle; reflexivity.
  - reflexivity.
  - reflexivity.
Qed.

(* ================================================================== *)
(** ** Connection states *)

(** X17.  The connection-state handler never lets go of the connection:
    whatever state the connection reports, [failed] and [closed] included,
    the hook keeps its reference to it and closes nothing; the only effect
    is the clearing of the relay id on a lost connection with the relay
    transport.  So after any state change, a hook that holds a connection
    rejects the next [startStream] until [stopStream] is called. *)
Theorem lost_connection_is_kept :
  forall (options : UseWebRTCOptions) (pc held : PcId)
         (state : RTCPeerConnectionState) (params : JSValue)
         (stream : option Media.Stream) (w : World),
    W.closure_of pc w <> None ->
    peerConnectionRef w = Some held ->
    let w' := Hook.step options w (Hook.ConnectionStateChange pc state) in
    connectionState w' = state /\
    peerConnectionRef w' = Some held /\
    openPcs w' = openPcs w /\
    log w' = log w ++ (if drops_relay options state
                       then [SetLivepeerStreamId None] else []) /\
    (drops_relay options state = false ->
     livepeerStreamIdRef w' = livepeerStreamIdRef w /\ api w' = api w) /\
    Hook.startStream options params stream w' = (Return tt, w').
Proof.
  intros options pc held state params stream w A R w'. subst w'.
  unfold Hook.step, Hook.exec. rewrite (dispatch_attached options pc state w A).
  destruct w as [rs cs ic st h dc cur sid ap np opened chs hs lg].
  cbn in R. subst h.
  rewrite onConnectionStateChange_value. cbn [snd].
  split; [reflexivity |]. split; [reflexivity |]. split; [reflexivity |].
  split; [reflexivity |]. split.
  - intros D. rewrite D. split; reflexivity.
  - unfold Hook.startStream. rewrite bind_read. flat.
    cbn [Hook.is_some]. rewrite orb_true_r. reflexivity.
Qed.

(** X17 at a streaming hook whose connection fails. *)
Lemma lost_connection_is_kept_witness :
  let w' := Hook.step Sample.direct streaming_world
              (Hook.ConnectionStateChange 0 failed) in
  connectionState w' = failed /\
  peerConnectionRef w' = Some 0 /\
  Hook.startStream Sample.direct JUndefined (Some Sample.camera) w'
  = (Return tt, w').
Proof.
  pose proof (@lost_connection_is_kept Sample.direct 0 0 failed JUndefined
                (Some Sample.camera) streaming_world
                ltac:(discriminate) eq_refl) as H.
  cbv zeta in H. cbv zeta.
  destruct H as (A & B & _ & _ & _ & C).
  split; [exact A | split; [exact B | exact C]].
Defined.

(** X18.  With the relay transport the relay id does not survive a lost
    connection that comes back: after a change to [disconnected], [failed]
    or [closed] followed by [connected], the hook reports a streaming
    session on the same connection, but both relay ids are [null], every
    parameter update is dropped without a request, and the API calls go to
    the backend directly. *)
Theorem relay_id_lost_on_reconnect :
  forall (options : UseWebRTCOptions) (pc : PcId)
         (state : RTCPeerConnectionState)
         (params : list (jsstring * JSValue)) (readyState : RTCDataChannelState)
         (w : World),
    Hook.parameterTransport options = livepeer ->
    lost state = true ->
    W.closure_of pc w <> None ->
    let w' := Hook.run options
                [ Hook.ConnectionStateChange pc state;
                  Hook.ConnectionStateChange pc connected ] w in
    connectionState w' = connected /\
    isStreaming w' = true /\
    isConnecting w' = false /\
    peerConnectionRef w' = peerConnectionRef w /\
    openPcs w' = openPcs w /\
    livepeerStreamIdRef w' = None /\
    livepeerStreamId (api w') = None /\
    relay_set (api w') = false /\
    Hook.sendParameterUpdate options params readyState w' = (Return tt, w').
Proof.
  intros options pc state params readyState w T L A w'. subst w'.
  assert (D : drops_relay options state = true).
  { unfold drops_relay, Hook.isLivepeerTransport. rewrite T, L. reflexivity. }
  destruct w as [rs cs ic st held dc cur sid ap np opened chs hs lg].
  match goal with
  | |- context [Hook.run ?o ?es ?v] => eassert (Hr : Hook.run o es v = _)
  end.
  { cbn [Hook.run fold_left]. unfold Hook.step, Hook.exec.
    rewrite (dispatch_attached options pc state _ A).
    rewrite onConnectionStateChange_value. cbn [snd]. rewrite D.
    rewrite dispatch_attached by exact A.
    rewrite onConnectionStateChange_value. cbn [snd].
    unfold drops_relay. cbn [lost andb]. rewrite app_nil_r. reflexivity. }
  rewrite Hr. clear Hr.
  repeat split.
  apply sendParameterUpdate_unset; [exact T | reflexivity].
Qed.

(** X18 at a relay session that is disconnected for a moment. *)
Lemma relay_id_lost_on_reconnect_witness :
  let w := Hook.run Sample.relay relay_session initial_world in
  let w' := Hook.run Sample.relay
              [ Hook.ConnectionStateChange 0 disconnected;
                Hook.ConnectionStateChange 0 connected ] w in
  livepeerStreamIdRef w = Some js"abc" /\
  isStreaming w' = true /\
  livepeerStreamIdRef w' = None /\
  Hook.sendParameterUpdate Sample.relay sample_update dc_open w' = (Return tt, w').
Proof.
  pose proof (relay_id_lost_on_reconnect Sample.relay 0 disconnected
                sample_update dc_open
                (Hook.run Sample.relay relay_session initial_world)
                eq_refl eq_refl ltac:(discriminate)) as H.
  cbv zeta in H. cbv zeta.
  destruct H as (_ & A & _ & _ & _ & B & _ & _ & C).
  split; [reflexivity | split; [exact A | split; [exact B | exact C]]].
Defined.

(* ================================================================== *)
(** ** Starting again *)

(** X19.  Whether a hook can be started again after [stopStream] is
    decided by the connecting flag alone.  In every state the hook can
    reach: if it was not connecting, [stopStream] followed by
    [startStream] opens a fresh connection, the only one open, and sets
    connecting; if it was connecting, the flag is still set after
    [stopStream] and the [startStream] that follows does nothing. *)
Theorem restart_after_stop :
  forall (options : UseWebRTCOptions) (events : list Hook.Event)
         (params : JSValue) (stream : option Media.Stream),
    let w := Hook.run options events initial_world in
    let stopped := Hook.step options w Hook.StopStream in
    let again := Hook.step options stopped (Hook.StartStream params stream) in
    (isConnecting w = false ->
     peerConnectionRef again = Some (nextPc w) /\
     openPcs again = [nextPc w] /\
     isConnecting again = true /\
     currentStreamRef again = stream) /\
    (isConnecting w = true -> again = stopped).
Proof.
  intros options events params stream w stopped again.
  assert (O : owned w) by (apply run_owned; apply initial_owned).
  pose proof (owned_without O) as X.
  subst again stopped. clearbody w. clear events.
  destruct w as [rs cs ic st held dc cur sid ap np opened chs hs lg].
  cbn [peerConnectionRef openPcs] in X.
  unfold Hook.step, Hook.exec. cbn [Hook.handle].
  rewrite stopStream_value. cbn [snd]. rewrite X.
  split; intros C; cbn in C; subst ic.
  - destruct (Hook.parameterTransport options) eqn:T.
    + rewrite (startStream_direct_value options params stream None new false
                 None None None (Api.setLivepeerStreamId None ap) np [] chs hs
                 (lg ++ closes held ++ [SetLivepeerStreamId None]) T).
      repeat split.
    + rewrite (startStream_relay_value options params stream None new false
                 None None None (Api.setLivepeerStreamId None ap) np [] chs hs
                 (lg ++ closes held ++ [SetLivepeerStreamId None]) T).
      repeat split.
  - reflexivity.
Qed.

(** X19 at a hook that streams: it is not connecting any more, and a stop
    followed by a start opens connection [1]. *)
Lemma restart_after_stop_witness :
  let again := Hook.run Sample.direct
                 [ Hook.StopStream;
                   Hook.StartStream JUndefined (Some Sample.camera) ]
                 streaming_world in
  peerConnectionRef again = Some 1 /\ openPcs again = [1].
Proof.
  pose proof (restart_after_stop Sample.direct
                [ Hook.StartStream JUndefined (Some Sample.camera);
                  Hook.OfferCreated 0 true;
                  Hook.LocalDescriptionSet true;
                  Hook.IceCandidate 0 false (Some Sample.offer);
                  Hook.OfferAnswered 0 (Return Sample.backend_answer);
                  Hook.RemoteDescriptionSet true;
                  Hook.ConnectionStateChange 0 connecting;
                  Hook.ConnectionStateChange 0 connected ]
                JUndefined (Some Sample.camera)) as H.
  cbv zeta in H. destruct H as [H _].
  destruct (H eq_refl) as (A & B & _).
  split; [exact A | exact B].
Defined.

(* ================================================================== *)
(** ** The WHEP answer *)

(** X20.  From a settled WHEP request the handler applies one remote
    description or none.  It applies an answer only for a 2xx response,
    and the SDP it takes is the first truthy one among the fields [sdp],
    [answer], [data] of a JSON body, or the body text when the content
    type is not JSON; the SDP it applies is never falsy.  In every other
    case it only sets connecting to false.  It never throws and never
    closes the connection. *)
Theorem whep_answer_reading :
  forall (pc : PcId) (o : Settled) (w : World),
    Hook.onIceCandidate_whepAnswered pc o w
    = (Return tt,
       match accepted_sdp o with
       | Some answerSdp =>
           W.emit (SetRemoteDescription pc
                     (JObject [ (js"type", JString js"answer");
                                (js"sdp", answerSdp) ])) w
       | None => W.setIsConnecting false w
       end) /\
    (forall answerSdp,
        accepted_sdp o = Some answerSdp -> Js.truthy answerSdp = true).
Proof.
  intros pc o w. split.
  - apply whepAnswered_value.
  - intros answerSdp. unfold accepted_sdp.
    destruct o as [r |]; [| discriminate].
    destruct (ok r); [| discriminate].
    intros F. apply find_some in F. tauto.
Qed.

(** X20 at JSON answers: [sdp] wins over [data], and an empty [sdp] gives
    way to [answer]. *)
Lemma whep_answer_reading_witness :
  accepted_sdp
    (Responded
       (Sample.answer 201 "Created" "..."
          (Some (JObject [ (js"data", JString js"v=0 d");
                           (js"sdp", JString js"v=0 s") ]))))
  = Some (JString js"v=0 s") /\
  accepted_sdp
    (Responded
       (Sample.answer 201 "Created" "..."
          (Some (JObject [ (js"sdp", JString []);
                           (js"answer", JString js"v=0 a") ]))))
  = Some (JString js"v=0 a") /\
  Js.truthy (JString js"v=0 a") = true.
Proof.
  split; [reflexivity | split; [reflexivity |]].
  apply (proj2 (whep_answer_reading 0
                  (Responded
                     (Sample.answer 201 "Created" "..."
                        (Some (JObject [ (js"sdp", JString []);
                                         (js"answer", JString js"v=0 a") ]))))
                  initial_world)
               (JString js"v=0 a") eq_refl).
Defined.

(* ================================================================== *)
(** ** The filter of parameter updates *)

(** X21.  Whatever fields it is given, the filter of [sendParameterUpdate]
    yields an object with distinct keys, all of them keys of the argument
    and none of them [__proto__], and no value [undefined] or [null];
    filtering again changes nothing, so an update that was already
    filtered is sent exactly as the unfiltered one is. *)
Theorem filterParams_normal :
  forall (options : UseWebRTCOptions) (params : list (jsstring * JSValue))
         (readyState : RTCDataChannelState) (w : World),
    let kept := Hook.filterParams params in
    NoDup (Js.keys kept) /\
    forallb present kept = true /\
    ~ In js"__proto__" (Js.keys kept) /\
    (forall k, In k (Js.keys kept) -> In k (Js.keys params)) /\
    Hook.filterParams kept = kept /\
    Hook.sendParameterUpdate options kept readyState w
    = Hook.sendParameterUpdate options params readyState w.
Proof.
  intros options params readyState w kept.
  destruct (filter_loop_normal params [] (NoDup_nil _) eq_refl
              (fun absurd => absurd))
    as (A & B & C & D).
  fold (Hook.filterParams params) in A, B, C, D. fold kept in A, B, C, D.
  assert (I : Hook.filterParams kept = kept).
  { rewrite (filterParams_filter kept A). apply filter_all_survive; assumption. }
  repeat split; try assumption.
  - intros k H. destruct (D k H) as [[] | H']. exact H'.
  - unfold Hook.sendParameterUpdate. rewrite I. reflexivity.
Qed.

(** X21 at an update with a field named [__proto__] and a field given
    twice: the first is dropped, the second kept once, with its last
    value. *)
Lemma filterParams_normal_witness :
  Hook.filterParams
    [ (js"__proto__", JObject []); (js"paused", JBool true);
      (js"paused", JBool false) ]
  = [ (js"paused", JBool false) ] /\
  Hook.filterParams [ (js"paused", JBool false) ] = [ (js"paused", JBool false) ].
Proof.
  split; [reflexivity |].
  pose proof (filterParams_normal Sample.direct
                [ (js"__proto__", JObject []); (js"paused", JBool true);
                  (js"paused", JBool false) ]
                dc_open initial_world) as H.
  cbv zeta in H. destruct H as (_ & _ & _ & _ & I & _). exact I.
Defined.

(* ================================================================== *)
(** ** A session from start to [connected] *)

(** X22.  With the data-channel transport, a session that meets no
    failure runs in this order, from an idle hook to [connected]: the
    stale relay id is cleared, the connection and its data channel are
    made, the media and the handlers attached, the offer created and set;
    at the end of ICE gathering the offer goes to the backend's
    [/api/v1/webrtc/offer], not to the relay, together with the initial
    parameters of this start; the answer is set as remote description.
    The hook then streams, is no longer connecting, and holds the one
    connection it opened. *)
Theorem direct_session :
  forall (options : UseWebRTCOptions) (params : JSValue)
         (stream : option Media.Stream) (d : SessionDescription)
         (answer : JSValue) (w : World),
    Hook.parameterTransport options = webrtc ->
    isConnecting w = false ->
    peerConnectionRef w = None ->
    let pc := nextPc w in
    let w' := Hook.run options
                [ Hook.StartStream params stream;
                  Hook.OfferCreated pc true;
                  Hook.LocalDescriptionSet true;
                  Hook.IceCandidate pc false (Some d);
                  Hook.OfferAnswered pc (Return answer);
                  Hook.RemoteDescriptionSet true;
                  Hook.ConnectionStateChange pc connected ] w in
    isStreaming w' = true /\
    isConnecting w' = false /\
    connectionState w' = connected /\
    peerConnectionRef w' = Some pc /\
    dataChannelRef w' = Some pc /\
    openPcs w' = pc :: openPcs w /\
    livepeerStreamIdRef w' = None /\
    livepeerStreamId (api w') = None /\
    log w' = log w
             ++ [SetLivepeerStreamId None; NewPeerConnection pc;
                 CreateDataChannel pc]
             ++ media_effects pc stream
             ++ [ AttachHandlers pc; CreateOffer pc; SetLocalDescription pc;
                  Fetch (json_request POST js"/api/v1/webrtc/offer"
                           (Json (JObject
                                    [ (js"sdp", JString (sdp d));
                                      (js"type", JString (type_ d));
                                      (js"initialParameters", params) ])));
                  SetRemoteDescription pc answer ].
Proof.
  intros options params stream d answer w T C R pc w'. subst w' pc.
  destruct w as [rs cs ic st held dc cur sid ap np opened chs hs lg].
  cbn in C, R. subst ic held. cbn [nextPc].
  rewrite (direct_session_value options params stream d answer rs cs st dc cur
             sid ap np opened chs hs lg T).
  repeat split.
Qed.

(** X22 at the first session of a hook, with a camera stream. *)
Lemma direct_session_witness :
  let w := Hook.run Sample.direct
             [ Hook.StartStream JUndefined (Some Sample.camera);
               Hook.OfferCreated 0 true;
               Hook.LocalDescriptionSet true;
               Hook.IceCandidate 0 false (Some Sample.offer);
               Hook.OfferAnswered 0 (Return Sample.backend_answer);
               Hook.RemoteDescriptionSet true;
               Hook.ConnectionStateChange 0 connected ]
             initial_world in
  isStreaming w = true /\ peerConnectionRef w = Some 0 /\ openPcs w = [0].
Proof.
  pose proof (direct_session Sample.direct JUndefined (Some Sample.camera)
                Sample.offer Sample.backend_answer initial_world
                eq_refl eq_refl eq_refl) as H.
  cbv zeta in H. destruct H as (A & _ & _ & B & _ & C & _).
  cbv zeta. split; [exact A | split; [exact B | exact C]].
Defined.

(** X23.  With the relay transport, a session that meets no failure runs
    in this order, from an idle hook to [connected]: the connection is
    made and the relay asked for a stream; when it answers, its stream id
    is published, the media and the handlers are attached, the offer
    created and set; at the end of ICE gathering the SDP of the offer is
    posted as [application/sdp] to the WHEP URL of that answer, and the
    accepted SDP of the response is set as remote description of type
    [answer].  The hook then streams, holds the one connection it opened
    and the relay's stream id, and has no data channel. *)
Theorem relay_session_path :
  forall (options : UseWebRTCOptions) (params : JSValue)
         (stream : option Media.Stream)
         (response : LivepeerStreamStartResponse) (d : SessionDescription)
         (o : Settled) (answerSdp : JSValue) (w : World),
    Hook.parameterTransport options = livepeer ->
    isConnecting w = false ->
    peerConnectionRef w = None ->
    JsString.truthy (whep_url response) = true ->
    JsString.truthy (sdp d) = true ->
    accepted_sdp o = Some answerSdp ->
    let pc := nextPc w in
    let w' := Hook.run options
                [ Hook.StartStream params stream;
                  Hook.RelayStarted pc params stream (Return response);
                  Hook.OfferCreated pc true;
                  Hook.LocalDescriptionSet true;
                  Hook.IceCandidate pc false (Some d);
                  Hook.WhepAnswered pc o;
                  Hook.RemoteDescriptionSet true;
                  Hook.ConnectionStateChange pc connected ] w in
    isStreaming w' = true /\
    isConnecting w' = false /\
    connectionState w' = connected /\
    peerConnectionRef w' = Some pc /\
    dataChannelRef w' = None /\
    channels w' = channels w /\
    openPcs w' = pc :: openPcs w /\
    livepeerStreamIdRef w' = Some (stream_id response) /\
    livepeerStreamId (api w') = Some (stream_id response) /\
    log w' = log w
             ++ [ NewPeerConnection pc;
                  Fetch (json_request POST js"/ai/stream/start"
                           (Json (JObject [(js"initialParameters", params)])));
                  SetLivepeerStreamId (Some (stream_id response)) ]
             ++ media_effects pc stream
             ++ [ AttachHandlers pc; CreateOffer pc; SetLocalDescription pc;
                  Fetch {| url := whep_url response; method := POST;
                           contentType := js"application/sdp";
                           body := Raw (sdp d) |};
                  SetRemoteDescription pc
                    (JObject [ (js"type", JString js"answer");
                               (js"sdp", answerSdp) ]) ].
Proof.
  intros options params stream response d o answerSdp w T C R U D A pc w'.
  subst w' pc.
  destruct w as [rs cs ic st held dc cur sid ap np opened chs hs lg].
  cbn in C, R. subst ic held. cbn [nextPc].
  rewrite (relay_session_value options params stream response d o rs cs st dc
             cur sid ap np opened chs hs lg T U D A).
  repeat split.
Qed.

(** X23 at the first session of a hook, with the relay's answer [201
    Created] and an SDP body. *)
Lemma relay_session_path_witness :
  let w := Hook.run Sample.relay
             [ Hook.StartStream JUndefined None;
               Hook.RelayStarted 0 JUndefined None (Return Sample.started);
               Hook.OfferCreated 0 true;
               Hook.LocalDescriptionSet true;
               Hook.IceCandidate 0 false (Some Sample.offer);
               Hook.WhepAnswered 0 (Responded Sample.whep_answer);
               Hook.RemoteDescriptionSet true;
               Hook.ConnectionStateChange 0 connected ]
             initial_world in
  isStreaming w = true /\
  livepeerStreamIdRef w = Some js"abc" /\
  dataChannelRef w = None.
Proof.
  pose proof (@relay_session_path Sample.relay JUndefined None Sample.started
                Sample.offer (Responded Sample.whep_answer)
                (JString js"v=0 (answer)") initial_world
                eq_refl eq_refl eq_refl eq_refl eq_refl eq_refl) as H.
  cbv zeta in H. destruct H as (A & _ & _ & _ & B & _ & _ & C & _).
  cbv zeta. split; [exact A | split; [exact C | exact B]].
Defined.
